(** * Pavo image labeling tool: the ingestion pipeline, verified

    A shallow embedding of the data pipeline of the two application
    variants of the repository,

      - [src/App.tsx]           (module [AppTsx] below), and
      - [src/unnamed/part_000]  (module [Part000] below),

    together with the JavaScript built-ins they call.  The tag-text
    parser and the flat exporter differ between the two files and are
    embedded once per file; the session import, the spreadsheet
    ingestion and the tag toggle have the same text in both files and
    are embedded once, in module [Pipeline].

    Modelling decisions.
    - A JavaScript value ([any]) is a [val].  Numbers are integers
      ([Z]): the ids this program handles.  Strings are byte strings
      (UTF-8); every character the program searches for is ASCII, so
      splitting and replacing on bytes is splitting and replacing on
      code units.
    - Arrays and objects carry no identity: [strict_eq] on two of them
      answers [false], which is what [===] answers for two values that
      sit at different places of a parsed document.
    - A [TypeError] (property access on [null]/[undefined], a method
      call on a value that lacks the method) is [Throw] in the monad
      [res]; each handler turns it into the message its [catch] sets.
    - [JSON.parse] is a parameter of the handlers that call it.  Module
      [Json] gives a reference parser for the integer fragment of the
      JSON grammar, used to run the handlers on concrete texts.
    - [Date.now()] and [Math.random()] are parameters ([clock],
      [random36]) indexed by the record being processed.

    - [String.prototype.toLowerCase] is a parameter of the search
      ([toLowerCase]), and so is the list [IMAGE_URLS] of
      [./constants], which the demo session is built from.
    - The [groups] object of the summary view is a list of own
      properties with an optional array in place of its prototype;
      the names [Object.prototype] and [Array.prototype] answer to are
      parameters ([object_inherits], [array_inherits]).

    Layout.  The embedding comes first ([Str], [JS], [Json],
    [Pipeline], [AppTsx], [Part000], [SummaryView]).  Module [Spec]
    holds the definitions that follow the wording of the
    specification, to be compared with the code; module [Notions]
    holds the predicates the statements are written with; [Sample] and
    [Texts] hold concrete inputs.  The lemma modules and the theorems
    C1 to C10 follow, and after them the further properties of the
    handlers, X1 to X26. *)

From Stdlib Require Import String Ascii List ZArith NArith Bool Lia Arith.
From Stdlib Require Import DecimalString DecimalPos DecimalZ.
Import ListNotations.
Local Open Scope string_scope.
Local Open Scope list_scope.

(** ** JavaScript strings *)

Module Str.

(** [s.split(sep)] for a one-character separator: never empty. *)
Fixpoint split (sep : ascii) (s : string) : list string :=
  match s with
  | EmptyString => [EmptyString]
  | String c rest =>
      if Ascii.eqb c sep then EmptyString :: split sep rest
      else match split sep rest with
           | seg :: segs => String c seg :: segs
           | [] => [String c EmptyString]
           end
  end.

(** [arr.pop()]: the last element, [undefined] on an empty array. *)
Fixpoint pop (l : list string) : option string :=
  match l with
  | [] => None
  | [x] => Some x
  | _ :: tl => pop tl
  end.

(** [arr[0]]. *)
Definition first (l : list string) : option string := hd_error l.

(** [s.startsWith(p)]. *)
Fixpoint starts_with (p s : string) : bool :=
  match p, s with
  | EmptyString, _ => true
  | String a p', String b s' => Ascii.eqb a b && starts_with p' s'
  | String _ _, EmptyString => false
  end.

(** [s.includes(p)]: [p] occurs in [s]. *)
Fixpoint contains (p s : string) : bool :=
  starts_with p s ||
  match s with
  | EmptyString => false
  | String _ s' => contains p s'
  end.

Fixpoint drop (n : nat) (s : string) : string :=
  match n, s with
  | S k, String _ s' => drop k s'
  | _, _ => s
  end.

(** [s.replace(/pat/g, rep)] for a literal, non-empty [pat] and a
    replacement without [$]: every leftmost non-overlapping occurrence
    is replaced.  [skip] counts the characters of a matched occurrence
    still to be passed over. *)
Fixpoint replace_from (pat rep : string) (skip : nat) (s : string) : string :=
  match s with
  | EmptyString => EmptyString
  | String c rest =>
      match skip with
      | S k => replace_from pat rep k rest
      | O =>
          if starts_with pat s
          then rep ++ replace_from pat rep (String.length pat - 1) rest
          else String c (replace_from pat rep O rest)
      end
  end.

Definition replace_all (pat rep s : string) : string :=
  replace_from pat rep O s.

(** ASCII case folding: what a [/.../i] pattern made of ASCII letters
    compares modulo. *)
Definition lower_ascii (c : ascii) : ascii :=
  let n := nat_of_ascii c in
  if (65 <=? n)%nat && (n <=? 90)%nat then ascii_of_nat (n + 32) else c.

Fixpoint lower (s : string) : string :=
  match s with
  | EmptyString => EmptyString
  | String c s' => String (lower_ascii c) (lower s')
  end.

Fixpoint rev_onto (s acc : string) : string :=
  match s with
  | EmptyString => acc
  | String c s' => rev_onto s' (String c acc)
  end.

Definition rev (s : string) : string := rev_onto s EmptyString.

Definition of_bytes (l : list nat) : string :=
  string_of_list_ascii (map ascii_of_nat l).

(** The white space and line terminators [trim] removes, in UTF-8:
    TAB LF VT FF CR SP, U+00A0, U+1680, U+2000..U+200A, U+2028,
    U+2029, U+202F, U+205F, U+3000, U+FEFF. *)
Definition white_space : list string :=
  map of_bytes
    ([[9]; [10]; [11]; [12]; [13]; [32]; [194; 160]; [225; 154; 128]]
     ++ map (fun b => [226; 128; b]) (seq 128 11)
     ++ [[226; 128; 168]; [226; 128; 169]; [226; 128; 175];
         [226; 129; 159]; [227; 128; 128]; [239; 187; 191]])%nat.

(** Length of the white-space character [s] starts with, if any. *)
Definition leading (seqs : list string) (s : string) : option nat :=
  option_map String.length (find (fun w => starts_with w s) seqs).

Fixpoint strip (seqs : list string) (fuel : nat) (s : string) : string :=
  match fuel with
  | O => s
  | S f =>
      match leading seqs s with
      | Some n => strip seqs f (drop n s)
      | None => s
      end
  end.

Definition trim_start (s : string) : string :=
  strip white_space (String.length s) s.

Definition trim_end (s : string) : string :=
  rev (strip (map rev white_space) (String.length s) (rev s)).

(** [s.trim()]. *)
Definition trim (s : string) : string := trim_end (trim_start s).

(** The double quote, and the one-character string holding it. *)
Definition dquote : ascii := ascii_of_nat 34.
Definition quote : string := String dquote EmptyString.

(** [String(n)] for an integer. *)
Definition of_Z (z : Z) : string := NilZero.string_of_int (Z.to_int z).

(** The value of a digit of radix 10 or 16. *)
Definition digit_value (c : ascii) : option Z :=
  let n := nat_of_ascii c in
  if (48 <=? n)%nat && (n <=? 57)%nat then Some (Z.of_nat (n - 48))
  else if (97 <=? n)%nat && (n <=? 102)%nat then Some (Z.of_nat (n - 87))
  else if (65 <=? n)%nat && (n <=? 70)%nat then Some (Z.of_nat (n - 55))
  else None.

(** The value of the longest prefix of [s] made of radix-[radix]
    digits, read after the digits of value [acc]; [None] when neither
    has a digit. *)
Fixpoint digits_prefix (radix : Z) (acc : option Z) (s : string) : option Z :=
  match s with
  | EmptyString => acc
  | String c rest =>
      match digit_value c with
      | Some d =>
          if (d <? radix)%Z
          then digits_prefix radix
                 (Some (match acc with Some a => a * radix + d | None => d end)%Z) rest
          else acc
      | None => acc
      end
  end.

(** [parseInt(s)] without a radix: leading white space is skipped, a
    sign is read, [0x]/[0X] selects radix 16, and the longest prefix of
    digits is the value; [None] is [NaN].  The value is the integer the
    digits denote; the number JavaScript returns is that integer rounded
    to a double, which compares with a small integer as the integer
    does. *)
Definition parseInt (s : string) : option Z :=
  let s := trim_start s in
  let '(negative, s) :=
    match s with
    | String "-" rest => (true, rest)
    | String "+" rest => (false, rest)
    | _ => (false, s)
    end in
  let '(radix, s) :=
    match s with
    | String "0" (String "x" rest) | String "0" (String "X" rest) => (16%Z, rest)
    | _ => (10%Z, s)
    end in
  option_map (fun n => if negative then (- n)%Z else n) (digits_prefix radix None s).

End Str.

(** ** JavaScript values *)

Module JS.

#[warnings="-register-all"]
Inductive val : Type :=
| VUndef
| VNull
| VBool (b : bool)
| VNum (n : Z)
| VStr (s : string)
| VArr (items : list val)
| VObj (fields : list (string * val)).

(** Result of a computation that may raise a [TypeError]. *)
Inductive res (A : Type) : Type :=
| Ok (a : A)
| Throw.
Arguments Ok {A} a.
Arguments Throw {A}.

Definition bind {A B : Type} (m : res A) (k : A -> res B) : res B :=
  match m with
  | Ok a => k a
  | Throw => Throw
  end.

(** [arr.forEach(f)] over a state, stopping at the first exception. *)
Fixpoint for_each {A S : Type} (f : A -> S -> res S) (l : list A) (st : S) : res S :=
  match l with
  | [] => Ok st
  | x :: tl => bind (f x st) (for_each f tl)
  end.

(** [arr.map(f)], stopping at the first exception. *)
Fixpoint map_res {A B : Type} (f : A -> res B) (l : list A) : res (list B) :=
  match l with
  | [] => Ok []
  | x :: tl => bind (f x) (fun y => bind (map_res f tl) (fun ys => Ok (y :: ys)))
  end.

(** ToBoolean. *)
Definition truthy (v : val) : bool :=
  match v with
  | VUndef | VNull => false
  | VBool b => b
  | VNum n => negb (n =? 0)%Z
  | VStr s => negb (s =? "")
  | VArr _ | VObj _ => true
  end.

(** [a || b]. *)
Definition or_else (a b : val) : val := if truthy a then a else b.

(** [a === b]; also SameValueZero, the two differ on NaN only. *)
Definition strict_eq (a b : val) : bool :=
  match a, b with
  | VUndef, VUndef | VNull, VNull => true
  | VBool x, VBool y => Bool.eqb x y
  | VNum x, VNum y => (x =? y)%Z
  | VStr x, VStr y => (x =? y)
  | _, _ => false
  end.

(** [arr.includes(x)], [set.has(x)]. *)
Definition includes (x : val) (l : list val) : bool :=
  existsb (strict_eq x) l.

Definition is_array (v : val) : bool :=
  match v with VArr _ => true | _ => false end.

(** [typeof v === 'string']. *)
Definition is_string (v : val) : bool :=
  match v with VStr _ => true | _ => false end.

(** [typeof v === 'object']: objects, arrays and [null]. *)
Definition typeof_object (v : val) : bool :=
  match v with VNull | VArr _ | VObj _ => true | _ => false end.

Fixpoint lookup (k : string) (fields : list (string * val)) : val :=
  match fields with
  | [] => VUndef
  | (k', v) :: tl => if (k' =? k) then v else lookup k tl
  end.

(** The value of [v.k] when [v] is not [null]/[undefined].  The keys
    this program reads are no built-in property of a string, a number,
    a boolean or an array. *)
Definition prop (v : val) (k : string) : val :=
  match v with
  | VObj fs => lookup k fs
  | _ => VUndef
  end.

(** [v.k], [v[k]]. *)
Definition get (v : val) (k : string) : res val :=
  match v with
  | VUndef | VNull => Throw
  | _ => Ok (prop v k)
  end.

(** [k in v]. *)
Definition has_key (k : string) (v : val) : res bool :=
  match v with
  | VObj fs => Ok (existsb (fun kv => fst kv =? k) fs)
  | VArr _ => Ok false
  | _ => Throw
  end.

Definition join (sep : string) (l : list string) : string := String.concat sep l.

(** [String(v)] and [`${v}`]. *)
Fixpoint to_string (v : val) : string :=
  match v with
  | VUndef => "undefined"
  | VNull => "null"
  | VBool true => "true"
  | VBool false => "false"
  | VNum n => Str.of_Z n
  | VStr s => s
  | VArr l =>
      join "," (map (fun x => match x with
                              | VUndef | VNull => ""
                              | _ => to_string x
                              end) l)
  | VObj _ => "[object Object]"
  end.

(** [JSON.parse(JSON.stringify(v))]: properties holding [undefined]
    are dropped, [undefined] array slots become [null]. *)
Fixpoint json_clone (v : val) : val :=
  match v with
  | VArr l =>
      VArr (map (fun x => match x with
                          | VUndef => VNull
                          | _ => json_clone x
                          end) l)
  | VObj fs =>
      VObj ((fix clone_fields (fs : list (string * val)) : list (string * val) :=
               match fs with
               | [] => []
               | (k, VUndef) :: tl => clone_fields tl
               | (k, x) :: tl => (k, json_clone x) :: clone_fields tl
               end) fs)
  | _ => v
  end.

(** Assignment [obj[k] = v] while an object is being built. *)
Fixpoint obj_set (k : string) (v : val) (fields : list (string * val))
  : list (string * val) :=
  match fields with
  | [] => [(k, v)]
  | (k', v') :: tl =>
      if (k' =? k) then (k', v) :: tl else (k', v') :: obj_set k v tl
  end.

(** [arr.some(f)] for a callback that may throw: stops at the first
    element [f] accepts. *)
Fixpoint some_res {A : Type} (f : A -> res bool) (l : list A) : res bool :=
  match l with
  | [] => Ok false
  | x :: tl => bind (f x) (fun b => if b then Ok true else some_res f tl)
  end.

(** [arr.filter(f)] for a callback that may throw. *)
Fixpoint filter_res {A : Type} (f : A -> res bool) (l : list A) : res (list A) :=
  match l with
  | [] => Ok []
  | x :: tl =>
      bind (f x) (fun b =>
      bind (filter_res f tl) (fun kept => Ok (if b then x :: kept else kept)))
  end.

(** [arr.findIndex(p)]; [None] is [-1]. *)
Fixpoint findIndex {A : Type} (p : A -> bool) (l : list A) : option nat :=
  match l with
  | [] => None
  | x :: tl => if p x then Some O else option_map S (findIndex p tl)
  end.

End JS.

Notation "x <- m ;; k" := (JS.bind m (fun x => k))
  (at level 61, m at next level, right associativity).

(** ** A reference [JSON.parse] for the integer fragment of JSON *)

Module Json.
Import JS.

Definition is_ws (c : ascii) : bool :=
  match nat_of_ascii c with
  | 9 | 10 | 13 | 32 => true
  | _ => false
  end%nat.

Fixpoint skip_ws (s : string) : string :=
  match s with
  | String c rest => if is_ws c then skip_ws rest else s
  | EmptyString => s
  end.

Definition digit (c : ascii) : option Z :=
  let n := nat_of_ascii c in
  if (48 <=? n)%nat && (n <=? 57)%nat then Some (Z.of_nat (n - 48)) else None.

Fixpoint digits (acc : Z) (s : string) : Z * string :=
  match s with
  | String c rest =>
      match digit c with
      | Some d => digits (10 * acc + d) rest
      | None => (acc, s)
      end
  | EmptyString => (acc, s)
  end.

(** A fraction or an exponent follows: outside the fragment. *)
Definition continues_number (s : string) : bool :=
  match s with
  | String c _ => Ascii.eqb c "." || Ascii.eqb c "e" || Ascii.eqb c "E"
  | EmptyString => false
  end.

Definition natural (s : string) : option (Z * string) :=
  match s with
  | String c rest =>
      match digit c with
      | Some 0%Z => if continues_number rest then None else Some (0%Z, rest)
      | Some d =>
          let '(n, rest') := digits d rest in
          if continues_number rest' then None else Some (n, rest')
      | None => None
      end
  | EmptyString => None
  end.

Definition number (s : string) : option (Z * string) :=
  match s with
  | String "-" rest =>
      match natural rest with
      | Some (n, r) => Some ((- n)%Z, r)
      | None => None
      end
  | _ => natural s
  end.

Definition hex (c : ascii) : option N :=
  let n := N_of_ascii c in
  (if (48 <=? n) && (n <=? 57) then Some (n - 48)
   else if (65 <=? n) && (n <=? 70) then Some (n - 55)
   else if (97 <=? n) && (n <=? 102) then Some (n - 87)
   else None)%N.

(** UTF-8 of a code point of the Basic Multilingual Plane; surrogates
    are outside the fragment. *)
Definition utf8 (cp : N) : option string :=
  let bytes l := Some (Str.of_bytes (map N.to_nat l)) in
  (if cp <? 128 then bytes [cp]
   else if cp <? 2048 then bytes [192 + cp / 64; 128 + cp mod 64]
   else if (55296 <=? cp) && (cp <=? 57343) then None
   else bytes [224 + cp / 4096; 128 + (cp / 64) mod 64; 128 + cp mod 64])%N.

Definition simple_escape (c : ascii) : option ascii :=
  if Ascii.eqb c Str.dquote then Some Str.dquote else
  match c with
  | "\"%char => Some "\"%char
  | "/"%char => Some "/"%char
  | "b"%char => Some (ascii_of_nat 8)
  | "f"%char => Some (ascii_of_nat 12)
  | "n"%char => Some (ascii_of_nat 10)
  | "r"%char => Some (ascii_of_nat 13)
  | "t"%char => Some (ascii_of_nat 9)
  | _ => None
  end.

Definition prepend (p : string) (r : option (string * string)) : option (string * string) :=
  match r with
  | Some (body, rest) => Some ((p ++ body)%string, rest)
  | None => None
  end.

(** The characters of a string literal after its opening quote. *)
Fixpoint string_body (s : string) : option (string * string) :=
  match s with
  | EmptyString => None
  | String c rest =>
      if Ascii.eqb c Str.dquote then Some (EmptyString, rest)
      else if Ascii.eqb c "\" then
        match rest with
        | String "u" (String a (String b (String c' (String d rest')))) =>
            match hex a, hex b, hex c', hex d with
            | Some x, Some y, Some z, Some w =>
                match utf8 (((x * 16 + y) * 16 + z) * 16 + w)%N with
                | Some enc => prepend enc (string_body rest')
                | None => None
                end
            | _, _, _, _ => None
            end
        | String e rest' =>
            match simple_escape e with
            | Some ch => prepend (String ch EmptyString) (string_body rest')
            | None => None
            end
        | EmptyString => None
        end
      else if (nat_of_ascii c <? 32)%nat then None
      else prepend (String c EmptyString) (string_body rest)
  end.

Fixpoint value (fuel : nat) (s : string) {struct fuel} : option (val * string) :=
  match fuel with
  | O => None
  | S f =>
      match skip_ws s with
      | String "[" rest =>
          match skip_ws rest with
          | String "]" rest' => Some (VArr [], rest')
          | _ => elements f [] rest
          end
      | String "{" rest =>
          match skip_ws rest with
          | String "}" rest' => Some (VObj [], rest')
          | _ => members f [] rest
          end
      | String "n" (String "u" (String "l" (String "l" rest))) => Some (VNull, rest)
      | String "t" (String "r" (String "u" (String "e" rest))) => Some (VBool true, rest)
      | String "f" (String "a" (String "l" (String "s" (String "e" rest)))) =>
          Some (VBool false, rest)
      | String c rest as s' =>
          if Ascii.eqb c Str.dquote then
            match string_body rest with
            | Some (str, rest') => Some (VStr str, rest')
            | None => None
            end
          else
            match number s' with
            | Some (n, rest') => Some (VNum n, rest')
            | None => None
            end
      | EmptyString => None
      end
  end
with elements (fuel : nat) (acc : list val) (s : string) {struct fuel}
  : option (val * string) :=
  match fuel with
  | O => None
  | S f =>
      match value f s with
      | Some (v, rest) =>
          match skip_ws rest with
          | String "," rest' => elements f (acc ++ [v]) rest'
          | String "]" rest' => Some (VArr (acc ++ [v]), rest')
          | _ => None
          end
      | None => None
      end
  end
with members (fuel : nat) (acc : list (string * val)) (s : string) {struct fuel}
  : option (val * string) :=
  match fuel with
  | O => None
  | S f =>
      match skip_ws s with
      | String c rest =>
          if Ascii.eqb c Str.dquote then
            match string_body rest with
            | Some (key, rest1) =>
                match skip_ws rest1 with
                | String ":" rest2 =>
                    match value f rest2 with
                    | Some (v, rest3) =>
                        match skip_ws rest3 with
                        | String "," rest4 => members f (obj_set key v acc) rest4
                        | String "}" rest4 => Some (VObj (obj_set key v acc), rest4)
                        | _ => None
                        end
                    | None => None
                    end
                | _ => None
                end
            | None => None
            end
          else None
      | EmptyString => None
      end
  end.

(** [JSON.parse(text)]; [None] stands for the [SyntaxError]. *)
Definition parse (text : string) : option val :=
  match value (2 * String.length text + 2)%nat text with
  | Some (v, rest) =>
      match skip_ws rest with
      | EmptyString => Some v
      | _ => None
      end
  | None => None
  end.

End Json.

(** ** The session model and the code both files share *)

Module Pipeline.
Import JS.

(** [interface TagDefinition].  TypeScript's types are erased at run
    time: a field holds whatever value the ingestion code put there;
    [content] is [VUndef] when the literal omits it. *)
Record TagDefinition : Type := {
  tag : val;
  title1 : val;
  title2 : val;
  content : val
}.

(** [interface ImageItem]; [id] and [filename] are always built by
    string operations. *)
Record ImageItem : Type := {
  id : string;
  url : val;
  filename : string;
  tags : list val;
  hotelId : val;
  hotelName : val;
  originalImageId : val
}.

(** [{ ...img, tags: ts }]. *)
Definition with_tags (img : ImageItem) (ts : list val) : ImageItem :=
  {| id := id img; url := url img; filename := filename img; tags := ts;
     hotelId := hotelId img; hotelName := hotelName img;
     originalImageId := originalImageId img |}.

(** [x || fallback] on an optional string ([undefined] is [None]). *)
Definition or_string (x : option string) (fallback : string) : string :=
  match x with
  | Some s => if (s =? "") then fallback else s
  | None => fallback
  end.

(** *** [handleToggleTag]: the [setImages] updater, with [imageId] and
    [tag] at their declared type [string].
    App.tsx guards with [if (img.id === imageId) {...} return img],
    part_000 with [if (img.id !== imageId) return img]; the updater is
    the same function. *)
Definition handleToggleTag (imageId tag : string) (prev : list ImageItem)
  : list ImageItem :=
  map (fun img =>
         if (id img =? imageId) then
           let hasTag := includes (VStr tag) (tags img) in
           with_tags img
             (if hasTag
              then filter (fun t => negb (strict_eq t (VStr tag))) (tags img)
              else tags img ++ [VStr tag])
         else img) prev.

(** *** A JavaScript [Map]: insertion-ordered, keys compared by
    SameValueZero. *)
Definition jsmap (V : Type) : Type := list (val * V).

Fixpoint map_get {V : Type} (k : val) (m : jsmap V) : option V :=
  match m with
  | [] => None
  | (k', v) :: tl => if strict_eq k' k then Some v else map_get k tl
  end.

Definition map_has {V : Type} (k : val) (m : jsmap V) : bool :=
  match map_get k m with Some _ => true | None => false end.

Fixpoint map_set {V : Type} (k : val) (v : V) (m : jsmap V) : jsmap V :=
  match m with
  | [] => [(k, v)]
  | (k', v') :: tl =>
      if strict_eq k' k then (k', v) :: tl else (k', v') :: map_set k v tl
  end.

Definition map_values {V : Type} (m : jsmap V) : list V := map snd m.

(** [arr.forEach((x, i) => ...)], [arr.map((x, i) => ...)]. *)
Definition indexed {A : Type} (l : list A) : list (nat * A) :=
  combine (seq 0 (List.length l)) l.

(** *** [handleJsonSessionUpload] (same text in both files) *)

Inductive import_alert : Type :=
| NoValidImages      (* "JSON 中未找到有效的图片数据。" *)
| InvalidOrEmpty     (* "无效的 JSON 格式或文件为空。" *)
| ParseFailed.       (* "解析 JSON 文件时出错。" *)

Inductive import_outcome : Type :=
| Imported (images : list ImageItem) (defs : list TagDefinition)
| Alert (a : import_alert).

(** [u.split('/').pop() || 'unknown']; a value without [split] throws. *)
Definition import_filename (u : val) : res string :=
  match u with
  | VStr s => Ok (or_string (Str.pop (Str.split "/" s)) "unknown")
  | _ => Throw
  end.

Section Handlers.
(** [Date.now()] and [Math.random().toString(36).substr(2, 9)] as
    evaluated while record [i] is processed. *)
Variable clock : nat -> Z.
Variable random36 : nat -> string.

Record flat_state : Type := {
  groupedImages : jsmap ImageItem;
  recoveredDefs : jsmap TagDefinition
}.

(** The body of [json.forEach((row) => ...)] of the flat branch. *)
Definition flat_row (ir : nat * val) (st : flat_state) : res flat_state :=
  let '(i, row) := ir in
  u <- get row "image_url" ;;
  if negb (truthy u) then Ok st else
  grouped <-
    (if map_has u (groupedImages st) then Ok (groupedImages st)
     else
       let image_id := prop row "image_id" in
       let new_id :=
         (if truthy image_id then "restored-" ++ to_string image_id
          else "img-restored-" ++ Str.of_Z (clock i) ++ "-" ++ random36 i)%string in
       name <- import_filename u ;;
       Ok (map_set u
             {| id := new_id; url := u; filename := name; tags := [];
                hotelId := prop row "hotel_id";
                hotelName := prop row "hotel_name";
                originalImageId := image_id |}
             (groupedImages st))) ;;
  let tagName := or_else (prop row "tag name") (prop row "tag_name") in
  match map_get u grouped, tagName with
  | Some img, VStr name =>
      if truthy tagName && is_string tagName && negb (Str.trim name =? "") then
        let grouped' :=
          if includes tagName (tags img) then grouped
          else map_set u (with_tags img (tags img ++ [tagName])) grouped in
        let defs' :=
          if map_has tagName (recoveredDefs st) then recoveredDefs st
          else map_set tagName
                 {| tag := tagName;
                    title1 := or_else (prop row "title1") (VStr "");
                    title2 := or_else (prop row "title2") (VStr "");
                    content := or_else (prop row "content") (VStr "") |}
                 (recoveredDefs st) in
        Ok {| groupedImages := grouped'; recoveredDefs := defs' |}
      else Ok {| groupedImages := grouped; recoveredDefs := recoveredDefs st |}
  | _, _ => Ok {| groupedImages := grouped; recoveredDefs := recoveredDefs st |}
  end.

Definition import_flat (json : list val) : res import_outcome :=
  st <- for_each flat_row (indexed json)
          {| groupedImages := []; recoveredDefs := [] |} ;;
  Ok (Imported (map_values (groupedImages st)) (map_values (recoveredDefs st))).

(** The body of [json.map((item, idx) => ...)] of the legacy branch. *)
Definition legacy_item (ii : nat * val) : res ImageItem :=
  let '(idx, item) := ii in
  image_id <- get item "image_id" ;;
  let u := prop item "image_url" in
  name <- import_filename (or_else u (VStr "")) ;;
  ts <- (match prop item "tags" with
         | VArr l => map_res (fun t => if is_string t then Ok t else get t "tag") l
         | _ => Ok []
         end) ;;
  Ok {| id := (if truthy image_id then "restored-" ++ to_string image_id
               else "img-restored-" ++ Str.of_Z (clock idx) ++ "-"
                    ++ Str.of_Z (Z.of_nat idx))%string;
        url := u; filename := name; tags := ts;
        hotelId := prop item "hotel_id";
        hotelName := prop item "hotel_name";
        originalImageId := image_id |}.

(** The body of [row.tags.forEach((t) => ...)]: [(recoveredDefs, seen)]. *)
Definition legacy_tag (t : val) (st : list TagDefinition * list val)
  : res (list TagDefinition * list val) :=
  let '(defs, seen) := st in
  first <-
    (if typeof_object t then
       tg <- get t "tag" ;; Ok (truthy tg && negb (includes tg seen))
     else Ok false) ;;
  if first then
    let tg := prop t "tag" in
    Ok (defs ++ [{| tag := tg;
                    title1 := or_else (prop t "title1") (VStr "");
                    title2 := or_else (prop t "title2") (VStr "");
                    content := or_else (prop t "content") (VStr "") |}],
        seen ++ [tg])
  else if is_string t && negb (includes t seen) then
    Ok (defs ++ [{| tag := t; title1 := VStr ""; title2 := VStr "";
                    content := VUndef |}],
        seen ++ [t])
  else Ok st.

Definition legacy_row (row : val) (st : list TagDefinition * list val)
  : res (list TagDefinition * list val) :=
  ts <- get row "tags" ;;
  match ts with
  | VArr l => for_each legacy_tag l st
  | _ => Ok st
  end.

Definition import_legacy (json : list val) : res import_outcome :=
  items <- map_res legacy_item (indexed json) ;;
  let restoredImages := filter (fun item => truthy (url item)) items in
  st <- for_each legacy_row json ([], []) ;;
  Ok (match restoredImages with
      | [] => Alert NoValidImages
      | _ => Imported restoredImages (fst st)
      end).

(** What [reader.onload] does with the value [JSON.parse] returned. *)
Definition import_session (json : val) : res import_outcome :=
  match json with
  | VArr (first :: rest) =>
      a <- has_key "tag name" first ;;
      isFlatFormat <- (if a then Ok true else has_key "tag_name" first) ;;
      if isFlatFormat then import_flat (first :: rest)
      else import_legacy (first :: rest)
  | _ => Ok (Alert InvalidOrEmpty)
  end.

Definition handleJsonSessionUpload (JSON_parse : string -> option val)
           (text : string) : import_outcome :=
  match JSON_parse text with
  | Some json =>
      match import_session json with
      | Ok o => o
      | Throw => Alert ParseFailed
      end
  | None => Alert ParseFailed
  end.

(** *** [handleExcelUpload] (same text in both files), from the rows
    [XLSX.utils.sheet_to_json] returned. *)

Inductive upload_error : Type :=
| SheetEmpty          (* "电子表格似乎为空。" *)
| NoImageUrlColumn    (* "未能检测到 'image_url' 列。..." *)
| NoValidUrlColumn    (* "未找到有效的 URL 列。" *)
| NoRowsExtracted.    (* "未提取到有效行。" *)

Inductive upload_outcome : Type :=
| Loaded (items : list ImageItem)
| UploadError (e : upload_error).

(** [/^s$/i] and [/s/i] for a literal [s]. *)
Inductive pattern : Type :=
| Exact (s : string)
| Substring (s : string).

(** [p.test(k)]. *)
Definition test (p : pattern) (k : string) : bool :=
  match p with
  | Exact s => (Str.lower k =? Str.lower s)
  | Substring s => Str.contains (Str.lower s) (Str.lower k)
  end.

Definition findKey (keys : list string) (patterns : list pattern)
  : option string :=
  find (fun k => existsb (fun p => test p k) patterns) keys.

Definition url_patterns : list pattern :=
  [Exact "image_url"; Exact "url"; Exact "link"; Exact "src";
   Substring "link"; Substring "url"].
Definition hotelId_patterns : list pattern :=
  [Exact "hotel_id"; Exact "hotelid"; Exact "hotel"; Substring "hotel_id"].
Definition hotelName_patterns : list pattern :=
  [Exact "hotel_name"; Exact "hotelname"; Exact "name"; Exact "hotel name"].
Definition imageId_patterns : list pattern :=
  [Exact "image_id"; Exact "imageid"; Exact "id"; Substring "image_id"].

(** Truthiness of [keys.find(...)]: a key was found and is not [""]. *)
Definition key_found (key : option string) : bool :=
  match key with
  | Some k => negb (k =? "")
  | None => false
  end.

(** [key ? row[key] : undefined]. *)
Definition cell_of (key : option string) (row : list (string * val)) : val :=
  match key with
  | Some k => if (k =? "") then VUndef else lookup k row
  | None => VUndef
  end.

(** [String(firstRow[k]).startsWith('http')]. *)
Definition looks_like_url (firstRow : list (string * val)) (k : string) : bool :=
  Str.starts_with "http" (to_string (lookup k firstRow)).

(** [urlKey || keys.find(k => String(firstRow[k]).startsWith('http'))]. *)
Definition effective_url_key (firstRow : list (string * val)) : option string :=
  let keys := map fst firstRow in
  match findKey keys url_patterns with
  | Some k => if (k =? "") then find (looks_like_url firstRow) keys else Some k
  | None => find (looks_like_url firstRow) keys
  end.

(** The body of [.map((row, idx) => ...)]. *)
Definition sheet_item (effectiveUrlKey : string)
           (hotelIdKey hotelNameKey imageIdKey : option string)
           (ir : nat * list (string * val)) : ImageItem :=
  let '(idx, row) := ir in
  let u := Str.trim (to_string (lookup effectiveUrlKey row)) in
  let name :=
    or_string (match Str.pop (Str.split "/" u) with
               | Some seg => Str.first (Str.split "?" seg)
               | None => None
               end)
              ("image-" ++ Str.of_Z (Z.of_nat idx) ++ ".jpg")%string in
  {| id := ("img-xlsx-" ++ Str.of_Z (clock idx) ++ "-"
            ++ Str.of_Z (Z.of_nat idx))%string;
     url := VStr u; filename := name; tags := [];
     hotelId := cell_of hotelIdKey row;
     hotelName := cell_of hotelNameKey row;
     originalImageId := cell_of imageIdKey row |}.

Definition handleExcelUpload (jsonData : list (list (string * val)))
  : upload_outcome :=
  match jsonData with
  | [] => UploadError SheetEmpty
  | firstRow :: _ =>
      let keys := map fst firstRow in
      let urlKey := findKey keys url_patterns in
      let hotelIdKey := findKey keys hotelId_patterns in
      let hotelNameKey := findKey keys hotelName_patterns in
      let imageIdKey := findKey keys imageId_patterns in
      if negb (key_found urlKey) && negb (existsb (looks_like_url firstRow) keys)
      then UploadError NoImageUrlColumn
      else
        match effective_url_key firstRow with
        | None => UploadError NoValidUrlColumn
        | Some effectiveUrlKey =>
            if (effectiveUrlKey =? "") then UploadError NoValidUrlColumn
            else
              let parsedItems :=
                map (sheet_item effectiveUrlKey hotelIdKey hotelNameKey imageIdKey)
                    (indexed (filter (fun row => truthy (lookup effectiveUrlKey row))
                                     jsonData)) in
              match parsedItems with
              | [] => UploadError NoRowsExtracted
              | _ => Loaded parsedItems
              end
        end
  end.

End Handlers.

(** *** The tag-text parser: what [useEffect] does to the component
    state. *)

Inductive tag_error : Type :=
| FormatInvalid       (* "格式无效。..." *)
| RootElement         (* "根元素必须是..." *)
| NoShortPointTags    (* "在提供的数据结构中未找到..." *)
| ParsingFailed.      (* "解析文本时出错，请检查语法。" *)

Inductive tag_outcome : Type :=
| SetParsed (defs : list TagDefinition)  (* setParsedTags(defs); setTagParseError(null) *)
| SetError (e : tag_error).              (* setTagParseError(...); parsedTags kept *)

(** The chain of [.replace] calls, the same in both files. *)
Definition sanitize (rawTagInput : string) : string :=
  Str.replace_all "False" "false"
    (Str.replace_all "True" "true"
       (Str.replace_all "None" "null"
          (Str.replace_all "'" Str.quote rawTagInput))).

(** The body of [forEach((sp) => ...)] over a [short_point] array, on
    [(definitions, seenTags)]; the same in both files. *)
Definition short_point (sp : val) (st : list TagDefinition * list val)
  : res (list TagDefinition * list val) :=
  let '(definitions, seenTags) := st in
  tg <- get sp "tag" ;;
  if truthy tg && negb (includes tg seenTags) then
    Ok (definitions ++ [{| tag := tg;
                           title1 := or_else (prop sp "title1") (VStr "");
                           title2 := or_else (prop sp "title2") (VStr "");
                           content := or_else (prop sp "content") (VStr "") |}],
        seenTags ++ [tg])
  else Ok st.

(** [definitions.length === 0 ? error : setParsedTags(definitions)],
    inside the [try] whose [catch] reports [ParsingFailed]. *)
Definition conclude (r : res (option (list TagDefinition * list val)))
  : tag_outcome :=
  match r with
  | Throw => SetError ParsingFailed
  | Ok None => SetError RootElement
  | Ok (Some ([], _)) => SetError NoShortPointTags
  | Ok (Some (definitions, _)) => SetParsed definitions
  end.

End Pipeline.

(** ** [src/App.tsx] *)

Module AppTsx.
Import JS Pipeline.

Definition processShortPoints (points : val) (st : list TagDefinition * list val)
  : res (list TagDefinition * list val) :=
  match points with
  | VArr l => for_each short_point l st
  | _ => Ok st
  end.

(** The second [try] block: walk the parsed value. *)
Definition extract (data : val) : res (option (list TagDefinition * list val)) :=
  match data with
  | VArr items =>
      st <- for_each (fun item st =>
                        sp <- get item "short_point" ;;
                        if truthy sp && is_array sp then processShortPoints sp st
                        else Ok st) items ([], []) ;;
      Ok (Some st)
  | VObj _ =>
      let sp := prop data "short_point" in
      st <- (if truthy sp && is_array sp then processShortPoints sp ([], [])
             else Ok ([], [])) ;;
      Ok (Some st)
  | _ => Ok None
  end.

Section Parser.
Variable JSON_parse : string -> option val.

(** [data] after the nested [try]/[catch]: strict parse first, the
    sanitized text only when that throws. *)
Definition parse_data (rawTagInput : string) : option val :=
  match JSON_parse rawTagInput with
  | Some data => Some data
  | None => JSON_parse (sanitize rawTagInput)
  end.

Definition parseTagInput (rawTagInput : string) : tag_outcome :=
  if (Str.trim rawTagInput =? "") then SetParsed []
  else
    match parse_data rawTagInput with
    | None => SetError FormatInvalid
    | Some data => conclude (extract data)
    end.
End Parser.

(** [tagLookup]: [tagDefs.forEach(def => tagLookup.set(def.tag, def))]. *)
Definition tagLookup (tagDefs : list TagDefinition) : jsmap TagDefinition :=
  fold_left (fun m def => map_set (tag def) def m) tagDefs [].

(** [def?.f || ""]. *)
Definition def_field (f : TagDefinition -> val) (def : option TagDefinition) : val :=
  or_else (match def with Some d => f d | None => VUndef end) (VStr "").

Definition untagged_record (img : ImageItem) : val :=
  VObj [("image_id", originalImageId img);
        ("image_url", url img);
        ("hotel_id", hotelId img);
        ("hotel_name", hotelName img);
        ("tag name", VStr "");
        ("title1", VStr "");
        ("title2", VStr "");
        ("content", VStr "")].

Definition tag_record (lookup : jsmap TagDefinition) (img : ImageItem) (t : val) : val :=
  let def := map_get t lookup in
  VObj [("image_id", originalImageId img);
        ("image_url", url img);
        ("hotel_id", hotelId img);
        ("hotel_name", hotelName img);
        ("tag name", t);
        ("title1", def_field title1 def);
        ("title2", def_field title2 def);
        ("content", def_field content def)].

(** [handleExport]: the array handed to [JSON.stringify]. *)
Definition handleExport (images : list ImageItem) (tagDefs : list TagDefinition)
  : list val :=
  let lookup := tagLookup tagDefs in
  fold_left
    (fun exportData img =>
       match tags img with
       | [] => exportData ++ [untagged_record img]
       | ts => fold_left (fun acc t => acc ++ [tag_record lookup img t]) ts exportData
       end)
    images [].

(** *** [handleLoadDemo]: the session it installs, from the url list
    [IMAGE_URLS] of [./constants]. *)

Definition demo_item (iu : nat * string) : ImageItem :=
  let '(idx, u) := iu in
  {| id := ("img-demo-" ++ Str.of_Z (Z.of_nat idx))%string;
     url := VStr u;
     filename := or_string (Str.pop (Str.split "/" u))
                           ("image-" ++ Str.of_Z (Z.of_nat idx) ++ ".jpg")%string;
     tags := [];
     hotelId := VNum 524021;
     hotelName := VStr "Demo Hotel";
     originalImageId := VNum (1000 + Z.of_nat idx) |}.

Definition demo_tag (t a b c : string) : TagDefinition :=
  {| tag := VStr t; title1 := VStr a; title2 := VStr b; content := VStr c |}.

Definition demoTags : list TagDefinition :=
  [demo_tag "外观" "外观" "建筑" "酒店外部整体建筑风格，包含白天和夜景";
   demo_tag "大堂" "公共区域" "大堂" "前台接待区域、休息区及入口大厅";
   demo_tag "客房" "客房" "卧室" "标准间、套房等各类客房内部展示";
   demo_tag "餐厅" "餐饮" "餐厅" "中餐厅、西餐厅、自助餐厅等用餐环境";
   demo_tag "泳池" "设施" "泳池" "室内外游泳池及周边休闲设施";
   demo_tag "健身房" "设施" "健身" "跑步机、力量训练区等健身器材展示";
   demo_tag "会议室" "商务" "会议" "大中小型会议室及宴会厅"].

(** The arguments of [setImages] and [setTagDefs]. *)
Definition handleLoadDemo (IMAGE_URLS : list string)
  : list ImageItem * list TagDefinition :=
  (map demo_item (indexed IMAGE_URLS), demoTags).

(** *** [filteredImages]: the search *)

Section Search.
(** [String.prototype.toLowerCase]. *)
Variable toLowerCase : string -> string.

(** [t.toLowerCase()] on a value: only a string has the method. *)
Definition lower_of (t : val) : res string :=
  match t with
  | VStr s => Ok (toLowerCase s)
  | _ => Throw
  end.

(** The callback of [images.filter]: the [||] chain stops at its first
    true operand. *)
Definition matches (term : string) (img : ImageItem) : res bool :=
  if Str.contains term (toLowerCase (filename img)) then Ok true
  else
    byTag <- some_res (fun t => s <- lower_of t ;; Ok (Str.contains term s)) (tags img) ;;
    Ok (byTag
        || Str.contains term (to_string (or_else (originalImageId img) (VStr "")))
        || Str.contains term (to_string (or_else (hotelId img) (VStr "")))).

Definition filteredImages (images : list ImageItem) (searchTerm : string)
  : res (list ImageItem) :=
  let term := toLowerCase searchTerm in
  filter_res (matches term) images.
End Search.

(** *** The detail view: selection and keyboard *)

(** [activeImage]: the selected image as the session now holds it. *)
Definition activeImage (selectedImage : option ImageItem) (images : list ImageItem)
  : option ImageItem :=
  match selectedImage with
  | Some sel =>
      Some (match find (fun i => id i =? id sel) images with
            | Some i => i
            | None => sel
            end)
  | None => None
  end.

(** What a key press asks of the component state. *)
Inductive key_effect : Type :=
| Ignored                                      (* no setter is called *)
| SetSelectedImage (sel : option ImageItem)    (* setSelectedImage(sel) *)
| ToggleTag (imageId : string) (tagValue : val). (* handleToggleTag(imageId, tagValue) *)

(** [handleKeyDown], with [e.key] as [key]. *)
Definition handleKeyDown (selectedImage : option ImageItem)
           (filteredImages : list ImageItem) (tagDefs : list TagDefinition)
           (key : string) : key_effect :=
  match selectedImage with
  | None => Ignored
  | Some sel =>
      match findIndex (fun i => id i =? id sel) filteredImages with
      | None => Ignored
      | Some currentIndex =>
          if (key =? "ArrowLeft") then
            match currentIndex with
            | O => Ignored
            | S i =>
                match nth_error filteredImages i with
                | Some prev => SetSelectedImage (Some prev)
                | None => Ignored
                end
            end
          else if (key =? "ArrowRight") then
            match nth_error filteredImages (S currentIndex) with
            | Some next => SetSelectedImage (Some next)
            | None => Ignored
            end
          else if (key =? "Escape") then SetSelectedImage None
          else
            match Str.parseInt key with
            | Some num =>
                if ((0 <? num) && (num <=? 9)
                    && (num <=? Z.of_nat (List.length tagDefs)))%Z
                then
                  (* the guard makes [num - 1] an index of [tagDefs] *)
                  match nth_error tagDefs (Z.to_nat (num - 1)) with
                  | Some def => ToggleTag (id sel) (tag def)
                  | None => Ignored
                  end
                else Ignored
            | None => Ignored
            end
      end
  end.

End AppTsx.

(** ** [src/unnamed/part_000] *)

Module Part000.
Import JS Pipeline.

(** [data.forEach((item) => ...)] with the inner [forEach] inlined. *)
Definition extract (data : val) : res (option (list TagDefinition * list val)) :=
  match data with
  | VArr items =>
      st <- for_each (fun item st =>
                        sp <- get item "short_point" ;;
                        match sp with
                        | VArr l => if truthy sp then for_each short_point l st else Ok st
                        | _ => Ok st
                        end) items ([], []) ;;
      Ok (Some st)
  | _ => Ok None
  end.

Section Parser.
Variable JSON_parse : string -> option val.

(** The text is sanitized before the only parse attempt. *)
Definition parse_data (rawTagInput : string) : option val :=
  JSON_parse (sanitize rawTagInput).

Definition parseTagInput (rawTagInput : string) : tag_outcome :=
  if (Str.trim rawTagInput =? "") then SetParsed []
  else
    match parse_data rawTagInput with
    | None => SetError FormatInvalid
    | Some data => conclude (extract data)
    end.
End Parser.

(** [tagDefs.find(d => d.tag === tagStr)]. *)
Definition find_def (tagDefs : list TagDefinition) (tagStr : val)
  : option TagDefinition :=
  find (fun d => strict_eq (tag d) tagStr) tagDefs.

Definition def_field (f : TagDefinition -> val) (def : option TagDefinition) : val :=
  or_else (match def with Some d => f d | None => VUndef end) (VStr "").

Definition untagged_record (img : ImageItem) : val :=
  VObj [("hotel_id", or_else (hotelId img) (VStr ""));
        ("title1", VStr "");
        ("title2", VStr "");
        ("tag name", VStr "");
        ("image_id", or_else (originalImageId img) (VStr (id img)));
        ("image_url", url img)].

Definition tag_record (tagDefs : list TagDefinition) (img : ImageItem) (tagStr : val)
  : val :=
  let def := find_def tagDefs tagStr in
  VObj [("hotel_id", or_else (hotelId img) (VStr ""));
        ("title1", def_field title1 def);
        ("title2", def_field title2 def);
        ("tag name", tagStr);
        ("image_id", or_else (originalImageId img) (VStr (id img)));
        ("image_url", url img)].

(** [handleExport]: the array handed to [JSON.stringify]. *)
Definition handleExport (images : list ImageItem) (tagDefs : list TagDefinition)
  : list val :=
  fold_left
    (fun exportData img =>
       match tags img with
       | [] => exportData ++ [untagged_record img]
       | ts => fold_left (fun acc tagStr => acc ++ [tag_record tagDefs img tagStr])
                         ts exportData
       end)
    images [].

(** *** [handleLoadDemo]: the items it installs, from the url list
    [IMAGE_URLS] of [./constants]. *)

Definition demo_item (iu : nat * string) : ImageItem :=
  let '(index, u) := iu in
  let parts := Str.split "/" u in
  let filename := or_string (Str.pop parts) "image" in
  let filename := hd EmptyString (Str.split "?" filename) in
  {| id := ("img-demo-" ++ Str.of_Z (Z.of_nat index))%string;
     url := VStr u;
     filename := filename;
     tags := [];
     hotelId := VUndef; hotelName := VUndef; originalImageId := VUndef |}.

Definition demoItems (IMAGE_URLS : list string) : list ImageItem :=
  map demo_item (indexed IMAGE_URLS).

(** *** [filteredImages]: the search *)

Section Search.
(** [String.prototype.toLowerCase]. *)
Variable toLowerCase : string -> string.

(** [v.toLowerCase()] on a value: only a string has the method. *)
Definition lower_of (v : val) : res string :=
  match v with
  | VStr s => Ok (toLowerCase s)
  | _ => Throw
  end.

(** The callback of [images.filter]; [x && y] is [x] when [x] is falsy. *)
Definition matches (lowerTerm : string) (img : ImageItem) : res bool :=
  if Str.contains lowerTerm (toLowerCase (filename img)) then Ok true
  else
    u <- lower_of (url img) ;;
    if Str.contains lowerTerm u then Ok true
    else
      byTag <- some_res (fun t => s <- lower_of t ;; Ok (Str.contains lowerTerm s))
                        (tags img) ;;
      Ok (byTag
          || (truthy (hotelId img)
              && Str.contains lowerTerm (toLowerCase (to_string (hotelId img))))
          || (truthy (originalImageId img)
              && Str.contains lowerTerm (toLowerCase (to_string (originalImageId img))))).

Definition filteredImages (images : list ImageItem) (searchTerm : string)
  : res (list ImageItem) :=
  if (searchTerm =? "") then Ok images
  else filter_res (matches (toLowerCase searchTerm)) images.
End Search.

(** *** Pagination of the grid *)

(** [filteredImages.slice(0, displayLimit)]. *)
Definition visibleImages (filteredImages : list ImageItem) (displayLimit : nat)
  : list ImageItem :=
  firstn displayLimit filteredImages.

(** The new [displayLimit] after a scroll event; [nearBottom] is
    [window.innerHeight + window.scrollY >= document.body.offsetHeight - 1000]. *)
Definition handleScroll (nearBottom : bool) (filteredImages : list ImageItem)
           (displayLimit : nat) : nat :=
  if nearBottom
     && (List.length (visibleImages filteredImages displayLimit)
         <? List.length filteredImages)%nat
  then Nat.min (displayLimit + 24) (List.length filteredImages)
  else displayLimit.

(** *** The lightbox: selection by id *)

(** [filteredImages.findIndex(img => img.id === selectedImageId)]. *)
Definition selectedIndex (selectedImageId : option string)
           (filteredImages : list ImageItem) : Z :=
  match selectedImageId with
  | Some sid =>
      match findIndex (fun img => id img =? sid) filteredImages with
      | Some i => Z.of_nat i
      | None => (-1)%Z
      end
  | None => (-1)%Z
  end.

Definition selectedImage (selectedImageId : option string)
           (filteredImages : list ImageItem) : option ImageItem :=
  let i := selectedIndex selectedImageId filteredImages in
  if (i =? -1)%Z then None else nth_error filteredImages (Z.to_nat i).

Definition hasNext (selectedImageId : option string)
           (filteredImages : list ImageItem) : bool :=
  (selectedIndex selectedImageId filteredImages
   <? Z.of_nat (List.length filteredImages) - 1)%Z.

Definition hasPrev (selectedImageId : option string)
           (filteredImages : list ImageItem) : bool :=
  (0 <? selectedIndex selectedImageId filteredImages)%Z.

(** [handleNext], [handlePrev]: the new [selectedImageId].  The guard
    makes the index they read an index of [filteredImages]. *)
Definition handleNext (selectedImageId : option string)
           (filteredImages : list ImageItem) : option string :=
  if hasNext selectedImageId filteredImages then
    match nth_error filteredImages
                    (Z.to_nat (selectedIndex selectedImageId filteredImages + 1)) with
    | Some img => Some (id img)
    | None => selectedImageId
    end
  else selectedImageId.

Definition handlePrev (selectedImageId : option string)
           (filteredImages : list ImageItem) : option string :=
  if hasPrev selectedImageId filteredImages then
    match nth_error filteredImages
                    (Z.to_nat (selectedIndex selectedImageId filteredImages - 1)) with
    | Some img => Some (id img)
    | None => selectedImageId
    end
  else selectedImageId.

(** The key listener of [Lightbox], which exists while an image is
    selected: the new [selectedImageId]. *)
Definition handleKey (selectedImageId : option string)
           (filteredImages : list ImageItem) (key : string) : option string :=
  match selectedImage selectedImageId filteredImages with
  | None => selectedImageId
  | Some _ =>
      if (key =? "Escape") then None
      else if (key =? "ArrowRight") && hasNext selectedImageId filteredImages
      then handleNext selectedImageId filteredImages
      else if (key =? "ArrowLeft") && hasPrev selectedImageId filteredImages
      then handlePrev selectedImageId filteredImages
      else selectedImageId
  end.

End Part000.

(** ** [SummaryView] (same grouping code in both files) *)

Module SummaryView.
Import JS Pipeline.

(** The key of the group of the images without tags. *)
Definition unlabeled : string := "未标注".

Section Groups.
(** The names of the properties an object literal inherits from
    [Object.prototype], [__proto__] apart, and those an array adds to
    them from [Array.prototype], [length] apart.  Each holds a function:
    a truthy value without a [push] method. *)
Variable object_inherits : string -> bool.
Variable array_inherits : string -> bool.

(** The object [groups]: its own properties, every one an array of
    images, and the array [groups["__proto__"] = []] made its prototype,
    if any.  An assignment to another key makes an own property. *)
Record groups : Type := {
  own : list (string * list ImageItem);
  proto : option (list ImageItem)
}.

Fixpoint own_get (k : string) (o : list (string * list ImageItem))
  : option (list ImageItem) :=
  match o with
  | [] => None
  | (k', v) :: tl => if (k' =? k) then Some v else own_get k tl
  end.

Fixpoint own_set (k : string) (v : list ImageItem) (o : list (string * list ImageItem))
  : list (string * list ImageItem) :=
  match o with
  | [] => [(k, v)]
  | (k', v') :: tl =>
      if (k' =? k) then (k', v) :: tl else (k', v') :: own_set k v tl
  end.

(** [groups[k] = []]; property keys are strings: [k] is [String(key)]. *)
Definition assign (k : string) (g : groups) : groups :=
  if (k =? "__proto__") then {| own := own g; proto := Some [] |}
  else {| own := own_set k [] (own g); proto := proto g |}.

(** What [groups[k]] evaluates to. *)
Inductive slot : Type :=
| Falsy                              (* [undefined], or the length [0] *)
| OwnArray (l : list ImageItem)      (* an array of [groups] itself *)
| ProtoArray (l : list ImageItem)    (* the array installed as prototype *)
| NoPush.                            (* a truthy value that has no [push] *)

(** [k] is an index of an array of [n] elements. *)
Definition is_index (n : nat) (k : string) : bool :=
  existsb (fun i => k =? Str.of_Z (Z.of_nat i)) (seq 0 n).

Definition read (g : groups) (k : string) : slot :=
  match own_get k (own g) with
  | Some l => OwnArray l
  | None =>
      match proto g with
      | Some a =>
          if (k =? "__proto__") then ProtoArray a
          else if is_index (List.length a) k then NoPush
          else if (k =? "length") then
                 match a with [] => Falsy | _ => NoPush end
          else if array_inherits k || object_inherits k then NoPush
          else Falsy
      | None =>
          if (k =? "__proto__") || object_inherits k then NoPush else Falsy
      end
  end.

(** [if (groups[k]) groups[k].push(img)]. *)
Definition push (k : string) (img : ImageItem) (g : groups) : res groups :=
  match read g k with
  | Falsy => Ok g
  | OwnArray l => Ok {| own := own_set k (l ++ [img]) (own g); proto := proto g |}
  | ProtoArray a => Ok {| own := own g; proto := Some (a ++ [img]) |}
  | NoPush => Throw
  end.

(** The body of [images.forEach(img => ...)]. *)
Definition place (img : ImageItem) (g : groups) : res groups :=
  match tags img with
  | [] => push unlabeled img g
  | ts => for_each (fun t g => push (to_string t) img g) ts g
  end.

(** [groupedImages]: the value of the [useMemo]. *)
Definition groupedImages (images : list ImageItem) (availableTags : list TagDefinition)
  : res groups :=
  let declared :=
    fold_left (fun g def => assign (to_string (tag def)) g) availableTags
              {| own := []; proto := None |} in
  for_each place images (assign unlabeled declared).

(** The groups the view shows, in order: for each name of
    [["未标注", ...availableTags.map(t => t.tag)]], the images of
    [groupedImages[name]] unless there are none. *)
Definition sections (images : list ImageItem) (availableTags : list TagDefinition)
  : res (list (val * list ImageItem)) :=
  g <- groupedImages images availableTags ;;
  named <- map_res (fun groupName =>
                      match read g (to_string groupName) with
                      | OwnArray l | ProtoArray l => Ok (groupName, l)
                      | Falsy => Ok (groupName, [])
                      | NoPush => Throw
                      end) (VStr unlabeled :: map tag availableTags) ;;
  Ok (filter (fun s => negb (Nat.eqb (List.length (snd s)) 0)) named).
End Groups.

End SummaryView.

(** ** Notions the specification uses *)

Module Spec.
Import JS Pipeline.

(** [l'] is [l] with every occurrence of [x] taken out and the others
    left in their order. *)
Inductive Removed (x : val) : list val -> list val -> Prop :=
| Removed_nil : Removed x [] []
| Removed_drop l l' : Removed x l l' -> Removed x (x :: l) l'
| Removed_keep y l l' : y <> x -> Removed x l l' -> Removed x (y :: l) (y :: l').

(** No two entries of a tag list are [===]. *)
Fixpoint distinct (l : list val) : bool :=
  match l with
  | [] => true
  | x :: tl => negb (includes x tl) && distinct tl
  end.


Fixpoint occurs (c : ascii) (s : string) : bool :=
  match s with
  | EmptyString => false
  | String a rest => Ascii.eqb a c || occurs c rest
  end.

(** What follows the last [c] of [s]; [s] itself when it has no [c]. *)
Fixpoint after_last (c : ascii) (s : string) : string :=
  match s with
  | EmptyString => EmptyString
  | String a rest =>
      if occurs c rest then after_last c rest
      else if Ascii.eqb a c then rest else s
  end.

(** What precedes the first [c] of [s]; [s] itself when it has no [c]. *)
Fixpoint before_first (c : ascii) (s : string) : string :=
  match s with
  | EmptyString => EmptyString
  | String a rest =>
      if Ascii.eqb a c then EmptyString else String a (before_first c rest)
  end.

Definition last_path_segment (u : string) : string := after_last "/" u.

Definition without_query (segment : string) : string := before_first "?" segment.


(** [null] or [undefined]: a value whose properties cannot be read. *)
Definition nullish (v : val) : bool :=
  match v with
  | VUndef | VNull => true
  | _ => false
  end.

(** The [short_point] entries of one element of the input. *)
Definition short_points (item : val) : list val :=
  match prop item "short_point" with
  | VArr l => l
  | _ => []
  end.

(** All [short_point] entries of the input, in traversal order. *)
Definition entries (data : val) : list val :=
  match data with
  | VArr items => flat_map short_points items
  | VObj _ => short_points data
  | _ => []
  end.

(** The definition an entry yields: its own [tag], and its [title1],
    [title2], [content] with [""] for an absent (or falsy) one. *)
Definition definition_of (sp : val) : TagDefinition :=
  {| tag := prop sp "tag";
     title1 := or_else (prop sp "title1") (VStr "");
     title2 := or_else (prop sp "title2") (VStr "");
     content := or_else (prop sp "content") (VStr "") |}.

(** The entries that bear a non-empty tag no earlier entry bears, in
    their order; [earlier] holds the tags of the entries already passed. *)
Fixpoint first_occurrences (earlier : list val) (l : list val) : list val :=
  match l with
  | [] => []
  | sp :: rest =>
      let tg := prop sp "tag" in
      let later := first_occurrences (earlier ++ [tg]) rest in
      if truthy tg && negb (includes tg earlier) then sp :: later else later
  end.

Definition first_seen (l : list val) : list TagDefinition :=
  map definition_of (first_occurrences [] l).

(** The input is read without a [TypeError]: no element of an array
    root and no [short_point] entry is [null]. *)
Definition readable (data : val) : Prop :=
  match data with
  | VArr items => Forall (fun item => nullish item = false) items
  | _ => True
  end
  /\ Forall (fun sp => nullish sp = false) (entries data).

(** The tag name of a flat record, as the import reads it:
    [row["tag name"] || row["tag_name"]]. *)
Definition tag_name (row : val) : val :=
  or_else (prop row "tag name") (prop row "tag_name").

(** Serializing a session with an exporter and deserializing the record
    array: [JSON.stringify] of the exported array, [JSON.parse] of the
    file, then what [reader.onload] does with the parsed value. *)
Definition export_then_import (clock : nat -> Z) (random36 : nat -> string)
           (export : list ImageItem -> list TagDefinition -> list val)
           (images : list ImageItem) (tagDefs : list TagDefinition)
  : res import_outcome :=
  import_session clock random36 (json_clone (VArr (export images tagDefs))).

End Spec.

(** ** Auxiliary notions of the proofs *)

Module Notions.
Import JS Pipeline Spec.

(** What the updater does to one image. *)
Definition toggled (imageId tag : string) (img : ImageItem) : ImageItem :=
  if (id img =? imageId) then
    with_tags img
      (if includes (VStr tag) (tags img)
       then filter (fun t => negb (strict_eq t (VStr tag))) (tags img)
       else tags img ++ [VStr tag])
  else img.


Definition part000_records (tagDefs : list TagDefinition) (img : ImageItem) : list val :=
  match tags img with
  | [] => [Part000.untagged_record img]
  | ts => map (Part000.tag_record tagDefs img) ts
  end.

Definition app_records (tagDefs : list TagDefinition) (img : ImageItem) : list val :=
  match tags img with
  | [] => [AppTsx.untagged_record img]
  | ts => map (AppTsx.tag_record (AppTsx.tagLookup tagDefs) img) ts
  end.

(** The set of seen tags and the tags of all entries passed so far
    answer alike for every non-empty tag. *)
Definition agree (seen earlier : list val) : Prop :=
  forall x, truthy x = true -> includes x seen = includes x earlier.

(** The definition the flat branch recovers from a record. *)
Definition recovered_def (row : val) (t : string) : TagDefinition :=
  {| tag := VStr t;
     title1 := or_else (prop row "title1") (VStr "");
     title2 := or_else (prop row "title2") (VStr "");
     content := or_else (prop row "content") (VStr "") |}.

(** [if (!recoveredDefs.has(t)) recoveredDefs.set(t, ...)]. *)
Definition note_def (d : jsmap TagDefinition) (tr : string * val)
  : jsmap TagDefinition :=
  if map_has (VStr (fst tr)) d then d
  else map_set (VStr (fst tr)) (recovered_def (snd tr) (fst tr)) d.

(** A record of the image at [u] carrying the tag name [tn]. *)
Definition is_record (u : string) (tn : val) (row : val) : Prop :=
  get row "image_url" = Ok (VStr u) /\ tag_name row = tn.

(** The image the flat branch creates at the first record of a url. *)
Definition new_item (clock : nat -> Z) (random36 : nat -> string)
           (i : nat) (row : val) (u : string) : ImageItem :=
  {| id := (if truthy (prop row "image_id")
            then "restored-" ++ to_string (prop row "image_id")
            else "img-restored-" ++ Str.of_Z (clock i) ++ "-" ++ random36 i)%string;
     url := VStr u;
     filename := or_string (Str.pop (Str.split "/" u)) "unknown";
     tags := [];
     hotelId := prop row "hotel_id";
     hotelName := prop row "hotel_name";
     originalImageId := prop row "image_id" |}.

Definition good (t : string) : Prop := Str.trim t <> "".

(** The records of an image: one blank record when it has no tags, one
    record per tag otherwise. *)
Definition image_rows (u : string) (ts : list string) (rows : list val) : Prop :=
  match ts with
  | [] => exists row, rows = [row] /\ is_record u VUndef row
  | _ => Forall2 (fun t row => is_record u (VStr t) row) ts rows
  end.

(** The records that name a tag, with the name. *)
Definition named (row : val) : list (string * val) :=
  match tag_name row with
  | VStr t => [(t, row)]
  | _ => []
  end.

(** A session, image by image: url, tags, and the records of the image. *)
Definition group : Type := string * list string * list val.

Definition group_ok (grp : group) : Prop :=
  let '(u, ts, rows) := grp in
  u <> "" /\ image_rows u ts rows /\ Forall good ts /\ NoDup ts.

(** A record as the exporters build it: an object literal with a
    [tag name] property. *)
Definition flat_record (r : val) : Prop :=
  exists fs, r = VObj fs /\ NoDup (map fst fs) /\ lookup "tag name" fs <> VUndef.

(** The shape of a session whose images can be told apart after the
    trip: url and tags of each image, the urls non-empty and pairwise
    different, each tag a string that is not blank and occurs once in
    its image. *)
Definition image_ok (img : ImageItem) (ut : string * list string) : Prop :=
  url img = VStr (fst ut) /\ tags img = map VStr (snd ut)
  /\ fst ut <> "" /\ Forall good (snd ut) /\ NoDup (snd ut).

(** The definitions the flat branch recovers from a record array. *)
Definition recovered (rows : list val) : list TagDefinition :=
  map_values (fold_left note_def (flat_map named rows) []).

(** What the round trip needs of an exporter's records. *)
Definition exporter_ok (records : ImageItem -> list val) : Prop :=
  (forall img ut,
      image_ok img ut ->
      Forall flat_record (records img)
      /\ image_rows (fst ut) (snd ut) (map json_clone (records img)))
  /\ (forall img r,
         In r (records img) ->
         or_else (prop (json_clone r) "title1") (VStr "") = prop (json_clone r) "title1"
         /\ or_else (prop (json_clone r) "title2") (VStr "") = prop (json_clone r) "title2").

(** *** The search *)




(** *** The summary view *)

(** [k] is the key of a group [groupedImages] declares. *)
Definition group_key (availableTags : list TagDefinition) (k : string) : bool :=
  (k =? SummaryView.unlabeled)
  || existsb (fun def => to_string (tag def) =? k) availableTags.

(** The image [img] once for each tag of [ts] whose string is [k]. *)
Definition hits (k : string) (img : ImageItem) (ts : list val) : list ImageItem :=
  map (fun _ => img) (filter (fun t => to_string t =? k) ts).

(** The images of the group with key [k], in session order: an image
    without tags under the key of the unlabeled, an image with tags
    once for each of its tags whose string is [k]. *)
Definition members (k : string) (images : list ImageItem) : list ImageItem :=
  flat_map (fun img =>
              match tags img with
              | [] => if (k =? SummaryView.unlabeled) then [img] else []
              | ts => hits k img ts
              end) images.

(** A tag that cannot reach a property of the prototype of [groups]:
    its string is the key of a group, or it is neither [__proto__] nor
    a name [Object.prototype] knows. *)
Definition plain_tag (object_inherits : string -> bool)
           (availableTags : list TagDefinition) (t : val) : bool :=
  group_key availableTags (to_string t)
  || (negb (to_string t =? "__proto__") && negb (object_inherits (to_string t))).

(** [g] has the prototype it was created with and holds, under the key
    of each group and under no other key, the images [base] gives. *)
Definition holds (availableTags : list TagDefinition) (g : SummaryView.groups)
           (base : string -> list ImageItem) : Prop :=
  SummaryView.proto g = None
  /\ forall k, SummaryView.own_get k (SummaryView.own g)
               = if group_key availableTags k then Some (base k) else None.

(** [g] has the prototype it was created with and its keys are the keys
    of the groups. *)
Definition keyed (availableTags : list TagDefinition) (g : SummaryView.groups) : Prop :=
  SummaryView.proto g = None
  /\ forall k, match SummaryView.own_get k (SummaryView.own g) with
               | Some _ => true
               | None => false
               end = group_key availableTags k.

(** *** The flat import *)

(** The second half of [flat_row]: the tag name of the row is noted on
    the image stored at [u] and among the definitions. *)
Definition tag_step (row u : val) (g : jsmap ImageItem) (d : jsmap TagDefinition)
  : res flat_state :=
  let tagName := or_else (prop row "tag name") (prop row "tag_name") in
  match map_get u g, tagName with
  | Some img, VStr name =>
      if truthy tagName && is_string tagName && negb (Str.trim name =? "") then
        let grouped' :=
          if includes tagName (tags img) then g
          else map_set u (with_tags img (tags img ++ [tagName])) g in
        let defs' :=
          if map_has tagName d then d
          else map_set tagName
                 {| tag := tagName;
                    title1 := or_else (prop row "title1") (VStr "");
                    title2 := or_else (prop row "title2") (VStr "");
                    content := or_else (prop row "content") (VStr "") |}
                 d in
        Ok {| groupedImages := grouped'; recoveredDefs := defs' |}
      else Ok {| groupedImages := g; recoveredDefs := d |}
  | _, _ => Ok {| groupedImages := g; recoveredDefs := d |}
  end.

(** What the flat branch keeps true of its two maps: the keys of each
    are pairwise different strings, an image is stored under its url
    and a definition under its tag, every tag of an image has a
    definition and every definition a carrier. *)
Record sound (st : flat_state) : Prop := {
  sound_image_keys : NoDup (map fst (groupedImages st));
  sound_image_strings : Forall (fun k => is_string k = true /\ truthy k = true)
                               (map fst (groupedImages st));
  sound_image_url : forall k img, map_get k (groupedImages st) = Some img -> url img = k;
  sound_def_keys : NoDup (map fst (recoveredDefs st));
  sound_def_strings : Forall (fun k => is_string k = true) (map fst (recoveredDefs st));
  sound_def_tag : forall t d, map_get t (recoveredDefs st) = Some d ->
                              tag d = t /\ exists s, t = VStr s /\ Str.trim s <> "";
  sound_tags_defined : forall k img t, map_get k (groupedImages st) = Some img ->
                                       In t (tags img) ->
                                       map_has t (recoveredDefs st) = true;
  sound_defs_used : forall t d, map_get t (recoveredDefs st) = Some d ->
                                exists k img, map_get k (groupedImages st) = Some img
                                              /\ In t (tags img)
}.



End Notions.

(** * Running the handlers *)

(** A clock and a random source to run the handlers with. *)
Module Sample.
Definition clock (_ : nat) : Z := 1700000000000%Z.
Definition random36 (_ : nat) : string := "k3j9x0q2m".

(** A JSON text, written with ['] where the text has a double quote. *)
Definition json (text : string) : string := Str.replace_all "'" Str.quote text.

(** The property names of [Object.prototype], [__proto__] apart, and
    of [Array.prototype], [length] apart, in a current engine. *)
Definition object_inherits (k : string) : bool :=
  existsb (String.eqb k)
    ["constructor"; "__defineGetter__"; "__defineSetter__"; "hasOwnProperty";
     "__lookupGetter__"; "__lookupSetter__"; "isPrototypeOf";
     "propertyIsEnumerable"; "toString"; "valueOf"; "toLocaleString"].

Definition array_inherits (k : string) : bool :=
  existsb (String.eqb k)
    ["constructor"; "at"; "concat"; "copyWithin"; "fill"; "find"; "findIndex";
     "findLast"; "findLastIndex"; "lastIndexOf"; "pop"; "push"; "reverse";
     "shift"; "unshift"; "slice"; "sort"; "splice"; "includes"; "indexOf";
     "join"; "keys"; "entries"; "values"; "forEach"; "filter"; "flat";
     "flatMap"; "map"; "every"; "some"; "reduce"; "reduceRight";
     "toReversed"; "toSorted"; "toSpliced"; "with"; "toLocaleString"; "toString"].
End Sample.

(** Texts to run the parsers on. *)
Module Texts.

(** Valid JSON whose [content] is the word [None]. *)
Definition valid_with_None : string :=
  Sample.json "[{'short_point': [{'tag': 'A', 'content': 'None'}]}]".

(** Shape (b): an object with a top-level [short_point] array. *)
Definition shape_b : string :=
  Sample.json "{'long_point': {'x': 1}, 'short_point': [{'tag': 'A', 'title1': 'T1'}]}".

(** Shape (b) with a [null] among the entries. *)
Definition shape_b_null : string :=
  Sample.json "{'short_point': [{'tag': 'A', 'title1': 'T1'}, null]}".

(** A Python literal: single quotes, and [None] inside a string. *)
Definition python_with_None : string :=
  "[{'short_point': [{'tag': 'A', 'title2': None, 'content': 'None of the rooms'}]}]".

(** The same tag in two [short_point] arrays. *)
Definition repeated_tags : string :=
  Sample.json
    "[{'short_point': [{'tag': 'A', 'title1': 'first'}, {'tag': 'B'}, {'tag': ''}]},
      {'short_point': [{'tag': 'A', 'title1': 'second'}, {'tag': 'C', 'content': 'c'}]}]".

End Texts.

Example parse_sample :
  Json.parse (Sample.json "[{'a': [1, -20, null, true], 'b': 'x\ty\u00e9'}, 'z' ]")
  = Some (JS.VArr [JS.VObj [("a", JS.VArr [JS.VNum 1; JS.VNum (-20); JS.VNull; JS.VBool true]);
                            ("b", JS.VStr (String "x" (String (ascii_of_nat 9)
                                     (String "y" (Str.of_bytes [195; 169])))))];
                   JS.VStr "z"]).
Proof. vm_compute. reflexivity. Qed.

Example parse_rejects :
  (Json.parse "[1,]", Json.parse "{'a':1}", Json.parse "[01]", Json.parse "None",
   Json.parse "[1] x")
  = (None, None, None, None, None).
Proof. vm_compute. reflexivity. Qed.

Example split_url :
  Str.split "/" "http://x/a.jpg?v=1" = ["http:"; ""; "x"; "a.jpg?v=1"].
Proof. reflexivity. Qed.

Example trim_spaces : Str.trim "  a b  " = "a b".
Proof. reflexivity. Qed.

Example replace_none : Str.replace_all "None" "null" "xNoneNone y Non" = "xnullnull y Non".
Proof. reflexivity. Qed.

Example of_Z_neg : (Str.of_Z (-120), Str.of_Z 0) = ("-120", "0").
Proof. reflexivity. Qed.

(** * Facts about the built-ins *)

Module JSFacts.
Import JS.

Lemma strict_eq_str (t : val) (s : string) :
  strict_eq t (VStr s) = true <-> t = VStr s.
Proof.
  destruct t; simpl; split; intro H; try discriminate.
  - apply String.eqb_eq in H. now subst.
  - injection H as ->. apply String.eqb_refl.
Qed.

Lemma strict_eq_sym (a b : val) : strict_eq a b = strict_eq b a.
Proof.
  destruct a, b; simpl; try reflexivity.
  - now destruct b, b0.
  - apply Z.eqb_sym.
  - apply String.eqb_sym.
Qed.

Lemma includes_str (s : string) (l : list val) :
  includes (VStr s) l = true <-> In (VStr s) l.
Proof.
  unfold includes. rewrite existsb_exists. split.
  - intros (t & Hin & Heq). rewrite strict_eq_sym in Heq.
    apply strict_eq_str in Heq. now subst.
  - intros Hin. exists (VStr s). split; [assumption|]. simpl.
    apply String.eqb_refl.
Qed.

Lemma includes_filter (x : val) (p : val -> bool) (l : list val) :
  includes x (filter p l) = true -> includes x l = true.
Proof.
  unfold includes. rewrite !existsb_exists.
  intros (t & Hin & Heq). apply filter_In in Hin. exists t. tauto.
Qed.

Lemma includes_app (x : val) (l1 l2 : list val) :
  includes x (l1 ++ l2) = includes x l1 || includes x l2.
Proof. apply existsb_app. Qed.

End JSFacts.

(** * [handleToggleTag] *)

Module ToggleFacts.
Import JS Pipeline Spec Notions JSFacts.

Lemma filter_Removed (s : string) (l : list val) :
  Removed (VStr s) l (filter (fun t => negb (strict_eq t (VStr s))) l).
Proof.
  induction l as [|t l IH]; simpl.
  - constructor.
  - destruct (strict_eq t (VStr s)) eqn:E; simpl.
    + apply strict_eq_str in E. subst. now constructor.
    + constructor; [|assumption].
      intros ->. simpl in E. now rewrite String.eqb_refl in E.
Qed.

Lemma filter_not_In (s : string) (l : list val) :
  ~ In (VStr s) (filter (fun t => negb (strict_eq t (VStr s))) l).
Proof.
  intros H. apply filter_In in H. destruct H as [_ H].
  simpl in H. now rewrite String.eqb_refl in H.
Qed.

Lemma toggle_nth (imageId tag : string) (prev : list ImageItem) (i : nat) :
  nth_error (handleToggleTag imageId tag prev) i
  = option_map (toggled imageId tag) (nth_error prev i).
Proof. unfold handleToggleTag. apply nth_error_map. Qed.

Lemma toggle_distinct (imageId tag : string) (img : ImageItem) :
  distinct (tags img) = true -> distinct (tags (toggled imageId tag img)) = true.
Proof.
  unfold toggled. destruct (id img =? imageId); [|trivial].
  simpl. generalize (tags img) as l. intros l Hd.
  destruct (includes (VStr tag) l) eqn:Hin.
  - clear Hin. induction l as [|t l IH]; [reflexivity|].
    simpl in Hd. apply andb_true_iff in Hd. destruct Hd as [Hn Hd].
    simpl. destruct (strict_eq t (VStr tag)); simpl; [now apply IH|].
    rewrite (IH Hd), andb_true_r.
    destruct (includes t (filter _ l)) eqn:E; [|reflexivity].
    apply includes_filter in E. now rewrite E in Hn.
  - induction l as [|t l IH]; [reflexivity|].
    cbn [distinct] in Hd. apply andb_true_iff in Hd. destruct Hd as [Hn Hd].
    unfold includes in Hin. cbn [existsb] in Hin.
    apply orb_false_iff in Hin. destruct Hin as [Ht Hin].
    cbn [distinct app]. rewrite (IH Hd Hin), andb_true_r.
    rewrite includes_app. unfold includes at 2. cbn [existsb].
    rewrite orb_false_r, (strict_eq_sym t), Ht, orb_false_r. assumption.
Qed.

End ToggleFacts.

(** C4.  [handleToggleTag] keeps the number and the order of the images
    and touches nothing but the tag list of the images whose [id] is
    [imageId]: where such an image has [tag], the new list is the old
    one with [tag] taken out and the other tags in their order; where
    it has not, the new list is the old one with [tag] appended; when
    no image has that [id] the session is returned as it was. *)
Theorem C4_toggleTag (imageId tag : string) (prev : list Pipeline.ImageItem) :
  let next := Pipeline.handleToggleTag imageId tag prev in
  List.length next = List.length prev
  /\ (forall i img, nth_error prev i = Some img ->
        exists img',
          nth_error next i = Some img'
          /\ Pipeline.with_tags img' (Pipeline.tags img) = img
          /\ (Pipeline.id img <> imageId -> img' = img)
          /\ (Pipeline.id img = imageId ->
              In (JS.VStr tag) (Pipeline.tags img) ->
              Spec.Removed (JS.VStr tag) (Pipeline.tags img) (Pipeline.tags img')
              /\ ~ In (JS.VStr tag) (Pipeline.tags img'))
          /\ (Pipeline.id img = imageId ->
              ~ In (JS.VStr tag) (Pipeline.tags img) ->
              Pipeline.tags img' = Pipeline.tags img ++ [JS.VStr tag]))
  /\ ((forall img, In img prev -> Pipeline.id img <> imageId) -> next = prev).
Proof.
  cbv zeta. split; [|split].
  - unfold Pipeline.handleToggleTag. apply length_map.
  - intros i img Hnth. exists (Notions.toggled imageId tag img).
    rewrite ToggleFacts.toggle_nth, Hnth. split; [reflexivity|].
    unfold Notions.toggled.
    destruct (Pipeline.id img =? imageId) eqn:E.
    + apply String.eqb_eq in E.
      split; [now destruct img|]. split; [congruence|].
      split; intros _ Hin.
      * apply JSFacts.includes_str in Hin. rewrite Hin. simpl.
        split; [apply ToggleFacts.filter_Removed | apply ToggleFacts.filter_not_In].
      * destruct (JS.includes (JS.VStr tag) (Pipeline.tags img)) eqn:Hi; [|reflexivity].
        apply JSFacts.includes_str in Hi. contradiction.
    + apply String.eqb_neq in E.
      split; [now destruct img|]. split; [reflexivity|].
      split; intros Heq; contradiction.
  - intros Hno. unfold Pipeline.handleToggleTag.
    rewrite <- (map_id prev) at 2. apply map_ext_in.
    intros img Hin. specialize (Hno img Hin).
    apply String.eqb_neq in Hno. now rewrite Hno.
Qed.

(** C4 at an image with the tags [A], [B], [C] from which [B] is toggled off. *)
Lemma C4_toggleTag_witness :
  let img :=
    {| Pipeline.id := "img-1"; Pipeline.url := JS.VStr "http://x/a.jpg";
       Pipeline.filename := "a.jpg";
       Pipeline.tags := [JS.VStr "A"; JS.VStr "B"; JS.VStr "C"];
       Pipeline.hotelId := JS.VUndef; Pipeline.hotelName := JS.VUndef;
       Pipeline.originalImageId := JS.VUndef |} in
  exists img',
    nth_error (Pipeline.handleToggleTag "img-1" "B" [img]) 0 = Some img'
    /\ Spec.Removed (JS.VStr "B") (Pipeline.tags img) (Pipeline.tags img')
    /\ ~ In (JS.VStr "B") (Pipeline.tags img').
Proof.
  intros img.
  destruct (C4_toggleTag "img-1" "B" [img]) as (_ & H & _).
  destruct (H 0 img eq_refl) as (img' & Hnth & _ & _ & Hrem & _).
  exists img'. split; [exact Hnth|].
  apply Hrem; [reflexivity|]. right. left. reflexivity.
Defined.

(** * The session import *)

Module ImportFacts.
Import JS Pipeline Spec Notions JSFacts.

Lemma for_each_inv {A S : Type} (Q : S -> Prop) (f : A -> S -> res S) (l : list A) :
  (forall x st st', Q st -> f x st = Ok st' -> Q st') ->
  forall st st', Q st -> for_each f l st = Ok st' -> Q st'.
Proof.
  intros Hstep. induction l as [|x l IH]; simpl; intros st st' HQ Hrun.
  - now injection Hrun as <-.
  - destruct (f x st) as [st1|] eqn:E; simpl in Hrun; [|discriminate].
    eapply IH; [|eassumption]. eapply Hstep; eassumption.
Qed.


Lemma map_get_Forall {V : Type} (P : V -> Prop) (k : val) (m : jsmap V) (v : V) :
  Forall (fun kv => P (snd kv)) m -> map_get k m = Some v -> P v.
Proof.
  induction m as [|[k' v'] m IH]; simpl; intros HF Hget; [discriminate|].
  inversion HF; subst.
  destruct (strict_eq k' k); [injection Hget as <-; assumption | auto].
Qed.

Lemma map_set_Forall {V : Type} (P : V -> Prop) (k : val) (v : V) (m : jsmap V) :
  Forall (fun kv => P (snd kv)) m -> P v ->
  Forall (fun kv => P (snd kv)) (map_set k v m).
Proof.
  induction m as [|[k' v'] m IH]; simpl; intros HF Hv.
  - constructor; [assumption|constructor].
  - inversion HF; subst.
    destruct (strict_eq k' k); constructor; auto.
Qed.

(** A property of images that holds of every image the flat branch
    creates and survives the [push] of a tag the image does not have
    holds of every image the branch returns. *)
Section FlatInvariant.
Variable clock : nat -> Z.
Variable random36 : nat -> string.
Variable P : ImageItem -> Prop.
Hypothesis P_new :
  forall new_id u name h n o,
    import_filename u = Ok name ->
    P {| id := new_id; url := u; filename := name; tags := [];
         hotelId := h; hotelName := n; originalImageId := o |}.
Hypothesis P_push :
  forall img t,
    P img -> includes t (tags img) = false ->
    P (with_tags img (tags img ++ [t])).

Let Q (st : flat_state) : Prop :=
  Forall (fun kv => P (snd kv)) (groupedImages st).

Lemma tag_step_inv (row u : val) (g : jsmap ImageItem) (st st' : flat_state) :
  Forall (fun kv => P (snd kv)) g ->
  match map_get u g, or_else (prop row "tag name") (prop row "tag_name") with
  | Some img, VStr name =>
      let tagName := or_else (prop row "tag name") (prop row "tag_name") in
      if truthy tagName && is_string tagName && negb (Str.trim name =? "") then
        Ok {| groupedImages :=
                if includes tagName (tags img) then g
                else map_set u (with_tags img (tags img ++ [tagName])) g;
              recoveredDefs :=
                if map_has tagName (recoveredDefs st) then recoveredDefs st
                else map_set tagName
                       {| tag := tagName;
                          title1 := or_else (prop row "title1") (VStr "");
                          title2 := or_else (prop row "title2") (VStr "");
                          content := or_else (prop row "content") (VStr "") |}
                       (recoveredDefs st) |}
      else Ok {| groupedImages := g; recoveredDefs := recoveredDefs st |}
  | _, _ => Ok {| groupedImages := g; recoveredDefs := recoveredDefs st |}
  end = Ok st' ->
  Q st'.
Proof.
  unfold Q. intros Hg.
  destruct (map_get u g) as [img|] eqn:Hget; [|intros [= <-]; exact Hg].
  destruct (or_else (prop row "tag name") (prop row "tag_name"))
    as [| | | |name| |]; try (intros [= <-]; exact Hg).
  cbv zeta. destruct (_ && _ && _); [|intros [= <-]; exact Hg].
  destruct (includes (VStr name) (tags img)) eqn:Hin;
    intros [= <-]; cbn [groupedImages]; [exact Hg|].
  apply map_set_Forall; [exact Hg|].
  apply P_push; [|exact Hin]. eapply map_get_Forall; eassumption.
Qed.

Lemma flat_row_inv (ir : nat * val) (st st' : flat_state) :
  Q st -> flat_row clock random36 ir st = Ok st' -> Q st'.
Proof.
  destruct ir as [i row]. unfold flat_row. intros HQ.
  destruct (get row "image_url") as [u|]; cbn [bind]; [|discriminate].
  destruct (truthy u); cbn [negb]; [|intros [= <-]; exact HQ].
  destruct (map_has u (groupedImages st)); cbn [bind].
  - apply tag_step_inv. exact HQ.
  - destruct (import_filename u) as [name|] eqn:Hname; cbn [bind]; [|discriminate].
    apply tag_step_inv. apply map_set_Forall; [exact HQ|]. now apply P_new.
Qed.

Lemma import_flat_inv (json : list val) (images : list ImageItem)
      (defs : list TagDefinition) :
  import_flat clock random36 json = Ok (Imported images defs) ->
  Forall P images.
Proof.
  unfold import_flat.
  destruct (for_each _ _ _) as [st|] eqn:Hrun; simpl; [|discriminate].
  intros [= <- _].
  assert (HQ : Q st).
  { eapply (for_each_inv Q); [|shelve|exact Hrun].
    intros x s s'. apply flat_row_inv.
    Unshelve. exact (Forall_nil _). }
  unfold Q in HQ. unfold map_values. clear Hrun.
  induction HQ; simpl; constructor; assumption.
Qed.
End FlatInvariant.

(** The flat branch never stores a tag twice in one image. *)
Lemma import_flat_distinct clock random36 json images defs :
  import_flat clock random36 json = Ok (Imported images defs) ->
  Forall (fun img => distinct (tags img) = true) images.
Proof.
  apply import_flat_inv.
  - reflexivity.
  - intros img t Hd Hin. simpl.
    induction (tags img) as [|x l IH]; [reflexivity|].
    cbn [distinct] in Hd. apply andb_true_iff in Hd. destruct Hd as [Hx Hd].
    unfold includes in Hin. cbn [existsb] in Hin.
    apply orb_false_iff in Hin. destruct Hin as [Htx Hin].
    cbn [distinct app]. rewrite (IH Hd Hin), andb_true_r.
    rewrite includes_app. unfold includes at 2. cbn [existsb].
    rewrite orb_false_r, (strict_eq_sym x), Htx, orb_false_r. assumption.
Qed.



End ImportFacts.

(** * Strings: [split] against the notions of the specification *)

Module StrFacts.
Import Spec.

Lemma split_nonempty (c : ascii) (s : string) : Str.split c s <> [].
Proof.
  destruct s as [|a rest]; simpl; [discriminate|].
  destruct (Ascii.eqb a c); [discriminate|].
  destruct (Str.split c rest); discriminate.
Qed.

Lemma split_no_occ (c : ascii) (s : string) :
  occurs c s = false -> Str.split c s = [s].
Proof.
  induction s as [|a rest IH]; simpl; [reflexivity|].
  intros H. apply orb_false_iff in H. destruct H as [Ha Hr].
  now rewrite Ha, (IH Hr).
Qed.

Lemma split_occ (c : ascii) (s : string) :
  occurs c s = true -> exists x y l, Str.split c s = x :: y :: l.
Proof.
  induction s as [|a rest IH]; simpl; [discriminate|].
  destruct (Ascii.eqb a c) eqn:Ha; simpl.
  - intros _. pose proof (split_nonempty c rest) as Hne.
    destruct (Str.split c rest) as [|y l]; [contradiction|]. eauto.
  - intros H. destruct (IH H) as (x & y & l & ->). eauto.
Qed.

Lemma pop_cons (x : string) (l : list string) :
  l <> [] -> Str.pop (x :: l) = Str.pop l.
Proof. destruct l; [contradiction|reflexivity]. Qed.

Lemma after_last_no_occ (c : ascii) (s : string) :
  occurs c s = false -> after_last c s = s.
Proof.
  destruct s as [|a rest]; simpl; [reflexivity|].
  intros H. apply orb_false_iff in H. destruct H as [Ha Hr].
  now rewrite Hr, Ha.
Qed.

(** [s.split(c).pop()] is what follows the last [c]. *)
Lemma pop_split (c : ascii) (s : string) :
  Str.pop (Str.split c s) = Some (after_last c s).
Proof.
  induction s as [|a rest IH]; [reflexivity|].
  cbn [Str.split after_last].
  destruct (Ascii.eqb a c) eqn:Ha.
  - rewrite pop_cons by apply split_nonempty. rewrite IH.
    destruct (occurs c rest) eqn:Ho; [reflexivity|].
    now rewrite after_last_no_occ.
  - destruct (occurs c rest) eqn:Ho.
    + destruct (split_occ c rest Ho) as (x & y & l & E).
      rewrite E in *. rewrite pop_cons by discriminate.
      rewrite <- IH. symmetry. apply pop_cons. discriminate.
    + now rewrite (split_no_occ c rest Ho).
Qed.

(** [s.split(c)[0]] is what precedes the first [c]. *)
Lemma first_split (c : ascii) (s : string) :
  Str.first (Str.split c s) = Some (before_first c s).
Proof.
  induction s as [|a rest IH]; [reflexivity|].
  cbn [Str.split before_first].
  destruct (Ascii.eqb a c); [reflexivity|].
  destruct (Str.split c rest) as [|seg segs]; [discriminate|].
  simpl in *. now injection IH as ->.
Qed.


End StrFacts.

(** * The spreadsheet ingestion *)

Module SheetFacts.
Import JS Pipeline Spec.

Lemma nth_error_combine_seq {A : Type} (l : list A) (start i : nat) :
  nth_error (combine (seq start (List.length l)) l) i
  = option_map (pair (start + i)) (nth_error l i).
Proof.
  revert start i. induction l as [|x l IH]; intros start i; simpl.
  - now destruct i.
  - destruct i as [|i]; simpl.
    + now rewrite Nat.add_0_r.
    + rewrite IH. now rewrite Nat.add_succ_r.
Qed.

Lemma nth_error_indexed {A : Type} (l : list A) (i : nat) :
  nth_error (indexed l) i = option_map (pair i) (nth_error l i).
Proof. apply (nth_error_combine_seq l 0 i). Qed.

(** The items of a successful upload, as the source builds them. *)
Lemma loaded_items clock jsonData items :
  handleExcelUpload clock jsonData = Loaded items ->
  exists firstRow key,
    hd_error jsonData = Some firstRow
    /\ effective_url_key firstRow = Some key
    /\ let keys := map fst firstRow in
       items = map (sheet_item clock key
                      (findKey keys hotelId_patterns)
                      (findKey keys hotelName_patterns)
                      (findKey keys imageId_patterns))
                   (indexed (filter (fun row => truthy (lookup key row)) jsonData)).
Proof.
  unfold handleExcelUpload. destruct jsonData as [|firstRow rows]; [discriminate|].
  cbv zeta. destruct (_ && _); [discriminate|].
  destruct (effective_url_key firstRow) as [key|] eqn:Hkey; [|discriminate].
  destruct (key =? ""); [discriminate|].
  match goal with |- match ?m with _ => _ end = _ -> _ => destruct m eqn:E end;
    [discriminate|].
  intros [= <-]. exists firstRow, key. rewrite <- E. auto.
Qed.

(** Spreadsheet ingestion starts every image without tags. *)
Lemma sheet_tags_empty clock jsonData items :
  handleExcelUpload clock jsonData = Loaded items ->
  Forall (fun img => tags img = []) items.
Proof.
  intros H. destruct (loaded_items _ _ _ H) as (firstRow & key & _ & _ & ->).
  apply Forall_map. apply Forall_forall. now intros [idx row] _.
Qed.


Lemma find_first {A : Type} (f : A -> bool) (l : list A) (x : A) :
  find f l = Some x <->
  exists before after,
    l = before ++ x :: after /\ f x = true /\ forall y, In y before -> f y = false.
Proof.
  induction l as [|a l IH]; simpl.
  - split; [discriminate|]. intros (b & c & E & _). now destruct b.
  - destruct (f a) eqn:Fa.
    + split.
      * intros [= ->]. exists [], l. simpl. tauto.
      * intros ([|b bs] & c & E & Fx & Hb); simpl in E; injection E as -> ->.
        -- reflexivity.
        -- rewrite (Hb b) in Fa by now left. discriminate.
    + rewrite IH. split.
      * intros (b & c & -> & Fx & Hb). exists (a :: b), c. simpl.
        repeat split; trivial. intros y [<-|Hy]; auto.
      * intros ([|b bs] & c & E & Fx & Hb); simpl in E; injection E as -> ->.
        -- congruence.
        -- exists bs, c. repeat split; trivial. intros y Hy. apply Hb. now right.
Qed.

End SheetFacts.

Module LabelFacts.
Import JS Pipeline Spec Notions.





End LabelFacts.

(** C7 (legacy branch).  The legacy branch copies the embedded tag
    collection as it is: a record that lists a tag twice becomes an
    image whose tag list holds it twice.  The flat branch
    ([ImportFacts.import_flat_distinct]), the spreadsheet ingestion
    ([SheetFacts.sheet_tags_empty]) and [handleToggleTag]
    ([ToggleFacts.toggle_distinct]) do keep tag lists free of
    duplicates. *)
Theorem C7_legacy_import_keeps_duplicates :
  exists img defs,
    Pipeline.handleJsonSessionUpload Sample.clock Sample.random36 Json.parse
      (Sample.json "[{'image_id': 1, 'image_url': 'http://x/a.jpg', 'tags': ['A', 'A']}]")
    = Pipeline.Imported [img] defs
    /\ Pipeline.tags img = [JS.VStr "A"; JS.VStr "A"]
    /\ Spec.distinct (Pipeline.tags img) = false.
Proof.
  eexists. eexists. split; [vm_compute; reflexivity|]. split; reflexivity.
Qed.


(** ** The columns a sheet is read from *)

Module ColumnFacts.
Import JS Pipeline Spec Notions.








End ColumnFacts.







(** * The flat exporters *)

Module ExportFacts.
Import JS Pipeline Spec Notions JSFacts.

Lemma strict_eq_true (a b : val) : strict_eq a b = true -> a = b.
Proof.
  destruct a, b; simpl; try discriminate; intros H; try reflexivity.
  - apply Bool.eqb_prop in H. now subst.
  - apply Z.eqb_eq in H. now subst.
  - apply String.eqb_eq in H. now subst.
Qed.

Lemma fold_left_push {A B : Type} (f : A -> B) (l : list A) (init : list B) :
  fold_left (fun acc x => acc ++ [f x]) l init = init ++ map f l.
Proof.
  revert init. induction l as [|x l IH]; intros init; simpl.
  - now rewrite app_nil_r.
  - rewrite IH, <- app_assoc. reflexivity.
Qed.

(** The nested [forEach]/[push] loops of both exporters emit, image by
    image, either the single record of an untagged image or one record
    per tag. *)
Lemma export_loops (blank : ImageItem -> val) (record : ImageItem -> val -> val)
      (images : list ImageItem) (init : list val) :
  fold_left
    (fun exportData img =>
       match tags img with
       | [] => exportData ++ [blank img]
       | ts => fold_left (fun acc t => acc ++ [record img t]) ts exportData
       end) images init
  = init ++ flat_map (fun img => match tags img with
                                 | [] => [blank img]
                                 | ts => map (record img) ts
                                 end) images.
Proof.
  revert init. induction images as [|img images IH]; intros init; simpl.
  - now rewrite app_nil_r.
  - rewrite IH. destruct (tags img) as [|t ts] eqn:E.
    + now rewrite <- app_assoc.
    + rewrite fold_left_push, <- !app_assoc. reflexivity.
Qed.

Lemma map_get_set {V : Type} (k t : val) (v : V) (m : jsmap V) :
  map_get t (map_set k v m) = if strict_eq k t then Some v else map_get t m.
Proof.
  induction m as [|[k' v'] m IH]; simpl.
  - reflexivity.
  - destruct (strict_eq k' k) eqn:Ek; simpl.
    + apply strict_eq_true in Ek. subst k'.
      destruct (strict_eq k t); reflexivity.
    + rewrite IH. destruct (strict_eq k' t) eqn:Et; [|reflexivity].
      destruct (strict_eq k t) eqn:Ekt; [|reflexivity].
      apply strict_eq_true in Ekt. subst k. congruence.
Qed.

Lemma find_app {A : Type} (p : A -> bool) (l1 l2 : list A) :
  find p (l1 ++ l2) = match find p l1 with
                      | Some x => Some x
                      | None => find p l2
                      end.
Proof.
  induction l1 as [|x l1 IH]; simpl; [reflexivity|].
  destruct (p x); [reflexivity|exact IH].
Qed.

(** [tagLookup.get(t)] is the last definition whose tag is [t]: a later
    [set] of the same key overwrites. *)
Lemma tagLookup_get (t : val) (tagDefs : list TagDefinition) :
  map_get t (AppTsx.tagLookup tagDefs)
  = find (fun d => strict_eq (tag d) t) (rev tagDefs).
Proof.
  unfold AppTsx.tagLookup.
  assert (G : forall m0,
             map_get t (fold_left (fun m def => map_set (tag def) def m) tagDefs m0)
             = match find (fun d => strict_eq (tag d) t) (rev tagDefs) with
               | Some d => Some d
               | None => map_get t m0
               end).
  { induction tagDefs as [|d ds IH]; intros m0; simpl; [reflexivity|].
    rewrite IH, find_app, map_get_set. simpl.
    destruct (find _ (rev ds)); [reflexivity|].
    destruct (strict_eq (tag d) t); reflexivity. }
  rewrite G. simpl. now destruct (find _ (rev tagDefs)).
Qed.

(** With pairwise distinct definition tags the last match is the first. *)
Lemma find_rev_distinct (t : val) (tagDefs : list TagDefinition) :
  distinct (map tag tagDefs) = true ->
  find (fun d => strict_eq (tag d) t) (rev tagDefs)
  = find (fun d => strict_eq (tag d) t) tagDefs.
Proof.
  induction tagDefs as [|d ds IH]; [reflexivity|].
  cbn [map distinct]. intros H. apply andb_true_iff in H. destruct H as [Hd Hds].
  cbn [rev find]. rewrite find_app, (IH Hds). cbn [find].
  destruct (strict_eq (tag d) t) eqn:E.
  - destruct (find _ ds) as [d'|] eqn:F; [|reflexivity].
    apply find_some in F. destruct F as [Hin E'].
    apply strict_eq_true in E. subst t.
    assert (X : includes (tag d) (map tag ds) = true).
    { apply existsb_exists. exists (tag d'). split; [now apply in_map|].
      now rewrite strict_eq_sym. }
    rewrite X in Hd. discriminate.
  - now destruct (find _ ds).
Qed.

Lemma export_part000 images tagDefs :
  Part000.handleExport images tagDefs = flat_map (part000_records tagDefs) images.
Proof. unfold Part000.handleExport. now rewrite export_loops. Qed.

Lemma export_app images tagDefs :
  AppTsx.handleExport images tagDefs = flat_map (app_records tagDefs) images.
Proof. unfold AppTsx.handleExport. cbv zeta. now rewrite export_loops. Qed.

End ExportFacts.

(** C2, as stated, fails on both exporters.  App.tsx writes
    [originalImageId] as [image_id] with no fallback to the internal id.
    part_000 emits no [content], and takes a present but falsy
    [originalImageId] (the number 0) for an absent one. *)
Lemma C2_neither_exporter_matches :
  let plain :=
    {| Pipeline.id := "img-1"; Pipeline.url := JS.VStr "http://x/a.jpg";
       Pipeline.filename := "a.jpg"; Pipeline.tags := [];
       Pipeline.hotelId := JS.VNum 7; Pipeline.hotelName := JS.VUndef;
       Pipeline.originalImageId := JS.VUndef |} in
  let zero :=
    {| Pipeline.id := "img-2"; Pipeline.url := JS.VStr "http://x/b.jpg";
       Pipeline.filename := "b.jpg"; Pipeline.tags := [JS.VStr "A"];
       Pipeline.hotelId := JS.VNum 7; Pipeline.hotelName := JS.VUndef;
       Pipeline.originalImageId := JS.VNum 0 |} in
  let defs :=
    [{| Pipeline.tag := JS.VStr "A"; Pipeline.title1 := JS.VStr "T1";
        Pipeline.title2 := JS.VStr "T2"; Pipeline.content := JS.VStr "about A" |}] in
  (exists r, AppTsx.handleExport [plain] defs = [r]
             /\ JS.prop r "image_id" = JS.VUndef
             /\ JS.prop r "image_id" <> JS.VStr (Pipeline.id plain))
  /\ (exists r, Part000.handleExport [zero] defs = [r]
                /\ JS.prop r "content" = JS.VUndef
                /\ JS.prop r "content" <> JS.VStr "about A"
                /\ JS.prop r "image_id" = JS.VStr "img-2"
                /\ JS.prop r "image_id" <> Pipeline.originalImageId zero).
Proof.
  cbv zeta. split; eexists; (split; [reflexivity|]); repeat split;
    try reflexivity; discriminate.
Qed.

(** C2, amended.  Both exporters emit, image by image and in order, one
    record with empty [tag name], [title1], [title2] for an image
    without tags and one record per tag, in tag order, for an image with
    tags.  part_000: the record has the keys [hotel_id] ([hotelId], or
    [""] when falsy), [title1], [title2] (of the first definition whose
    tag is the tag, [""] when there is none or the title is falsy),
    [tag name], [image_id] ([originalImageId] when truthy, the internal
    id otherwise), [image_url]; no [content].  App.tsx: the record has
    the keys [image_id] ([originalImageId] as it is), [image_url],
    [hotel_id], [hotel_name], [tag name], [title1], [title2], [content]
    (of the last definition whose tag is the tag, which is the first
    when definition tags are unique). *)
Theorem C2_flat_export :
  (forall images tagDefs,
      Part000.handleExport images tagDefs
      = flat_map
          (fun img =>
             let common_head := ("hotel_id", JS.or_else (Pipeline.hotelId img) (JS.VStr "")) in
             let image_id :=
               ("image_id", JS.or_else (Pipeline.originalImageId img)
                                       (JS.VStr (Pipeline.id img))) in
             match Pipeline.tags img with
             | [] =>
                 [JS.VObj [common_head; ("title1", JS.VStr ""); ("title2", JS.VStr "");
                           ("tag name", JS.VStr ""); image_id;
                           ("image_url", Pipeline.url img)]]
             | ts =>
                 map (fun t =>
                        let def := find (fun d => JS.strict_eq (Pipeline.tag d) t) tagDefs in
                        let title f :=
                          match def with
                          | Some d => JS.or_else (f d) (JS.VStr "")
                          | None => JS.VStr ""
                          end in
                        JS.VObj [common_head; ("title1", title Pipeline.title1);
                                 ("title2", title Pipeline.title2);
                                 ("tag name", t); image_id;
                                 ("image_url", Pipeline.url img)]) ts
             end) images)
  /\ (forall images tagDefs,
         AppTsx.handleExport images tagDefs
         = flat_map
             (fun img =>
                let common :=
                  [("image_id", Pipeline.originalImageId img);
                   ("image_url", Pipeline.url img);
                   ("hotel_id", Pipeline.hotelId img);
                   ("hotel_name", Pipeline.hotelName img)] in
                match Pipeline.tags img with
                | [] =>
                    [JS.VObj (common ++ [("tag name", JS.VStr ""); ("title1", JS.VStr "");
                                         ("title2", JS.VStr ""); ("content", JS.VStr "")])]
                | ts =>
                    map (fun t =>
                           let def := find (fun d => JS.strict_eq (Pipeline.tag d) t)
                                           (rev tagDefs) in
                           let field f :=
                             match def with
                             | Some d => JS.or_else (f d) (JS.VStr "")
                             | None => JS.VStr ""
                             end in
                           JS.VObj (common ++ [("tag name", t);
                                               ("title1", field Pipeline.title1);
                                               ("title2", field Pipeline.title2);
                                               ("content", field Pipeline.content)])) ts
                end) images)
  /\ (forall tagDefs t,
         Spec.distinct (map Pipeline.tag tagDefs) = true ->
         find (fun d => JS.strict_eq (Pipeline.tag d) t) (rev tagDefs)
         = find (fun d => JS.strict_eq (Pipeline.tag d) t) tagDefs)
  /\ (forall images tagDefs,
         let count := list_sum (map (fun img => Nat.max 1 (List.length (Pipeline.tags img)))
                                    images) in
         List.length (Part000.handleExport images tagDefs) = count
         /\ List.length (AppTsx.handleExport images tagDefs) = count).
Proof.
  pose proof ExportFacts.export_part000 as B.
  pose proof ExportFacts.export_app as A.
  unfold Notions.part000_records, Notions.app_records in A, B.
  split; [|split; [|split]].
  - intros images tagDefs. rewrite B. apply flat_map_ext. intros img.
    destruct (Pipeline.tags img) as [|t ts]; [reflexivity|].
    apply map_ext. intros t'. unfold Part000.tag_record, Part000.def_field, Part000.find_def.
    cbv zeta. destruct (find _ tagDefs); reflexivity.
  - intros images tagDefs. rewrite A. apply flat_map_ext. intros img.
    destruct (Pipeline.tags img) as [|t ts]; [reflexivity|].
    apply map_ext. intros t'. unfold AppTsx.tag_record, AppTsx.def_field.
    cbv zeta. rewrite ExportFacts.tagLookup_get.
    destruct (find _ (rev tagDefs)); reflexivity.
  - intros tagDefs t. apply ExportFacts.find_rev_distinct.
  - intros images tagDefs. cbv zeta. rewrite A, B, !length_flat_map.
    split; f_equal; apply map_ext; intros img;
      (destruct (Pipeline.tags img) as [|t ts]; [reflexivity|]);
      now rewrite length_map.
Qed.

(** C2 at a definition list with unique tags: last match and first match agree. *)
Lemma C2_flat_export_witness :
  let defs :=
    [{| Pipeline.tag := JS.VStr "A"; Pipeline.title1 := JS.VStr "T1";
        Pipeline.title2 := JS.VStr "T2"; Pipeline.content := JS.VStr "about A" |};
     {| Pipeline.tag := JS.VStr "B"; Pipeline.title1 := JS.VStr "U1";
        Pipeline.title2 := JS.VStr "U2"; Pipeline.content := JS.VUndef |}] in
  find (fun d => JS.strict_eq (Pipeline.tag d) (JS.VStr "B")) (rev defs)
  = find (fun d => JS.strict_eq (Pipeline.tag d) (JS.VStr "B")) defs.
Proof.
  intros defs.
  apply (proj1 (proj2 (proj2 C2_flat_export)) defs (JS.VStr "B")).
  reflexivity.
Defined.

(** * The tag-text parsers *)

Module ParserFacts.
Import JS Pipeline Spec Notions JSFacts.

Lemma for_each_app {A S : Type} (f : A -> S -> res S) (l1 l2 : list A) (st : S) :
  for_each f (l1 ++ l2) st = bind (for_each f l1 st) (for_each f l2).
Proof.
  revert st. induction l1 as [|x l1 IH]; intros st; simpl; [reflexivity|].
  destruct (f x st); simpl; [apply IH|reflexivity].
Qed.

Lemma truthy_strict_eq (x y : val) :
  truthy x = true -> truthy y = false -> strict_eq x y = false.
Proof.
  intros Hx Hy. destruct (strict_eq x y) eqn:E; [|reflexivity].
  apply ExportFacts.strict_eq_true in E. congruence.
Qed.

Lemma includes_snoc (x y : val) (l : list val) :
  includes x (l ++ [y]) = includes x l || strict_eq x y.
Proof.
  rewrite includes_app. unfold includes at 2. cbn [existsb].
  now rewrite orb_false_r.
Qed.

Lemma agree_step (seen earlier : list val) (tg : val) :
  agree seen earlier ->
  agree (if truthy tg && negb (includes tg seen) then seen ++ [tg] else seen)
        (earlier ++ [tg]).
Proof.
  intros H x Hx. rewrite includes_snoc, <- (H x Hx).
  destruct (truthy tg) eqn:Ht; cbn [andb].
  - destruct (includes tg seen) eqn:Hi; cbn [negb].
    + destruct (strict_eq x tg) eqn:E; [|now rewrite orb_false_r].
      apply ExportFacts.strict_eq_true in E. subst x. now rewrite Hi.
    + apply includes_snoc.
  - now rewrite (truthy_strict_eq x tg Hx Ht), orb_false_r.
Qed.

(** One run of [forEach] over a [short_point] array that does not
    throw appends the definitions of the first occurrences. *)
Lemma short_point_run (l : list val) :
  forall defs seen earlier defs' seen',
    agree seen earlier ->
    for_each short_point l (defs, seen) = Ok (defs', seen') ->
    defs' = defs ++ map definition_of (first_occurrences earlier l)
    /\ agree seen' (earlier ++ map (fun sp => prop sp "tag") l).
Proof.
  induction l as [|sp l IH]; intros defs seen earlier defs' seen' Hag Hrun.
  - simpl in Hrun. injection Hrun as <- <-. simpl. now rewrite !app_nil_r.
  - cbn [for_each] in Hrun. unfold short_point at 1 in Hrun.
    destruct (get sp "tag") as [tg|] eqn:Hget; cbn [bind] in Hrun; [|discriminate].
    assert (Htg : tg = prop sp "tag").
    { destruct sp; simpl in Hget; try discriminate; now injection Hget as <-. }
    subst tg. cbn [first_occurrences map]. cbv zeta.
    pose proof (agree_step seen earlier (prop sp "tag") Hag) as Hag'.
    assert (Hsame : includes (prop sp "tag") seen = includes (prop sp "tag") earlier
                    \/ truthy (prop sp "tag") = false).
    { destruct (truthy (prop sp "tag")) eqn:Ht; [left; now apply Hag|now right]. }
    assert (Hcond : truthy (prop sp "tag") && negb (includes (prop sp "tag") seen)
                    = truthy (prop sp "tag") && negb (includes (prop sp "tag") earlier)).
    { destruct Hsame as [-> | ->]; reflexivity. }
    rewrite Hcond in Hrun, Hag'.
    destruct (truthy (prop sp "tag") && negb (includes (prop sp "tag") earlier));
      cbn [bind] in Hrun;
      destruct (IH _ _ _ _ _ Hag' Hrun) as [-> Hfinal];
      rewrite <- app_assoc in Hfinal; split; try exact Hfinal.
    + rewrite <- app_assoc. reflexivity.
    + reflexivity.
Qed.

Lemma short_point_total (l : list val) :
  Forall (fun sp => nullish sp = false) l ->
  forall st, exists st', for_each short_point l st = Ok st'.
Proof.
  induction 1 as [|sp l Hsp _ IH]; intros [defs seen]; simpl; [eauto|].
  unfold short_point at 1.
  destruct sp; try discriminate; cbn [get bind];
    match goal with |- context [if ?c then _ else _] => destruct c end;
    cbn [bind]; apply IH.
Qed.

(** The emitted tags are pairwise distinct and none is among [earlier]. *)
Lemma first_occurrences_distinct (l : list val) :
  forall earlier,
    let tgs := map (fun sp => prop sp "tag") (first_occurrences earlier l) in
    distinct tgs = true
    /\ forall t, In t tgs -> includes t earlier = false.
Proof.
  induction l as [|sp l IH]; intros earlier; cbv zeta; cbn [first_occurrences].
  - split; [reflexivity|]. intros t [].
  - cbv zeta. destruct (IH (earlier ++ [prop sp "tag"])) as [Hd Hnot].
    cbv zeta in Hd, Hnot.
    assert (Hweak : forall t,
               In t (map (fun sp0 => prop sp0 "tag")
                         (first_occurrences (earlier ++ [prop sp "tag"]) l)) ->
               includes t earlier = false /\ strict_eq t (prop sp "tag") = false).
    { intros t Ht. specialize (Hnot t Ht). rewrite includes_snoc in Hnot.
      now apply orb_false_iff in Hnot. }
    destruct (truthy (prop sp "tag") && negb (includes (prop sp "tag") earlier)) eqn:C.
    + apply andb_true_iff in C. destruct C as [_ C]. apply negb_true_iff in C.
      cbn [map distinct]. split.
      * rewrite Hd, andb_true_r. apply negb_true_iff.
        apply not_true_is_false. intros X.
        apply existsb_exists in X. destruct X as (t & Ht & E).
        destruct (Hweak t Ht) as [_ E']. rewrite strict_eq_sym in E. congruence.
      * intros t [<-|Ht]; [exact C|]. now apply Hweak.
    + split; [exact Hd|]. intros t Ht. now apply Hweak.
Qed.

Lemma first_seen_distinct (l : list val) :
  distinct (map tag (first_seen l)) = true.
Proof.
  unfold first_seen. rewrite map_map. cbn [definition_of tag].
  apply (first_occurrences_distinct l []).
Qed.

(** A run over the elements of the input, each contributing its
    [short_point] array, is a run over all entries. *)
Lemma items_run (step : val -> list TagDefinition * list val
                        -> res (list TagDefinition * list val))
      (items : list val) :
  (forall item st,
      step item st = if nullish item then Throw
                     else for_each short_point (short_points item) st) ->
  forall st,
    (forall st', for_each step items st = Ok st' ->
                 for_each short_point (flat_map short_points items) st = Ok st')
    /\ (Forall (fun item => nullish item = false) items ->
        for_each step items st
        = for_each short_point (flat_map short_points items) st).
Proof.
  intros Hstep. induction items as [|item items IH]; intros st.
  - split; auto.
  - cbn [for_each flat_map]. rewrite for_each_app, Hstep. split.
    + destruct (nullish item); [discriminate|].
      destruct (for_each short_point (short_points item) st) as [st1|];
        cbn [bind]; [|discriminate]. apply IH.
    + intros HF. inversion HF as [|? ? Hi Hrest]; subst. rewrite Hi.
      destruct (for_each short_point (short_points item) st) as [st1|];
        cbn [bind]; [|reflexivity]. now apply IH.
Qed.

Lemma app_step (item : val) (st : list TagDefinition * list val) :
  (sp <- get item "short_point" ;;
   if truthy sp && is_array sp then AppTsx.processShortPoints sp st else Ok st)
  = if nullish item then Throw
    else for_each short_point (short_points item) st.
Proof.
  unfold short_points.
  destruct item; cbn [get nullish bind]; try reflexivity;
    destruct (prop _ "short_point");
    cbn [truthy is_array AppTsx.processShortPoints];
    rewrite ?andb_false_r; reflexivity.
Qed.

Lemma part_step (item : val) (st : list TagDefinition * list val) :
  (sp <- get item "short_point" ;;
   match sp with
   | VArr l => if truthy sp then for_each short_point l st else Ok st
   | _ => Ok st
   end)
  = if nullish item then Throw
    else for_each short_point (short_points item) st.
Proof.
  unfold short_points.
  destruct item; cbn [get nullish bind]; try reflexivity;
    destruct (prop _ "short_point"); reflexivity.
Qed.

Lemma agree_nil : agree [] [].
Proof. intros x _. reflexivity. Qed.

(** Extraction in App.tsx: when it does not throw it yields the
    first-seen definitions of the entries. *)
Lemma app_extract_run (data : val) (defs : list TagDefinition) (seen : list val) :
  AppTsx.extract data = Ok (Some (defs, seen)) -> defs = first_seen (entries data).
Proof.
  unfold AppTsx.extract, first_seen, entries.
  destruct data; try discriminate.
  - destruct (for_each _ items ([], [])) as [st|] eqn:Hrun; cbn [bind]; [|discriminate].
    intros [= ->].
    apply (proj1 (items_run _ items app_step ([], []))) in Hrun.
    now destruct (short_point_run _ _ _ _ _ _ agree_nil Hrun) as [-> _].
  - cbn [prop]. unfold short_points. cbn [prop].
    destruct (lookup "short_point" fields) as [| | | | |l|];
      cbn [truthy is_array andb]; rewrite ?andb_false_r; cbn [bind];
      try (intros [= <- <-]; reflexivity).
    unfold AppTsx.processShortPoints.
    destruct (for_each short_point l ([], [])) as [st|] eqn:Hrun; cbn [bind]; [|discriminate].
    intros [= ->].
    now destruct (short_point_run _ _ _ _ _ _ agree_nil Hrun) as [-> _].
Qed.

Lemma part_extract_run (data : val) (defs : list TagDefinition) (seen : list val) :
  Part000.extract data = Ok (Some (defs, seen)) ->
  is_array data = true /\ defs = first_seen (entries data).
Proof.
  unfold Part000.extract, first_seen, entries.
  destruct data; try discriminate.
  destruct (for_each _ items ([], [])) as [st|] eqn:Hrun; cbn [bind]; [|discriminate].
  intros [= ->]. split; [reflexivity|].
  apply (proj1 (items_run _ items part_step ([], []))) in Hrun.
  now destruct (short_point_run _ _ _ _ _ _ agree_nil Hrun) as [-> _].
Qed.

Lemma app_extract_total (data : val) :
  readable data ->
  match data with VArr _ | VObj _ => True | _ => False end ->
  exists seen, AppTsx.extract data = Ok (Some (first_seen (entries data), seen)).
Proof.
  intros [Hitems Hentries] Hroot. unfold AppTsx.extract.
  destruct data; try contradiction.
  - cbn [entries] in Hentries.
    rewrite (proj2 (items_run _ items app_step ([], [])) Hitems).
    destruct (short_point_total _ Hentries ([], [])) as [[defs seen] Hrun].
    rewrite Hrun. cbn [bind]. exists seen.
    now destruct (short_point_run _ _ _ _ _ _ agree_nil Hrun) as [-> _].
  - cbn [entries] in Hentries. unfold first_seen, entries, short_points in *.
    cbn [prop] in *.
    destruct (lookup "short_point" fields) as [| | | | |l|];
      cbn [truthy is_array andb]; rewrite ?andb_false_r; cbn [bind];
      try (exists []; reflexivity).
    unfold AppTsx.processShortPoints.
    destruct (short_point_total _ Hentries ([], [])) as [[defs seen] Hrun].
    rewrite Hrun. cbn [bind]. exists seen.
    now destruct (short_point_run _ _ _ _ _ _ agree_nil Hrun) as [-> _].
Qed.

Lemma part_extract_total (items : list val) :
  readable (VArr items) ->
  exists seen,
    Part000.extract (VArr items) = Ok (Some (first_seen (entries (VArr items)), seen)).
Proof.
  intros [Hitems Hentries]. unfold Part000.extract. cbn [entries] in *.
  rewrite (proj2 (items_run _ items part_step ([], [])) Hitems).
  destruct (short_point_total _ Hentries ([], [])) as [[defs seen] Hrun].
  rewrite Hrun. cbn [bind]. exists seen.
  now destruct (short_point_run _ _ _ _ _ _ agree_nil Hrun) as [-> _].
Qed.

Lemma first_occurrences_nonempty (l : list val) :
  existsb (fun sp => truthy (prop sp "tag")) l = true ->
  first_seen l <> [].
Proof.
  unfold first_seen.
  assert (G : forall earlier,
             existsb (fun sp => truthy (prop sp "tag") && negb (includes (prop sp "tag") earlier)) l
             = true ->
             first_occurrences earlier l <> []).
  { induction l as [|sp l IH]; intros earlier; cbn [existsb first_occurrences];
      [discriminate|]. cbv zeta.
    destruct (truthy (prop sp "tag") && negb (includes (prop sp "tag") earlier)) eqn:C;
      [discriminate|]. cbn [orb]. intros H. apply IH.
    apply existsb_exists in H. destruct H as (e & He & Hc).
    apply andb_true_iff in Hc. destruct Hc as [Ht Hn]. apply negb_true_iff in Hn.
    destruct (includes (prop e "tag") (earlier ++ [prop sp "tag"])) eqn:X.
    - rewrite includes_snoc, Hn in X. cbn [orb] in X.
      apply ExportFacts.strict_eq_true in X.
      rewrite <- X, Ht, Hn in C. discriminate.
    - apply existsb_exists. exists e. split; [exact He|]. now rewrite Ht, X. }
  intros H E. apply map_eq_nil in E. revert E. apply G.
  etransitivity; [|exact H]. clear. induction l as [|sp l IH]; [reflexivity|].
  cbn [existsb]. rewrite IH. unfold includes. cbn [existsb negb].
  now rewrite andb_true_r.
Qed.

End ParserFacts.

Module OutcomeFacts.
Import JS Pipeline Spec.

Lemma conclude_parsed (r : res (option (list TagDefinition * list val)))
      (defs : list TagDefinition) :
  conclude r = SetParsed defs ->
  exists seen, r = Ok (Some (defs, seen)) /\ defs <> [].
Proof.
  destruct r as [[[[|d ds] seen]|]|]; simpl; try discriminate.
  intros [= <-]. exists seen. split; [reflexivity|discriminate].
Qed.

Lemma conclude_nonempty (defs : list TagDefinition) (seen : list val) :
  defs <> [] -> conclude (Ok (Some (defs, seen))) = SetParsed defs.
Proof. destruct defs; [contradiction|reflexivity]. Qed.

Lemma app_parsed JSON_parse raw defs :
  AppTsx.parseTagInput JSON_parse raw = SetParsed defs ->
  distinct (map tag defs) = true
  /\ ((Str.trim raw =? "") = false ->
      exists data, AppTsx.parse_data JSON_parse raw = Some data
                   /\ defs = first_seen (entries data)).
Proof.
  unfold AppTsx.parseTagInput. destruct (Str.trim raw =? "").
  - intros [= <-]. split; [reflexivity|discriminate].
  - destruct (AppTsx.parse_data JSON_parse raw) as [data|]; [|discriminate].
    intros H. apply conclude_parsed in H. destruct H as (seen & H & _).
    apply ParserFacts.app_extract_run in H. subst defs.
    split; [apply ParserFacts.first_seen_distinct|]. intros _. eauto.
Qed.

Lemma part_parsed JSON_parse raw defs :
  Part000.parseTagInput JSON_parse raw = SetParsed defs ->
  distinct (map tag defs) = true
  /\ ((Str.trim raw =? "") = false ->
      exists data, Part000.parse_data JSON_parse raw = Some data
                   /\ is_array data = true
                   /\ defs = first_seen (entries data)).
Proof.
  unfold Part000.parseTagInput. destruct (Str.trim raw =? "").
  - intros [= <-]. split; [reflexivity|discriminate].
  - destruct (Part000.parse_data JSON_parse raw) as [data|]; [|discriminate].
    intros H. apply conclude_parsed in H. destruct H as (seen & H & _).
    apply ParserFacts.part_extract_run in H. destruct H as [Ha ->].
    split; [apply ParserFacts.first_seen_distinct|]. intros _. eauto.
Qed.

Lemma app_accepts JSON_parse raw data :
  (Str.trim raw =? "") = false ->
  AppTsx.parse_data JSON_parse raw = Some data ->
  match data with VArr _ | VObj _ => True | _ => False end ->
  Spec.readable data ->
  existsb (fun sp => truthy (prop sp "tag")) (entries data) = true ->
  AppTsx.parseTagInput JSON_parse raw = SetParsed (first_seen (entries data)).
Proof.
  intros Hb Hp Hroot Hr Ht. unfold AppTsx.parseTagInput. rewrite Hb, Hp.
  destruct (ParserFacts.app_extract_total data Hr Hroot) as [seen ->].
  apply conclude_nonempty. now apply ParserFacts.first_occurrences_nonempty.
Qed.

Lemma part_accepts JSON_parse raw items :
  (Str.trim raw =? "") = false ->
  Part000.parse_data JSON_parse raw = Some (VArr items) ->
  Spec.readable (VArr items) ->
  existsb (fun sp => truthy (prop sp "tag")) (entries (VArr items)) = true ->
  Part000.parseTagInput JSON_parse raw = SetParsed (first_seen (entries (VArr items))).
Proof.
  intros Hb Hp Hr Ht. unfold Part000.parseTagInput. rewrite Hb, Hp.
  destruct (ParserFacts.part_extract_total items Hr) as [seen ->].
  apply conclude_nonempty. now apply ParserFacts.first_occurrences_nonempty.
Qed.

End OutcomeFacts.

Example repeated_tags_app :
  AppTsx.parseTagInput Json.parse Texts.repeated_tags
  = Pipeline.SetParsed
      [{| Pipeline.tag := JS.VStr "A"; Pipeline.title1 := JS.VStr "first";
          Pipeline.title2 := JS.VStr ""; Pipeline.content := JS.VStr "" |};
       {| Pipeline.tag := JS.VStr "B"; Pipeline.title1 := JS.VStr "";
          Pipeline.title2 := JS.VStr ""; Pipeline.content := JS.VStr "" |};
       {| Pipeline.tag := JS.VStr "C"; Pipeline.title1 := JS.VStr "";
          Pipeline.title2 := JS.VStr ""; Pipeline.content := JS.VStr "c" |}].
Proof. vm_compute. reflexivity. Qed.

Example repeated_tags_part :
  Part000.parseTagInput Json.parse Texts.repeated_tags
  = AppTsx.parseTagInput Json.parse Texts.repeated_tags.
Proof. vm_compute. reflexivity. Qed.

(** C3, as stated, fails on part_000: the text is sanitized before the
    only parse attempt, so valid JSON is altered. *)
Lemma C3_part000_sanitizes_valid_json :
  Json.parse Texts.valid_with_None
  = Some (JS.VArr [JS.VObj [("short_point",
            JS.VArr [JS.VObj [("tag", JS.VStr "A"); ("content", JS.VStr "None")]])]])
  /\ Part000.parseTagInput Json.parse Texts.valid_with_None
     = Pipeline.SetParsed
         [{| Pipeline.tag := JS.VStr "A"; Pipeline.title1 := JS.VStr "";
             Pipeline.title2 := JS.VStr ""; Pipeline.content := JS.VStr "null" |}]
  /\ AppTsx.parseTagInput Json.parse Texts.valid_with_None
     = Pipeline.SetParsed
         [{| Pipeline.tag := JS.VStr "A"; Pipeline.title1 := JS.VStr "";
             Pipeline.title2 := JS.VStr ""; Pipeline.content := JS.VStr "None" |}].
Proof. repeat split; vm_compute; reflexivity. Qed.

(** C3, amended.  In App.tsx the value handed to extraction is the
    strict parse of the unmodified input whenever that parse succeeds,
    and the parse of the sanitized text only when it fails.  In part_000
    the value handed to extraction is always the parse of the sanitized
    text. *)
Theorem C3_strict_parse_first (JSON_parse : string -> option JS.val) (raw : string) :
  (forall data,
      JSON_parse raw = Some data ->
      AppTsx.parse_data JSON_parse raw = Some data
      /\ ((Str.trim raw =? "") = false ->
          AppTsx.parseTagInput JSON_parse raw = Pipeline.conclude (AppTsx.extract data)))
  /\ (JSON_parse raw = None ->
      AppTsx.parse_data JSON_parse raw = JSON_parse (Pipeline.sanitize raw))
  /\ Part000.parse_data JSON_parse raw = JSON_parse (Pipeline.sanitize raw)
  /\ ((Str.trim raw =? "") = false ->
      Part000.parseTagInput JSON_parse raw
      = match JSON_parse (Pipeline.sanitize raw) with
        | Some data => Pipeline.conclude (Part000.extract data)
        | None => Pipeline.SetError Pipeline.FormatInvalid
        end).
Proof.
  unfold AppTsx.parseTagInput, Part000.parseTagInput, AppTsx.parse_data,
    Part000.parse_data.
  split; [|split; [|split]].
  - intros data ->. split; [reflexivity|]. now intros ->.
  - now intros ->.
  - reflexivity.
  - now intros ->.
Qed.

(** C3 at a valid JSON text that holds the word [None]. *)
Lemma C3_strict_parse_first_witness :
  exists data,
    Json.parse Texts.valid_with_None = Some data
    /\ AppTsx.parse_data Json.parse Texts.valid_with_None = Some data
    /\ AppTsx.parseTagInput Json.parse Texts.valid_with_None
       = Pipeline.conclude (AppTsx.extract data).
Proof.
  eexists. split; [vm_compute; reflexivity|].
  destruct (proj1 (C3_strict_parse_first Json.parse Texts.valid_with_None) _ eq_refl)
    as [Hdata Hrun].
  split; [exact Hdata|]. apply Hrun. vm_compute. reflexivity.
Defined.

(** C5.  Whenever a parser (of either file) sets a definition list, no
    two of its tags are [===], and for a non-blank input the list is the
    definitions of the first occurrences, in traversal order, each built
    from its own entry with [""] for an absent field.  The parser does
    set that list for every input whose parsed value is an array (or, in
    App.tsx, an object) read without a [TypeError] in which some entry
    bears a non-empty tag. *)
Theorem C5_first_seen_definitions (JSON_parse : string -> option JS.val) (raw : string) :
  (forall defs,
      AppTsx.parseTagInput JSON_parse raw = Pipeline.SetParsed defs ->
      Spec.distinct (map Pipeline.tag defs) = true
      /\ ((Str.trim raw =? "") = false ->
          exists data, AppTsx.parse_data JSON_parse raw = Some data
                       /\ defs = Spec.first_seen (Spec.entries data)))
  /\ (forall defs,
         Part000.parseTagInput JSON_parse raw = Pipeline.SetParsed defs ->
         Spec.distinct (map Pipeline.tag defs) = true
         /\ ((Str.trim raw =? "") = false ->
             exists data, Part000.parse_data JSON_parse raw = Some data
                          /\ defs = Spec.first_seen (Spec.entries data)))
  /\ (forall data,
         (Str.trim raw =? "") = false ->
         AppTsx.parse_data JSON_parse raw = Some data ->
         match data with JS.VArr _ | JS.VObj _ => True | _ => False end ->
         Spec.readable data ->
         existsb (fun sp => JS.truthy (JS.prop sp "tag")) (Spec.entries data) = true ->
         AppTsx.parseTagInput JSON_parse raw
         = Pipeline.SetParsed (Spec.first_seen (Spec.entries data)))
  /\ (forall items,
         (Str.trim raw =? "") = false ->
         Part000.parse_data JSON_parse raw = Some (JS.VArr items) ->
         Spec.readable (JS.VArr items) ->
         existsb (fun sp => JS.truthy (JS.prop sp "tag")) (Spec.entries (JS.VArr items))
         = true ->
         Part000.parseTagInput JSON_parse raw
         = Pipeline.SetParsed (Spec.first_seen (Spec.entries (JS.VArr items)))).
Proof.
  split; [|split; [|split]].
  - apply OutcomeFacts.app_parsed.
  - intros defs H. destruct (OutcomeFacts.part_parsed _ _ _ H) as [Hd Hx].
    split; [exact Hd|]. intros Hb. destruct (Hx Hb) as (data & Hp & _ & E). eauto.
  - intros data. apply OutcomeFacts.app_accepts.
  - intros items. apply OutcomeFacts.part_accepts.
Qed.

(** C5 at an input that repeats the tag [A] in a second [short_point] array. *)
Lemma C5_first_seen_definitions_witness :
  exists data,
    Json.parse Texts.repeated_tags = Some data
    /\ AppTsx.parseTagInput Json.parse Texts.repeated_tags
       = Pipeline.SetParsed (Spec.first_seen (Spec.entries data))
    /\ map Pipeline.tag (Spec.first_seen (Spec.entries data))
       = [JS.VStr "A"; JS.VStr "B"; JS.VStr "C"].
Proof.
  eexists. split; [vm_compute; reflexivity|]. split.
  - apply (proj1 (proj2 (proj2 (C5_first_seen_definitions Json.parse Texts.repeated_tags)))).
    + vm_compute. reflexivity.
    + vm_compute. reflexivity.
    + exact I.
    + split; repeat constructor.
    + vm_compute. reflexivity.
  - vm_compute. reflexivity.
Defined.

(** C6, as stated, fails.  part_000 rejects every root that is not an
    array, shape (b) included.  App.tsx accepts shape (b), yet reports
    an error when the [short_point] array also holds a [null]. *)
Lemma C6_shape_b_not_always_accepted :
  Part000.parseTagInput Json.parse Texts.shape_b
  = Pipeline.SetError Pipeline.RootElement
  /\ AppTsx.parseTagInput Json.parse Texts.shape_b
     = Pipeline.SetParsed
         [{| Pipeline.tag := JS.VStr "A"; Pipeline.title1 := JS.VStr "T1";
             Pipeline.title2 := JS.VStr ""; Pipeline.content := JS.VStr "" |}]
  /\ AppTsx.parseTagInput Json.parse Texts.shape_b_null
     = Pipeline.SetError Pipeline.ParsingFailed.
Proof. repeat split; vm_compute; reflexivity. Qed.

(** C6, amended.  App.tsx accepts shape (b): when the parsed root is an
    object whose [short_point] is an array without [null] entries and
    with an entry bearing a non-empty tag, it sets the first-seen
    definitions of that array.  part_000 answers every root that is not
    an array with the root-element error. *)
Theorem C6_shape_b (JSON_parse : string -> option JS.val) (raw : string) :
  (forall fields l,
      (Str.trim raw =? "") = false ->
      AppTsx.parse_data JSON_parse raw = Some (JS.VObj fields) ->
      JS.lookup "short_point" fields = JS.VArr l ->
      Forall (fun sp => Spec.nullish sp = false) l ->
      existsb (fun sp => JS.truthy (JS.prop sp "tag")) l = true ->
      AppTsx.parseTagInput JSON_parse raw = Pipeline.SetParsed (Spec.first_seen l)
      /\ Spec.first_seen l <> [])
  /\ (forall data,
         (Str.trim raw =? "") = false ->
         Part000.parse_data JSON_parse raw = Some data ->
         JS.is_array data = false ->
         Part000.parseTagInput JSON_parse raw = Pipeline.SetError Pipeline.RootElement).
Proof.
  split.
  - intros fields l Hb Hp Hsp Hl Ht.
    assert (E : Spec.entries (JS.VObj fields) = l).
    { unfold Spec.entries, Spec.short_points. cbn [JS.prop]. now rewrite Hsp. }
    split; [|now apply ParserFacts.first_occurrences_nonempty].
    rewrite <- E. apply OutcomeFacts.app_accepts; trivial.
    + split; [exact I|]. now rewrite E.
    + now rewrite E.
  - intros data Hb Hp Ha. unfold Part000.parseTagInput. rewrite Hb, Hp.
    destruct data; try reflexivity. discriminate.
Qed.

(** C6 at an object with a [long_point] and a [short_point] array. *)
Lemma C6_shape_b_witness :
  exists l,
    AppTsx.parseTagInput Json.parse Texts.shape_b = Pipeline.SetParsed (Spec.first_seen l)
    /\ Spec.first_seen l <> []
    /\ map Pipeline.tag (Spec.first_seen l) = [JS.VStr "A"].
Proof.
  exists [JS.VObj [("tag", JS.VStr "A"); ("title1", JS.VStr "T1")]].
  split; [|split; [|reflexivity]];
    apply (proj1 (C6_shape_b Json.parse Texts.shape_b)
                 [("long_point", JS.VObj [("x", JS.VNum 1)]);
                  ("short_point",
                   JS.VArr [JS.VObj [("tag", JS.VStr "A"); ("title1", JS.VStr "T1")]])]);
    try (vm_compute; reflexivity); repeat constructor.
Defined.

(** * The sanitization pass *)

Module SanitizeFacts.

Lemma starts_with_length (p s : string) :
  Str.starts_with p s = true -> String.length p <= String.length s.
Proof.
  revert s. induction p as [|a p IH]; intros s; simpl; [lia|].
  destruct s as [|b s]; [discriminate|]. simpl.
  intros H. apply andb_true_iff in H. destruct H as [_ H].
  apply IH in H. lia.
Qed.

Lemma append_assoc (a b c : string) : ((a ++ b) ++ c = a ++ b ++ c)%string.
Proof. induction a as [|x a IH]; simpl; [reflexivity|now rewrite IH]. Qed.

(** A literal replace works on [x ++ mid ++ y] piece by piece when no
    occurrence of the pattern begins in [x] and ends beyond it. *)
Lemma replace_pieces (pat rep mid mid' : string) :
  (forall y, Str.replace_from pat rep 0 (mid ++ y)
             = (mid' ++ Str.replace_from pat rep 0 y)%string) ->
  (forall c s y, Str.starts_with pat (String c s ++ mid ++ y)
                 = Str.starts_with pat (String c s)) ->
  forall x y,
    Str.replace_all pat rep (x ++ mid ++ y)
    = (Str.replace_all pat rep x ++ mid' ++ Str.replace_all pat rep y)%string.
Proof.
  intros Hmid Hstraddle x y. unfold Str.replace_all.
  assert (G : forall skip, skip <= String.length x ->
                Str.replace_from pat rep skip (x ++ mid ++ y)
                = (Str.replace_from pat rep skip x ++ mid'
                   ++ Str.replace_from pat rep 0 y)%string).
  { induction x as [|c x IH]; intros skip Hskip.
    - simpl in Hskip. assert (skip = 0) by lia. subst. apply Hmid.
    - change (String c x ++ mid ++ y)%string with (String c (x ++ mid ++ y)).
      cbn [Str.replace_from]. destruct skip as [|k].
      + change (String c (x ++ mid ++ y)) with (String c x ++ mid ++ y)%string.
        rewrite Hstraddle.
        destruct (Str.starts_with pat (String c x)) eqn:E.
        * apply starts_with_length in E. simpl in E.
          rewrite IH by lia. now rewrite append_assoc.
        * rewrite IH by lia. reflexivity.
      + simpl in Hskip. apply IH. lia. }
  apply G. lia.
Qed.

Ltac no_straddle :=
  let c := fresh "c" in
  let s := fresh "s" in
  let z := fresh "z" in
  intros c s z;
  destruct s as [|? [|? [|? [|? ?]]]];
  cbn [Str.starts_with append]; rewrite ?andb_false_r; reflexivity.

Ltac piece pat rep mid mid' :=
  rewrite (replace_pieces pat rep mid mid'); [|intros; reflexivity|no_straddle].

Lemma sanitize_None (a b : string) :
  Pipeline.sanitize (a ++ "None" ++ b)
  = (Pipeline.sanitize a ++ "null" ++ Pipeline.sanitize b)%string.
Proof.
  unfold Pipeline.sanitize.
  piece "'" Str.quote "None" "None". piece "None" "null" "None" "null".
  piece "True" "true" "null" "null". piece "False" "false" "null" "null".
  reflexivity.
Qed.

Lemma sanitize_True (a b : string) :
  Pipeline.sanitize (a ++ "True" ++ b)
  = (Pipeline.sanitize a ++ "true" ++ Pipeline.sanitize b)%string.
Proof.
  unfold Pipeline.sanitize.
  piece "'" Str.quote "True" "True". piece "None" "null" "True" "True".
  piece "True" "true" "True" "true". piece "False" "false" "true" "true".
  reflexivity.
Qed.

Lemma sanitize_False (a b : string) :
  Pipeline.sanitize (a ++ "False" ++ b)
  = (Pipeline.sanitize a ++ "false" ++ Pipeline.sanitize b)%string.
Proof.
  unfold Pipeline.sanitize.
  piece "'" Str.quote "False" "False". piece "None" "null" "False" "False".
  piece "True" "true" "False" "False". piece "False" "false" "False" "false".
  reflexivity.
Qed.

End SanitizeFacts.

(** C10.  The sanitization pass rewrites [None], [True] and [False]
    wherever the letters occur, whatever stands before and after them:
    inside longer words and inside quoted text alike.  A Python-style
    input whose [content] reads [None of the rooms] fails the strict
    parse, is sanitized, and comes out of either parser with the content
    [null of the rooms]. *)
Theorem C10_sanitize_rewrites_substrings :
  (forall a b : string,
      Pipeline.sanitize (a ++ "None" ++ b)
      = (Pipeline.sanitize a ++ "null" ++ Pipeline.sanitize b)%string
      /\ Pipeline.sanitize (a ++ "True" ++ b)
         = (Pipeline.sanitize a ++ "true" ++ Pipeline.sanitize b)%string
      /\ Pipeline.sanitize (a ++ "False" ++ b)
         = (Pipeline.sanitize a ++ "false" ++ Pipeline.sanitize b)%string)
  /\ Pipeline.sanitize "xNoney NoTrue Falsehood" = "xnully Notrue falsehood"
  /\ Str.contains "'content': 'None of the rooms'" Texts.python_with_None = true
  /\ Json.parse Texts.python_with_None = None
  /\ (exists d,
         AppTsx.parseTagInput Json.parse Texts.python_with_None = Pipeline.SetParsed [d]
         /\ Part000.parseTagInput Json.parse Texts.python_with_None = Pipeline.SetParsed [d]
         /\ Pipeline.tag d = JS.VStr "A"
         /\ Pipeline.content d = JS.VStr "null of the rooms"
         /\ Pipeline.content d <> JS.VStr "None of the rooms").
Proof.
  split.
  { intros a b. split; [apply SanitizeFacts.sanitize_None|].
    split; [apply SanitizeFacts.sanitize_True|apply SanitizeFacts.sanitize_False]. }
  split; [reflexivity|]. split; [reflexivity|]. split; [vm_compute; reflexivity|].
  eexists. split; [vm_compute; reflexivity|]. split; [vm_compute; reflexivity|].
  repeat split; try reflexivity. discriminate.
Qed.

(** * Export followed by import *)

Module RoundTrip.
Import JS Pipeline Spec Notions JSFacts.

Lemma map_has_false_get {V : Type} (k : val) (m : jsmap V) :
  map_has k m = false -> map_get k m = None.
Proof. unfold map_has. now destruct (map_get k m). Qed.

Lemma map_set_absent {V : Type} (k : val) (v : V) (m : jsmap V) :
  map_has k m = false -> map_set k v m = m ++ [(k, v)].
Proof.
  unfold map_has. induction m as [|[k' v'] m IH]; simpl; [reflexivity|].
  destruct (strict_eq k' k); [discriminate|]. intros H. now rewrite IH.
Qed.

Lemma map_get_last {V : Type} (s : string) (v : V) (m : jsmap V) :
  map_has (VStr s) m = false -> map_get (VStr s) (m ++ [(VStr s, v)]) = Some v.
Proof.
  unfold map_has. induction m as [|[k' v'] m IH]; simpl.
  - now rewrite String.eqb_refl.
  - destruct (strict_eq k' (VStr s)); [discriminate|exact IH].
Qed.

Lemma map_set_last {V : Type} (s : string) (v v' : V) (m : jsmap V) :
  map_has (VStr s) m = false ->
  map_set (VStr s) v' (m ++ [(VStr s, v)]) = m ++ [(VStr s, v')].
Proof.
  unfold map_has. induction m as [|[k' w] m IH]; simpl.
  - now rewrite String.eqb_refl.
  - destruct (strict_eq k' (VStr s)); [discriminate|].
    intros H. now rewrite IH.
Qed.

Lemma map_has_last {V : Type} (s : string) (v : V) (m : jsmap V) :
  map_has (VStr s) m = false -> map_has (VStr s) (m ++ [(VStr s, v)]) = true.
Proof. intros H. unfold map_has. now rewrite map_get_last. Qed.

Lemma map_has_app_other {V : Type} (k : val) (s : string) (v : V) (m : jsmap V) :
  strict_eq (VStr s) k = false ->
  map_has k (m ++ [(VStr s, v)]) = map_has k m.
Proof.
  intros Hne. unfold map_has. induction m as [|[k' w] m IH]; cbn [app map_get].
  - now rewrite Hne.
  - destruct (strict_eq k' k); [reflexivity|exact IH].
Qed.

Section Rows.
Variable clock : nat -> Z.
Variable random36 : nat -> string.

Lemma truthy_str (s : string) : s <> "" -> truthy (VStr s) = true.
Proof. intros H. simpl. apply negb_true_iff. now apply String.eqb_neq. Qed.

(** First record of an image without tags. *)
Lemma flat_row_untagged i row u g d :
  is_record u VUndef row -> u <> "" -> map_has (VStr u) g = false ->
  flat_row clock random36 (i, row) {| groupedImages := g; recoveredDefs := d |}
  = Ok {| groupedImages := g ++ [(VStr u, new_item clock random36 i row u)];
          recoveredDefs := d |}.
Proof.
  intros [Hget Htn] Hu Hg. unfold flat_row. rewrite Hget. cbn [bind].
  rewrite (truthy_str u Hu). cbn [negb groupedImages recoveredDefs].
  rewrite Hg. cbn [import_filename bind].
  fold (tag_name row). rewrite Htn.
  fold (new_item clock random36 i row u). rewrite (map_set_absent _ _ _ Hg).
  now destruct (map_get _ _).
Qed.

Lemma good_cond (t : string) :
  good t ->
  truthy (VStr t) && is_string (VStr t) && negb (Str.trim t =? "") = true.
Proof.
  intros H. assert (Ht : t <> "") by (intros ->; now apply H).
  rewrite (truthy_str t Ht). cbn [is_string andb].
  apply negb_true_iff. now apply String.eqb_neq.
Qed.

(** First record of an image with tags. *)
Lemma flat_row_first_tag i row u t g d :
  is_record u (VStr t) row -> u <> "" -> good t -> map_has (VStr u) g = false ->
  flat_row clock random36 (i, row) {| groupedImages := g; recoveredDefs := d |}
  = Ok {| groupedImages :=
            g ++ [(VStr u, with_tags (new_item clock random36 i row u) [VStr t])];
          recoveredDefs := note_def d (t, row) |}.
Proof.
  intros [Hget Htn] Hu Ht Hg. unfold flat_row. rewrite Hget. cbn [bind].
  rewrite (truthy_str u Hu). cbn [negb groupedImages recoveredDefs].
  rewrite Hg. cbn [import_filename bind].
  fold (tag_name row). rewrite Htn.
  fold (new_item clock random36 i row u). rewrite (map_set_absent _ _ _ Hg).
  rewrite (map_get_last _ _ _ Hg), (good_cond t Ht).
  cbn [tags new_item includes existsb app].
  rewrite (map_set_last _ _ _ _ Hg). reflexivity.
Qed.

(** A further record of an image already met. *)
Lemma flat_row_next_tag i row u t g d img :
  is_record u (VStr t) row -> u <> "" -> good t -> map_has (VStr u) g = false ->
  includes (VStr t) (tags img) = false ->
  flat_row clock random36 (i, row)
    {| groupedImages := g ++ [(VStr u, img)]; recoveredDefs := d |}
  = Ok {| groupedImages := g ++ [(VStr u, with_tags img (tags img ++ [VStr t]))];
          recoveredDefs := note_def d (t, row) |}.
Proof.
  intros [Hget Htn] Hu Ht Hg Hin. unfold flat_row. rewrite Hget. cbn [bind].
  rewrite (truthy_str u Hu). cbn [negb groupedImages recoveredDefs].
  rewrite (map_has_last _ _ _ Hg). cbn [bind].
  fold (tag_name row). rewrite Htn.
  rewrite (map_get_last _ _ _ Hg), (good_cond t Ht), Hin.
  rewrite (map_set_last _ _ _ _ Hg). reflexivity.
Qed.


Lemma with_tags_same (img : ImageItem) : with_tags img (tags img) = img.
Proof. now destruct img. Qed.

Lemma with_tags_twice (img : ImageItem) (x y : list val) :
  with_tags (with_tags img x) y = with_tags img y.
Proof. reflexivity. Qed.

Lemma includes_map_VStr (t : string) (done : list string) :
  ~ In t done -> includes (VStr t) (map VStr done) = false.
Proof.
  intros H. apply not_true_is_false. intros X. apply includes_str in X.
  apply in_map_iff in X. destruct X as (t' & [= ->] & Hin). contradiction.
Qed.

(** The records of one image after its first: each appends its tag. *)
Lemma rows_next (u : string) (g : jsmap ImageItem) :
  u <> "" -> map_has (VStr u) g = false ->
  forall ts rows,
    Forall2 (fun t row => is_record u (VStr t) row) ts rows ->
    forall k d img done,
      Forall good ts ->
      tags img = map VStr done ->
      NoDup (done ++ ts) ->
      for_each (flat_row clock random36) (combine (seq k (List.length rows)) rows)
        {| groupedImages := g ++ [(VStr u, img)]; recoveredDefs := d |}
      = Ok {| groupedImages := g ++ [(VStr u, with_tags img (map VStr (done ++ ts)))];
              recoveredDefs := fold_left note_def (combine ts rows) d |}.
Proof.
  intros Hu Hg ts rows HF.
  induction HF as [|t row ts rows Hrow _ IH]; intros k d img done Hgood Htags Hnd.
  - cbn [List.length seq combine for_each fold_left].
    rewrite app_nil_r, <- Htags, with_tags_same. reflexivity.
  - inversion Hgood as [|? ? Ht Hts]; subst.
    cbn [List.length seq combine for_each fold_left].
    rewrite (flat_row_next_tag k row u t g d img Hrow Hu Ht Hg).
    + cbn [bind].
      rewrite (IH (S k) (note_def d (t, row))
                  (with_tags img (tags img ++ [VStr t])) (done ++ [t]) Hts).
      * rewrite with_tags_twice, <- app_assoc. reflexivity.
      * cbn [tags with_tags]. now rewrite Htags, map_app.
      * now rewrite <- app_assoc.
    + rewrite Htags. apply includes_map_VStr.
      apply NoDup_remove_2 in Hnd. intros X. apply Hnd.
      apply in_or_app. now left.
Qed.

Lemma named_rows (u : string) (ts : list string) (rows : list val) :
  image_rows u ts rows -> flat_map named rows = combine ts rows.
Proof.
  destruct ts as [|t ts]; cbn [image_rows].
  - intros (row & -> & _ & Htn). cbn [flat_map]. unfold named. now rewrite Htn.
  - generalize (t :: ts). clear. intros ts HF.
    induction HF as [|t row ts rows [_ Htn] _ IH]; [reflexivity|].
    cbn [flat_map combine]. unfold named at 1. rewrite Htn, IH. reflexivity.
Qed.

Lemma image_run (u : string) (ts : list string) (rows : list val)
      (k : nat) (g : jsmap ImageItem) (d : jsmap TagDefinition) :
  u <> "" -> map_has (VStr u) g = false ->
  image_rows u ts rows -> Forall good ts -> NoDup ts ->
  exists img,
    for_each (flat_row clock random36) (combine (seq k (List.length rows)) rows)
      {| groupedImages := g; recoveredDefs := d |}
    = Ok {| groupedImages := g ++ [(VStr u, img)];
            recoveredDefs := fold_left note_def (flat_map named rows) d |}
    /\ url img = VStr u /\ tags img = map VStr ts.
Proof.
  intros Hu Hg Hrows Hgood Hnd. rewrite (named_rows u ts rows Hrows).
  destruct ts as [|t ts]; cbn [image_rows] in Hrows.
  - destruct Hrows as (row & -> & Hrow).
    exists (new_item clock random36 k row u). cbn [List.length seq combine for_each].
    rewrite (flat_row_untagged k row u g d Hrow Hu Hg). cbn [bind fold_left].
    repeat split; reflexivity.
  - inversion Hrows as [|? row ? rows' Hrow Hrest]; subst.
    inversion Hgood as [|? ? Ht Hts]; subst.
    exists (with_tags (new_item clock random36 k row u) (map VStr (t :: ts))).
    cbn [List.length seq combine for_each fold_left].
    rewrite (flat_row_first_tag k row u t g d Hrow Hu Ht Hg). cbn [bind].
    rewrite (rows_next u g Hu Hg ts rows' Hrest (S k) (note_def d (t, row))
               (with_tags (new_item clock random36 k row u) [VStr t]) [t] Hts eq_refl Hnd).
    repeat split; reflexivity.
Qed.

Lemma combine_seq_app {A : Type} (l1 l2 : list A) (k : nat) :
  combine (seq k (List.length (l1 ++ l2))) (l1 ++ l2)
  = combine (seq k (List.length l1)) l1
    ++ combine (seq (k + List.length l1) (List.length l2)) l2.
Proof.
  revert k. induction l1 as [|x l1 IH]; intros k; cbn [app List.length seq combine].
  - now rewrite Nat.add_0_r.
  - rewrite IH. now rewrite Nat.add_succ_r.
Qed.

Lemma session_run (groups : list group) :
  Forall group_ok groups ->
  NoDup (map (fun grp : group => fst (fst grp)) groups) ->
  forall k g d,
    Forall (fun grp : group => map_has (VStr (fst (fst grp))) g = false) groups ->
    exists imgs,
      for_each (flat_row clock random36)
        (combine (seq k (List.length (flat_map snd groups))) (flat_map snd groups))
        {| groupedImages := g; recoveredDefs := d |}
      = Ok {| groupedImages := g ++ combine (map (fun grp : group => VStr (fst (fst grp))) groups) imgs;
              recoveredDefs := fold_left note_def (flat_map named (flat_map snd groups)) d |}
      /\ Forall2 (fun (grp : group) img =>
                    url img = VStr (fst (fst grp))
                    /\ tags img = map VStr (snd (fst grp))) groups imgs.
Proof.
  induction groups as [|[[u ts] rows] groups IH]; intros Hok Hnd k g d Hfresh.
  - exists []. cbn. rewrite app_nil_r. split; [reflexivity|constructor].
  - inversion Hok as [|? ? Hgrp Hoks]; subst.
    cbn [group_ok] in Hgrp. destruct Hgrp as (Hu & Hrows & Hgood & Hts).
    inversion Hnd as [|? ? Hnotin Hnds]; subst.
    inversion Hfresh as [|? ? Hg Hfreshs]; subst. cbn [fst snd] in *.
    destruct (image_run u ts rows k g d Hu Hg Hrows Hgood Hts)
      as (img & Hrun & Himg).
    destruct (IH Hoks Hnds (k + List.length rows) (g ++ [(VStr u, img)])
                 (fold_left note_def (flat_map named rows) d)) as (imgs & Hruns & Himgs).
    { apply Forall_forall. intros grp Hin.
      rewrite map_has_app_other.
      - rewrite Forall_forall in Hfreshs. now apply Hfreshs.
      - cbn [strict_eq]. apply String.eqb_neq. intros ->. apply Hnotin.
        apply in_map_iff. now exists grp. }
    exists (img :: imgs). split.
    + cbn [flat_map snd]. rewrite combine_seq_app, ParserFacts.for_each_app.
      rewrite Hrun. cbn [bind]. rewrite Hruns.
      rewrite flat_map_app, fold_left_app, <- app_assoc. reflexivity.
    + constructor; [exact Himg|exact Himgs].
Qed.


(** *** [JSON.stringify] then [JSON.parse] on a record *)

Lemma clone_obj_cons (k : string) (x : val) (tl : list (string * val)) :
  json_clone (VObj ((k, x) :: tl))
  = match json_clone (VObj tl) with
    | VObj ctl => VObj (match x with
                        | VUndef => ctl
                        | _ => (k, json_clone x) :: ctl
                        end)
    | other => other
    end.
Proof. destruct x; reflexivity. Qed.

Lemma clone_obj (fs : list (string * val)) :
  exists cfs,
    json_clone (VObj fs) = VObj cfs
    /\ (forall k, ~ In k (map fst fs) -> lookup k cfs = VUndef)
    /\ (NoDup (map fst fs) -> forall k, lookup k cfs = json_clone (lookup k fs)).
Proof.
  induction fs as [|[k' x] tl (cfs & E & Habs & Hget)].
  - exists []. repeat split; reflexivity.
  - rewrite clone_obj_cons, E.
    eexists. split; [reflexivity|]. cbn [map fst]. split.
    + intros k Hk. assert (Hk' : (k' =? k) = false).
      { apply String.eqb_neq. intros ->. apply Hk. now left. }
      assert (Hkt : lookup k cfs = VUndef) by (apply Habs; intros X; apply Hk; now right).
      destruct x; cbn [lookup]; rewrite ?Hk'; exact Hkt.
    + intros Hnd k. inversion Hnd as [|? ? Hnotin Hnd']; subst.
      specialize (Hget Hnd'). cbn [lookup].
      destruct (k' =? k) eqn:Hk.
      * apply String.eqb_eq in Hk. subst k.
        destruct x; cbn [lookup]; rewrite ?String.eqb_refl; try reflexivity.
        now apply Habs.
      * destruct x; cbn [lookup]; rewrite ?Hk; apply Hget.
Qed.

Lemma prop_clone (fs : list (string * val)) (k : string) :
  NoDup (map fst fs) -> prop (json_clone (VObj fs)) k = json_clone (lookup k fs).
Proof.
  intros Hnd. destruct (clone_obj fs) as (cfs & -> & _ & Hget). now apply Hget.
Qed.

Lemma get_clone (fs : list (string * val)) (k : string) :
  NoDup (map fst fs) -> get (json_clone (VObj fs)) k = Ok (json_clone (lookup k fs)).
Proof.
  intros Hnd. rewrite <- (prop_clone fs k Hnd).
  destruct (clone_obj fs) as (cfs & -> & _). reflexivity.
Qed.

Lemma lookup_absent (k : string) (fs : list (string * val)) :
  existsb (fun kv => fst kv =? k) fs = false -> lookup k fs = VUndef.
Proof.
  induction fs as [|[k' x] tl IH]; cbn [existsb lookup fst]; [reflexivity|].
  destruct (k' =? k); [discriminate|exact IH].
Qed.

Lemma clone_undef (v : val) : json_clone v = VUndef -> v = VUndef.
Proof. destruct v; try discriminate; try reflexivity. Qed.

Lemma truthy_clone (v : val) : truthy (json_clone v) = truthy v.
Proof. destruct v; reflexivity. Qed.

Lemma has_key_clone (fs : list (string * val)) (k : string) :
  NoDup (map fst fs) -> lookup k fs <> VUndef ->
  has_key k (json_clone (VObj fs)) = Ok true.
Proof.
  intros Hnd Hk. destruct (clone_obj fs) as (cfs & -> & _ & Hget).
  cbn [has_key]. f_equal. apply not_false_is_true. intros X.
  apply lookup_absent in X. rewrite (Hget Hnd) in X.
  apply clone_undef in X. contradiction.
Qed.

(** [x || ""] is kept by serialization and by a second [|| ""]. *)
Lemma or_else_clone (x : val) :
  or_else (json_clone (or_else x (VStr ""))) (VStr "") = json_clone (or_else x (VStr "")).
Proof.
  unfold or_else at 1. rewrite truthy_clone. unfold or_else.
  destruct (truthy x) eqn:E; [now rewrite E|reflexivity].
Qed.

Lemma clone_records (l : list val) :
  Forall flat_record l ->
  json_clone (VArr l) = VArr (map json_clone l).
Proof.
  intros HF. cbn [json_clone]. f_equal. apply map_ext_in. intros r Hr.
  rewrite Forall_forall in HF. destruct (HF r Hr) as (fs & -> & _). reflexivity.
Qed.

Lemma Forall2_In_l {A B : Type} (R : A -> B -> Prop) (l1 : list A) (l2 : list B)
      (x : A) :
  Forall2 R l1 l2 -> In x l1 -> exists y, In y l2 /\ R x y.
Proof.
  induction 1 as [|a b l1 l2 Hab _ IH]; intros Hin; [contradiction|].
  destruct Hin as [<-|Hin].
  - exists b. split; [now left|assumption].
  - destruct (IH Hin) as (y & Hy & Hr). exists y. split; [now right|assumption].
Qed.

Lemma import_of_records (records : ImageItem -> list val)
      (images : list ImageItem) (shape : list (string * list string)) :
  images <> [] ->
  Forall2 image_ok images shape ->
  NoDup (map fst shape) ->
  (forall img ut,
      image_ok img ut ->
      Forall flat_record (records img)
      /\ image_rows (fst ut) (snd ut) (map json_clone (records img))) ->
  exists imgs,
    import_session clock random36 (json_clone (VArr (flat_map records images)))
    = Ok (Imported imgs (recovered (map json_clone (flat_map records images))))
    /\ map url imgs = map url images
    /\ map tags imgs = map tags images.
Proof.
  intros Hne Hshape Hnd Hrec.
  assert (Hflat : Forall flat_record (flat_map records images)).
  { apply Forall_flat_map. apply Forall_forall. intros img Hin.
    destruct (Forall2_In_l _ _ _ _ Hshape Hin) as (ut & _ & Hok).
    now destruct (Hrec img ut Hok). }
  rewrite (clone_records _ Hflat).
  set (groups := map (fun p : ImageItem * (string * list string) =>
                        (fst (snd p), snd (snd p), map json_clone (records (fst p))))
                     (combine images shape) : list group).
  assert (Hlen : List.length images = List.length shape)
    by (eapply Forall2_length; eassumption).
  assert (Hrows : flat_map snd groups = map json_clone (flat_map records images)).
  { unfold groups. clear -Hlen. revert shape Hlen.
    induction images as [|img images IH]; intros [|ut shape] Hlen;
      try discriminate; [reflexivity|].
    cbn [combine map flat_map fst snd]. rewrite map_app, IH; [reflexivity|].
    now injection Hlen. }
  assert (Hurls : map (fun grp : group => fst (fst grp)) groups = map fst shape).
  { unfold groups. clear -Hlen. revert shape Hlen.
    induction images as [|img images IH]; intros [|ut shape] Hlen;
      try discriminate; [reflexivity|].
    cbn [combine map fst snd]. rewrite IH; [reflexivity|]. now injection Hlen. }
  assert (Hok : Forall group_ok groups).
  { unfold groups. clear -Hshape Hrec.
    induction Hshape as [|img ut images shape Hi _ IH]; [constructor|].
    cbn [combine map fst snd]. constructor; [|exact IH].
    destruct (Hrec img ut Hi) as [_ Hr]. destruct Hi as (_ & _ & Hu & Hg & Hn).
    cbn [group_ok]. auto. }
  destruct (session_run groups Hok) with (k := 0) (g := @nil (val * ImageItem))
                                        (d := @nil (val * TagDefinition))
    as (imgs & Hrun & Himgs).
  { now rewrite Hurls. }
  { apply Forall_forall. intros grp _. reflexivity. }
  rewrite Hrows in Hrun. cbn [app] in Hrun.
  assert (Hfirst : exists first rest,
             map json_clone (flat_map records images) = first :: rest
             /\ has_key "tag name" first = Ok true).
  { destruct images as [|img images]; [contradiction|].
    inversion Hshape as [|? ut ? ? Hi _]; subst.
    destruct (Hrec img ut Hi) as [Hfr Hir]. cbn [flat_map]. rewrite map_app.
    destruct (records img) as [|r rs].
    - exfalso. unfold image_rows in Hir. cbn [map] in Hir.
      destruct (snd ut); [now destruct Hir as (row & X & _)|inversion Hir].
    - cbn [map app]. eexists. eexists. split; [reflexivity|].
      inversion Hfr as [|? ? (fs & -> & Hn & Ht) _]; subst.
      now apply has_key_clone. }
  destruct Hfirst as (first & rest & Efirst & Hkey).
  exists imgs. unfold import_session. rewrite Efirst, Hkey. cbn [bind].
  unfold import_flat, indexed. rewrite <- Efirst, Hrun. cbn [bind groupedImages recoveredDefs].
  assert (Hvals : map_values
                    (combine (map (fun grp : group => VStr (fst (fst grp))) groups) imgs)
                  = imgs).
  { unfold map_values. clear -Himgs.
    induction Himgs as [|grp img groups imgs _ _ IH]; [reflexivity|].
    cbn [map combine snd]. now rewrite IH. }
  rewrite Hvals. split; [reflexivity|].
  assert (Hpairs : Forall2 (fun img' img => url img' = url img /\ tags img' = tags img)
                           imgs images).
  { unfold groups in Himgs. clear -Himgs Hshape.
    revert imgs Himgs.
    induction Hshape as [|img ut images shape (Hu & Ht & _) _ IH];
      intros imgs Himgs; cbn [combine map] in Himgs.
    - inversion Himgs. constructor.
    - inversion Himgs as [|? img' ? imgs' (Hu' & Ht') Hrest]; subst.
      cbn [fst snd] in Hu', Ht'. constructor; [|now apply IH].
      now rewrite Hu, Ht. }
  clear -Hpairs. induction Hpairs as [|img' img imgs images (Hu & Ht) _ (IHu & IHt)];
    [split; reflexivity|].
  cbn [map]. now rewrite Hu, Ht, IHu, IHt.
Qed.


End Rows.

(** *** The records of the two exporters *)

Ltac keys_differ :=
  repeat (constructor; [cbn [In]; intuition discriminate|]); constructor.

Lemma record_named (fs : list (string * val)) (u t : string) :
  NoDup (map fst fs) ->
  lookup "image_url" fs = VStr u ->
  lookup "tag name" fs = VStr t ->
  lookup "tag_name" fs = VUndef ->
  t <> "" ->
  is_record u (VStr t) (json_clone (VObj fs)).
Proof.
  intros Hnd Hu Ht Hn Hne. split.
  - rewrite (get_clone fs _ Hnd), Hu. reflexivity.
  - unfold tag_name. rewrite !(prop_clone fs _ Hnd), Ht, Hn.
    cbn [json_clone]. unfold or_else. now rewrite (truthy_str t Hne).
Qed.

Lemma record_blank (fs : list (string * val)) (u : string) :
  NoDup (map fst fs) ->
  lookup "image_url" fs = VStr u ->
  lookup "tag name" fs = VStr "" ->
  lookup "tag_name" fs = VUndef ->
  is_record u VUndef (json_clone (VObj fs)).
Proof.
  intros Hnd Hu Ht Hn. split.
  - rewrite (get_clone fs _ Hnd), Hu. reflexivity.
  - unfold tag_name. rewrite !(prop_clone fs _ Hnd), Ht, Hn. reflexivity.
Qed.

Lemma good_nonempty (t : string) : good t -> t <> "".
Proof. intros H ->. now apply H. Qed.

Lemma tagged_rows (record : val -> val) (u : string) (ts : list string) :
  (forall t, good t -> is_record u (VStr t) (json_clone (record (VStr t)))) ->
  Forall good ts ->
  Forall2 (fun t row => is_record u (VStr t) row) ts
          (map json_clone (map record (map VStr ts))).
Proof.
  intros Hrec. induction 1 as [|t ts Hg _ IH]; [constructor|].
  cbn [map]. constructor; [now apply Hrec|exact IH].
Qed.

Lemma part000_exporter_ok (tagDefs : list TagDefinition) :
  exporter_ok (Notions.part000_records tagDefs).
Proof.
  split.
  - intros img [u ts] (Hu & Ht & _ & Hgood & _). cbn [fst snd] in *.
    destruct ts as [|t ts].
    + unfold Notions.part000_records. rewrite Ht. cbn [map]. split.
      * constructor; [|constructor]. eexists. split; [reflexivity|].
        split; [keys_differ|discriminate].
      * exists (json_clone (Part000.untagged_record img)). split; [reflexivity|].
        apply record_blank; [keys_differ|exact Hu|reflexivity|reflexivity].
    + assert (E : Notions.part000_records tagDefs img
                  = map (Part000.tag_record tagDefs img) (map VStr (t :: ts))).
      { unfold Notions.part000_records. rewrite Ht. reflexivity. }
      rewrite E. cbn [image_rows]. split.
      * apply Forall_map, Forall_map, Forall_forall. intros t' _.
        eexists. split; [reflexivity|]. split; [keys_differ|discriminate].
      * apply tagged_rows; [|exact Hgood]. intros t' Hg.
        apply record_named; [keys_differ|exact Hu|reflexivity|reflexivity|].
        now apply good_nonempty.
  - intros img r Hin. unfold Notions.part000_records in Hin.
    assert (Hr : exists x y fs,
               r = VObj fs /\ NoDup (map fst fs)
               /\ lookup "title1" fs = or_else x (VStr "")
               /\ lookup "title2" fs = or_else y (VStr "")).
    { destruct (tags img) as [|t ts].
      - destruct Hin as [<-|[]]. exists (VStr ""), (VStr ""). eexists.
        split; [reflexivity|]. split; [keys_differ|]. split; reflexivity.
      - apply in_map_iff in Hin. destruct Hin as (t' & <- & _).
        unfold Part000.tag_record, Part000.def_field. eexists. eexists. eexists.
        split; [reflexivity|]. split; [keys_differ|]. split; reflexivity. }
    destruct Hr as (x & y & fs & -> & Hnd & H1 & H2).
    rewrite !(prop_clone fs _ Hnd), H1, H2. split; apply or_else_clone.
Qed.

Lemma app_exporter_ok (tagDefs : list TagDefinition) :
  exporter_ok (Notions.app_records tagDefs).
Proof.
  split.
  - intros img [u ts] (Hu & Ht & _ & Hgood & _). cbn [fst snd] in *.
    destruct ts as [|t ts].
    + unfold Notions.app_records. rewrite Ht. cbn [map]. split.
      * constructor; [|constructor]. eexists. split; [reflexivity|].
        split; [keys_differ|discriminate].
      * exists (json_clone (AppTsx.untagged_record img)). split; [reflexivity|].
        apply record_blank; [keys_differ|exact Hu|reflexivity|reflexivity].
    + assert (E : Notions.app_records tagDefs img
                  = map (AppTsx.tag_record (AppTsx.tagLookup tagDefs) img) (map VStr (t :: ts))).
      { unfold Notions.app_records. rewrite Ht. reflexivity. }
      rewrite E. cbn [image_rows]. split.
      * apply Forall_map, Forall_map, Forall_forall. intros t' _.
        eexists. split; [reflexivity|]. split; [keys_differ|discriminate].
      * apply tagged_rows; [|exact Hgood]. intros t' Hg.
        apply record_named; [keys_differ|exact Hu|reflexivity|reflexivity|].
        now apply good_nonempty.
  - intros img r Hin. unfold Notions.app_records in Hin.
    assert (Hr : exists x y fs,
               r = VObj fs /\ NoDup (map fst fs)
               /\ lookup "title1" fs = or_else x (VStr "")
               /\ lookup "title2" fs = or_else y (VStr "")).
    { destruct (tags img) as [|t ts].
      - destruct Hin as [<-|[]]. exists (VStr ""), (VStr ""). eexists.
        split; [reflexivity|]. split; [keys_differ|]. split; reflexivity.
      - apply in_map_iff in Hin. destruct Hin as (t' & <- & _).
        unfold AppTsx.tag_record, AppTsx.def_field. cbv zeta. eexists. eexists. eexists.
        split; [reflexivity|]. split; [keys_differ|]. split; reflexivity. }
    destruct Hr as (x & y & fs & -> & Hnd & H1 & H2).
    rewrite !(prop_clone fs _ Hnd), H1, H2. split; apply or_else_clone.
Qed.


Lemma exporters (export : list ImageItem -> list TagDefinition -> list val)
      (tagDefs : list TagDefinition) :
  export = Part000.handleExport \/ export = AppTsx.handleExport ->
  exists records,
    exporter_ok records
    /\ forall images, export images tagDefs = flat_map records images.
Proof.
  intros [-> | ->].
  - exists (Notions.part000_records tagDefs).
    split; [apply part000_exporter_ok|]. intros. apply ExportFacts.export_part000.
  - exists (Notions.app_records tagDefs).
    split; [apply app_exporter_ok|]. intros. apply ExportFacts.export_app.
Qed.

Lemma recovered_two (a b : string) (ra rb : val) (before between after : list val) :
  a <> b ->
  tag_name ra = VStr a -> tag_name rb = VStr b ->
  Forall (fun r => tag_name r = VUndef) (before ++ between ++ after) ->
  recovered (before ++ ra :: between ++ rb :: after)
  = [recovered_def ra a; recovered_def rb b].
Proof.
  intros Hab Ha Hb Hblank.
  assert (Hnone : forall l, Forall (fun r => tag_name r = VUndef) l ->
                            flat_map named l = []).
  { induction 1 as [|r l Hr _ IH]; [reflexivity|].
    cbn [flat_map]. unfold named at 1. now rewrite Hr, IH. }
  apply Forall_app in Hblank. destruct Hblank as [H1 Hblank].
  apply Forall_app in Hblank. destruct Hblank as [H2 H3].
  unfold recovered.
  rewrite flat_map_app. cbn [flat_map]. rewrite flat_map_app. cbn [flat_map].
  rewrite (Hnone _ H1), (Hnone _ H2), (Hnone _ H3).
  unfold named. rewrite Ha, Hb. cbn [app fold_left].
  unfold note_def at 2. cbn [fst snd map_has map_get map_set].
  unfold note_def. cbn [fst snd map_has map_get map_set strict_eq].
  apply String.eqb_neq in Hab. rewrite Hab.
  unfold map_has. cbn [map_get strict_eq]. rewrite Hab. reflexivity.
Qed.

End RoundTrip.

(** C1, as stated, fails.  Two images that share a url come back as one
    image, and a tag made of white space does not come back. *)
Lemma C1_round_trip_can_merge_or_drop :
  let img (i u : string) (ts : list JS.val) :=
    {| Pipeline.id := i; Pipeline.url := JS.VStr u; Pipeline.filename := "a.jpg";
       Pipeline.tags := ts; Pipeline.hotelId := JS.VNum 7;
       Pipeline.hotelName := JS.VStr "H"; Pipeline.originalImageId := JS.VUndef |} in
  let same_url :=
    [img "img-1" "http://x/a.jpg" [JS.VStr "A"; JS.VStr "B"];
     img "img-2" "http://x/a.jpg" []] in
  let blank_tag :=
    [img "img-1" "http://x/a.jpg" [JS.VStr "A"; JS.VStr " "];
     img "img-2" "http://x/b.jpg" []] in
  (forall export,
      In export [Part000.handleExport; AppTsx.handleExport] ->
      exists images defs,
        Spec.export_then_import Sample.clock Sample.random36 export same_url []
        = JS.Ok (Pipeline.Imported images defs)
        /\ List.length images = 1)
  /\ (forall export,
         In export [Part000.handleExport; AppTsx.handleExport] ->
         exists images defs,
           Spec.export_then_import Sample.clock Sample.random36 export blank_tag []
           = JS.Ok (Pipeline.Imported images defs)
           /\ map Pipeline.tags images = [[JS.VStr "A"]; []]).
Proof.
  cbv zeta. split; intros export [<-|[<-|[]]]; eexists; eexists;
    (split; [vm_compute; reflexivity|reflexivity]).
Qed.

(** C1, amended.  For a session of one image with two tags and one
    image without tags, in either order, whose urls are non-empty and
    different and whose two tags are different strings that are not
    blank, exporting (with either exporter) and importing the record
    array gives two images with the urls and tag lists of the session,
    in its order, and two tag definitions, for the two tags in their
    order, each with the [title1] and [title2] of the record that names
    the tag. *)
Theorem C1_round_trip
        (clock : nat -> Z) (random36 : nat -> string)
        (export : list Pipeline.ImageItem -> list Pipeline.TagDefinition -> list JS.val)
        (session : list Pipeline.ImageItem) (img1 img2 : Pipeline.ImageItem)
        (tagDefs : list Pipeline.TagDefinition) (a b u1 u2 : string) :
  export = Part000.handleExport \/ export = AppTsx.handleExport ->
  session = [img1; img2] \/ session = [img2; img1] ->
  Pipeline.url img1 = JS.VStr u1 -> Pipeline.tags img1 = [JS.VStr a; JS.VStr b] ->
  Pipeline.url img2 = JS.VStr u2 -> Pipeline.tags img2 = [] ->
  u1 <> "" -> u2 <> "" -> u1 <> u2 ->
  a <> b -> Str.trim a <> "" -> Str.trim b <> "" ->
  exists images defs ra rb,
    Spec.export_then_import clock random36 export session tagDefs
    = JS.Ok (Pipeline.Imported images defs)
    /\ map Pipeline.url images = map Pipeline.url session
    /\ map Pipeline.tags images = map Pipeline.tags session
    /\ In ra (map JS.json_clone (export session tagDefs))
    /\ In rb (map JS.json_clone (export session tagDefs))
    /\ Spec.tag_name ra = JS.VStr a
    /\ Spec.tag_name rb = JS.VStr b
    /\ defs = [{| Pipeline.tag := JS.VStr a;
                  Pipeline.title1 := JS.prop ra "title1";
                  Pipeline.title2 := JS.prop ra "title2";
                  Pipeline.content := JS.or_else (JS.prop ra "content") (JS.VStr "") |};
               {| Pipeline.tag := JS.VStr b;
                  Pipeline.title1 := JS.prop rb "title1";
                  Pipeline.title2 := JS.prop rb "title2";
                  Pipeline.content := JS.or_else (JS.prop rb "content") (JS.VStr "") |}].
Proof.
  intros Hexport Hsession Hu1 Ht1 Hu2 Ht2 Hne1 Hne2 Hu Hab Ha Hb.
  destruct (RoundTrip.exporters export tagDefs Hexport) as (records & [Hrows Htitles] & Eexp).
  assert (Hok1 : Notions.image_ok img1 (u1, [a; b])).
  { repeat split; trivial.
    - repeat constructor; assumption.
    - repeat constructor; cbn [In]; intuition. }
  assert (Hok2 : Notions.image_ok img2 (u2, [])).
  { repeat split; trivial; constructor. }
  destruct (Hrows img1 _ Hok1) as [_ Hr1]. destruct (Hrows img2 _ Hok2) as [_ Hr2].
  cbn [fst snd Notions.image_rows] in Hr1, Hr2.
  destruct Hr2 as (r0 & E2 & _ & Hr0).
  destruct (records img1) as [|x1 [|x2 [|x3 xs]]] eqn:E1;
    try (exfalso; cbn [map] in Hr1; inversion Hr1 as [|? ? ? ? ? Hr1']; subst;
         inversion Hr1' as [|? ? ? ? ? Hr1'']; subst; inversion Hr1''; fail).
  cbn [map] in Hr1.
  inversion Hr1 as [|? ? ? ? [_ Hta] Hr1']; subst.
  inversion Hr1' as [|? ? ? ? [_ Htb] _]; subst.
  assert (Hin1 : In x1 (records img1)) by (rewrite E1; now left).
  assert (Hin2 : In x2 (records img1)) by (rewrite E1; right; now left).
  destruct (Htitles img1 x1 Hin1) as [Ta1 Ta2].
  destruct (Htitles img1 x2 Hin2) as [Tb1 Tb2].
  assert (Hdefs : forall rows before between after,
             rows = before ++ JS.json_clone x1 :: between ++ JS.json_clone x2 :: after ->
             Forall (fun r => Spec.tag_name r = JS.VUndef) (before ++ between ++ after) ->
             Notions.recovered rows
             = [{| Pipeline.tag := JS.VStr a;
                   Pipeline.title1 := JS.prop (JS.json_clone x1) "title1";
                   Pipeline.title2 := JS.prop (JS.json_clone x1) "title2";
                   Pipeline.content :=
                     JS.or_else (JS.prop (JS.json_clone x1) "content") (JS.VStr "") |};
                {| Pipeline.tag := JS.VStr b;
                   Pipeline.title1 := JS.prop (JS.json_clone x2) "title1";
                   Pipeline.title2 := JS.prop (JS.json_clone x2) "title2";
                   Pipeline.content :=
                     JS.or_else (JS.prop (JS.json_clone x2) "content") (JS.VStr "") |}]).
  { intros rows before between after -> Hblank.
    rewrite (RoundTrip.recovered_two a b _ _ before between after Hab Hta Htb Hblank).
    unfold Notions.recovered_def. now rewrite Ta1, Ta2, Tb1, Tb2. }
  unfold Spec.export_then_import. rewrite Eexp.
  destruct Hsession as [-> | ->].
  - destruct (RoundTrip.import_of_records clock random36 records [img1; img2]
                [(u1, [a; b]); (u2, [])]) as (imgs & Himp & Hurls & Htags).
    { discriminate. }
    { constructor; [exact Hok1|constructor; [exact Hok2|constructor]]. }
    { cbn [map fst]. repeat constructor; cbn [In]; intuition. }
    { exact Hrows. }
    exists imgs. eexists. exists (JS.json_clone x1), (JS.json_clone x2).
    split; [exact Himp|]. split; [exact Hurls|]. split; [exact Htags|].
    cbn [flat_map]. rewrite app_nil_r, map_app, E1, E2. cbn [map app In].
    repeat split; auto.
    apply (Hdefs _ [] [] [r0]); [reflexivity|]. repeat constructor. exact Hr0.
  - destruct (RoundTrip.import_of_records clock random36 records [img2; img1]
                [(u2, []); (u1, [a; b])]) as (imgs & Himp & Hurls & Htags).
    { discriminate. }
    { constructor; [exact Hok2|constructor; [exact Hok1|constructor]]. }
    { cbn [map fst]. repeat constructor; cbn [In]; intuition. }
    { exact Hrows. }
    exists imgs. eexists. exists (JS.json_clone x1), (JS.json_clone x2).
    split; [exact Himp|]. split; [exact Hurls|]. split; [exact Htags|].
    cbn [flat_map]. rewrite app_nil_r, map_app, E1, E2. cbn [map app In].
    repeat split; auto.
    apply (Hdefs _ [r0] [] []); [reflexivity|]. repeat constructor. exact Hr0.
Qed.

(** The amended C1 at a session with the tags [A], [B] on one image. *)
Lemma C1_round_trip_witness :
  let img1 :=
    {| Pipeline.id := "img-1"; Pipeline.url := JS.VStr "http://x/a.jpg";
       Pipeline.filename := "a.jpg"; Pipeline.tags := [JS.VStr "A"; JS.VStr "B"];
       Pipeline.hotelId := JS.VNum 7; Pipeline.hotelName := JS.VStr "H";
       Pipeline.originalImageId := JS.VNum 11 |} in
  let img2 :=
    {| Pipeline.id := "img-2"; Pipeline.url := JS.VStr "http://x/b.jpg";
       Pipeline.filename := "b.jpg"; Pipeline.tags := [];
       Pipeline.hotelId := JS.VNum 7; Pipeline.hotelName := JS.VStr "H";
       Pipeline.originalImageId := JS.VUndef |} in
  let tagDefs :=
    [{| Pipeline.tag := JS.VStr "A"; Pipeline.title1 := JS.VStr "T1";
        Pipeline.title2 := JS.VStr "T2"; Pipeline.content := JS.VStr "about A" |};
     {| Pipeline.tag := JS.VStr "B"; Pipeline.title1 := JS.VStr "U1";
        Pipeline.title2 := JS.VStr "U2"; Pipeline.content := JS.VUndef |}] in
  exists images defs ra rb,
    Spec.export_then_import Sample.clock Sample.random36 Part000.handleExport
      [img1; img2] tagDefs
    = JS.Ok (Pipeline.Imported images defs)
    /\ map Pipeline.url images = map Pipeline.url [img1; img2]
    /\ map Pipeline.tags images = map Pipeline.tags [img1; img2]
    /\ In ra (map JS.json_clone (Part000.handleExport [img1; img2] tagDefs))
    /\ In rb (map JS.json_clone (Part000.handleExport [img1; img2] tagDefs))
    /\ Spec.tag_name ra = JS.VStr "A"
    /\ Spec.tag_name rb = JS.VStr "B"
    /\ defs = [{| Pipeline.tag := JS.VStr "A";
                  Pipeline.title1 := JS.prop ra "title1";
                  Pipeline.title2 := JS.prop ra "title2";
                  Pipeline.content := JS.or_else (JS.prop ra "content") (JS.VStr "") |};
               {| Pipeline.tag := JS.VStr "B";
                  Pipeline.title1 := JS.prop rb "title1";
                  Pipeline.title2 := JS.prop rb "title2";
                  Pipeline.content := JS.or_else (JS.prop rb "content") (JS.VStr "") |}].
Proof.
  intros img1 img2 tagDefs.
  apply (C1_round_trip Sample.clock Sample.random36 Part000.handleExport
           [img1; img2] img1 img2 tagDefs "A" "B" "http://x/a.jpg" "http://x/b.jpg");
    try reflexivity; try discriminate; try (vm_compute; discriminate);
    left; reflexivity.
Defined.

(** * Further properties of the handlers *)

(** ** Loops that may throw *)

Module LoopFacts.
Import JS.

Lemma for_each_ext {A S : Type} (f g : A -> S -> res S) (l : list A) (st : S) :
  (forall x s, f x s = g x s) -> for_each f l st = for_each g l st.
Proof.
  intros H. revert st. induction l as [|x l IH]; intros st; cbn [for_each];
    [reflexivity|]. rewrite H. destruct (g x st); cbn [bind]; [apply IH|reflexivity].
Qed.


(** A loop throws when one of its elements throws in every state the
    loop can be in. *)
Lemma for_each_throws {A S : Type} (Q : S -> Prop) (f : A -> S -> res S)
      (l : list A) (x : A) :
  (forall y st st', Q st -> f y st = Ok st' -> Q st') ->
  (forall st, Q st -> f x st = Throw) ->
  In x l ->
  forall st, Q st -> for_each f l st = Throw.
Proof.
  intros Hstep Hx. induction l as [|y l IH]; intros Hin st HQ; [contradiction|].
  cbn [for_each]. destruct Hin as [->|Hin].
  - now rewrite (Hx st HQ).
  - destruct (f y st) as [st1|] eqn:E; [|reflexivity]. cbn [bind].
    apply IH; [exact Hin|]. eapply Hstep; eassumption.
Qed.


Lemma filter_res_all {A : Type} (f : A -> res bool) (l : list A) :
  (forall x, In x l -> f x = Ok true) -> filter_res f l = Ok l.
Proof.
  induction l as [|x l IH]; intros H; cbn [filter_res]; [reflexivity|].
  rewrite (H x) by now left. cbn [bind]. rewrite IH; [reflexivity|].
  intros y Hy. apply H. now right.
Qed.


Lemma filter_res_throw {A : Type} (f : A -> res bool) (l : list A) (x : A) :
  In x l -> f x = Throw -> filter_res f l = Throw.
Proof.
  induction l as [|y l IH]; intros Hin Hx; [contradiction|].
  cbn [filter_res]. destruct Hin as [->|Hin].
  - now rewrite Hx.
  - destruct (f y); [|reflexivity]. cbn [bind]. now rewrite (IH Hin Hx).
Qed.

Lemma filter_none {A : Type} (p : A -> bool) (l : list A) :
  (forall x, In x l -> p x = false) <-> filter p l = [].
Proof.
  induction l as [|a l IH]; cbn [filter].
  - split; [reflexivity|intros _ x []].
  - destruct (p a) eqn:Pa.
    + split; [|discriminate]. intros H. rewrite (H a) in Pa by now left. discriminate.
    + rewrite <- IH. split.
      * intros H x Hx. apply H. now right.
      * intros H x [<-|Hx]; auto.
Qed.


Lemma map_indexed {A B : Type} (f : nat * A -> B) (g : A -> B) (l : list A) :
  (forall i x, f (i, x) = g x) -> map f (Pipeline.indexed l) = map g l.
Proof.
  intros H. unfold Pipeline.indexed. generalize 0 as start.
  induction l as [|x l IH]; intros start; cbn [List.length seq combine map];
    [reflexivity|]. now rewrite H, IH.
Qed.

Lemma findIndex_none {A : Type} (p : A -> bool) (l : list A) :
  findIndex p l = None <-> forall x, In x l -> p x = false.
Proof.
  induction l as [|a l IH]; cbn [findIndex].
  - split; [intros _ x []|reflexivity].
  - destruct (p a) eqn:Pa.
    + split; [discriminate|]. intros H. rewrite (H a) in Pa by now left. discriminate.
    + destruct (findIndex p l) as [i|]; cbn [option_map].
      * split; [discriminate|]. intros H. exfalso.
        assert (X : Some i = None); [|discriminate].
        apply IH. intros x Hx. apply H. now right.
      * split; [|reflexivity]. intros _ x [<-|Hx]; [exact Pa|].
        now apply (proj1 IH).
Qed.

Lemma findIndex_some {A : Type} (p : A -> bool) (l : list A) (i : nat) :
  findIndex p l = Some i <->
  (exists x, nth_error l i = Some x /\ p x = true)
  /\ forall j y, j < i -> nth_error l j = Some y -> p y = false.
Proof.
  revert i. induction l as [|a l IH]; intros i; cbn [findIndex].
  - split; [discriminate|]. intros [(x & H & _) _]. now destruct i.
  - destruct (p a) eqn:Pa.
    + split.
      * intros [= <-]. split; [exists a; auto|]. intros j y Hj. lia.
      * intros [(x & Hx & Px) Hlt]. destruct i as [|i]; [reflexivity|].
        rewrite (Hlt 0 a) in Pa; [discriminate|lia|reflexivity].
    + destruct i as [|i].
      * split.
        -- destruct (findIndex p l); discriminate.
        -- intros [(x & [= <-] & Px) _]. congruence.
      * pose proof (findIndex_none p l) as Hnone.
        destruct (findIndex p l) as [k|]; cbn [option_map].
        -- split.
           ++ intros [= <-]. destruct (proj1 (IH k) eq_refl) as [Hx Hlt].
              split; [exact Hx|]. intros [|j] y Hj; cbn [nth_error].
              ** now intros [= <-].
              ** apply Hlt. lia.
           ++ intros [Hx Hlt]. f_equal.
              assert (X : Some k = Some i); [|congruence].
              apply IH. split; [exact Hx|].
              intros j y Hj Hy. apply (Hlt (S j) y); [lia|exact Hy].
        -- split; [discriminate|]. intros [(x & Hx & Px) _].
           rewrite (proj1 Hnone eq_refl x) in Px; [discriminate|].
           eapply nth_error_In. exact Hx.
Qed.

End LoopFacts.

(** ** Toggling again *)

Module SessionFacts.
Import JS Pipeline Spec Notions JSFacts.

Lemma filter_absent (x : val) (l : list val) :
  includes x l = false -> filter (fun t => negb (strict_eq t x)) l = l.
Proof.
  unfold includes. induction l as [|y l IH]; cbn [existsb filter]; [reflexivity|].
  intros H. apply orb_false_iff in H. destruct H as [Hy Hl].
  rewrite (strict_eq_sym y), Hy. cbn [negb]. now rewrite IH.
Qed.

Lemma filter_gone (x : val) (l : list val) :
  includes x (filter (fun t => negb (strict_eq t x)) l) = false.
Proof.
  unfold includes. induction l as [|y l IH]; cbn [existsb filter]; [reflexivity|].
  destruct (strict_eq y x) eqn:E; cbn [negb]; [exact IH|].
  cbn [existsb]. now rewrite (strict_eq_sym x), E, IH.
Qed.

Lemma includes_last (s : string) (l : list val) :
  includes (VStr s) (l ++ [VStr s]) = true.
Proof.
  rewrite includes_app. unfold includes at 2. cbn [existsb strict_eq].
  rewrite String.eqb_refl. apply orb_true_r.
Qed.

Lemma filter_last (s : string) (l : list val) :
  filter (fun t => negb (strict_eq t (VStr s))) (l ++ [VStr s])
  = filter (fun t => negb (strict_eq t (VStr s))) l.
Proof.
  rewrite filter_app. cbn [filter strict_eq]. rewrite String.eqb_refl.
  cbn [negb]. apply app_nil_r.
Qed.

Lemma toggle_map (imageId tag : string) (prev : list ImageItem) :
  handleToggleTag imageId tag prev = map (toggled imageId tag) prev.
Proof. reflexivity. Qed.

Lemma toggled_id (imageId tag : string) (img : ImageItem) :
  id (toggled imageId tag img) = id img.
Proof. unfold toggled. now destruct (id img =? imageId). Qed.

Lemma toggled_other (imageId tag : string) (img : ImageItem) :
  (id img =? imageId) = false -> toggled imageId tag img = img.
Proof. intros E. unfold toggled. now rewrite E. Qed.

Lemma toggled_twice_absent (imageId tag : string) (img : ImageItem) :
  includes (VStr tag) (tags img) = false ->
  toggled imageId tag (toggled imageId tag img) = img.
Proof.
  intros Habs. unfold toggled at 1. rewrite toggled_id.
  unfold toggled. destruct (id img =? imageId) eqn:E; [|reflexivity].
  rewrite Habs. cbn [tags with_tags].
  rewrite includes_last, filter_last, (filter_absent _ _ Habs).
  rewrite RoundTrip.with_tags_twice. apply RoundTrip.with_tags_same.
Qed.

Lemma toggled_absent_after (imageId tag : string) (img : ImageItem) :
  includes (VStr tag) (tags img) = true ->
  id img = imageId ->
  includes (VStr tag) (tags (toggled imageId tag img)) = false.
Proof.
  intros Hin <-. unfold toggled. rewrite String.eqb_refl, Hin.
  cbn [tags with_tags]. apply filter_gone.
Qed.

Lemma toggled_thrice (imageId tag : string) (img : ImageItem) :
  toggled imageId tag (toggled imageId tag (toggled imageId tag img))
  = toggled imageId tag img.
Proof.
  destruct (id img =? imageId) eqn:E.
  - apply String.eqb_eq in E.
    destruct (includes (VStr tag) (tags img)) eqn:Hin.
    + apply toggled_twice_absent. now apply toggled_absent_after.
    + now rewrite (toggled_twice_absent _ _ _ Hin).
  - now rewrite !(toggled_other _ _ _ E).
Qed.

End SessionFacts.

(** X1.  Toggling the same tag on the same image id three times has
    the effect of toggling it once: whatever the session holds, the
    second and third toggle cancel. *)
Theorem toggle_thrice_is_toggle (imageId tag : string) (prev : list Pipeline.ImageItem) :
  Pipeline.handleToggleTag imageId tag
    (Pipeline.handleToggleTag imageId tag (Pipeline.handleToggleTag imageId tag prev))
  = Pipeline.handleToggleTag imageId tag prev.
Proof.
  rewrite !SessionFacts.toggle_map, !map_map. apply map_ext.
  intros img. apply SessionFacts.toggled_thrice.
Qed.

(** X2.  Toggling a tag on and off again restores the session: when no
    image with the id [imageId] carries [tag], two toggles of [tag] on
    [imageId] give back the session they started from. *)
Theorem toggle_twice_restores (imageId tag : string) (prev : list Pipeline.ImageItem) :
  (forall img, In img prev -> Pipeline.id img = imageId ->
               ~ In (JS.VStr tag) (Pipeline.tags img)) ->
  Pipeline.handleToggleTag imageId tag (Pipeline.handleToggleTag imageId tag prev) = prev.
Proof.
  intros Habs. rewrite !SessionFacts.toggle_map, map_map.
  rewrite <- (map_id prev) at 2. apply map_ext_in. intros img Hin.
  destruct (Pipeline.id img =? imageId) eqn:E.
  - apply SessionFacts.toggled_twice_absent.
    destruct (JS.includes (JS.VStr tag) (Pipeline.tags img)) eqn:Hi; [|reflexivity].
    apply JSFacts.includes_str in Hi. apply String.eqb_eq in E.
    now destruct (Habs img Hin E).
  - now rewrite !(SessionFacts.toggled_other _ _ _ E).
Qed.

(** X2 at an image with the tags [A], [C] on which [B] is toggled twice. *)
Lemma toggle_twice_restores_witness :
  let img :=
    {| Pipeline.id := "img-1"; Pipeline.url := JS.VStr "http://x/a.jpg";
       Pipeline.filename := "a.jpg"; Pipeline.tags := [JS.VStr "A"; JS.VStr "C"];
       Pipeline.hotelId := JS.VUndef; Pipeline.hotelName := JS.VUndef;
       Pipeline.originalImageId := JS.VUndef |} in
  Pipeline.handleToggleTag "img-1" "B" (Pipeline.handleToggleTag "img-1" "B" [img]) = [img].
Proof.
  intros img. apply (toggle_twice_restores "img-1" "B" [img]).
  intros x [<-|[]] _ [H|[H|[]]]; discriminate.
Defined.

(** X3.  In a session whose image ids are pairwise different a toggle
    changes one image at most: every image at another position than the
    image with the id [imageId] is left as it was. *)
Theorem toggle_changes_one_image (imageId tag : string)
        (prev : list Pipeline.ImageItem) (i : nat) (img : Pipeline.ImageItem) :
  NoDup (map Pipeline.id prev) ->
  nth_error prev i = Some img ->
  Pipeline.id img = imageId ->
  forall j, j <> i ->
    nth_error (Pipeline.handleToggleTag imageId tag prev) j = nth_error prev j.
Proof.
  intros Hnd Hi Hid j Hj. rewrite ToggleFacts.toggle_nth.
  destruct (nth_error prev j) as [other|] eqn:Ho; [|reflexivity].
  cbn [option_map]. f_equal. apply SessionFacts.toggled_other.
  apply String.eqb_neq. intros E. apply Hj.
  eapply (proj1 (NoDup_nth_error (map Pipeline.id prev)) Hnd).
  - apply nth_error_Some. rewrite nth_error_map, Ho. discriminate.
  - rewrite !nth_error_map, Ho, Hi. cbn [option_map]. congruence.
Qed.

(** X3 at three images of which the second is toggled. *)
Lemma toggle_changes_one_image_witness :
  let img (i : string) :=
    {| Pipeline.id := i; Pipeline.url := JS.VStr "http://x/a.jpg";
       Pipeline.filename := "a.jpg"; Pipeline.tags := [JS.VStr "A"];
       Pipeline.hotelId := JS.VUndef; Pipeline.hotelName := JS.VUndef;
       Pipeline.originalImageId := JS.VUndef |} in
  nth_error (Pipeline.handleToggleTag "img-2" "B" [img "img-1"; img "img-2"; img "img-3"]) 2
  = Some (img "img-3").
Proof.
  intros img.
  apply (toggle_changes_one_image "img-2" "B" [img "img-1"; img "img-2"; img "img-3"]
                                  1 (img "img-2")).
  - repeat constructor; cbn [In map Pipeline.id]; intuition discriminate.
  - reflexivity.
  - reflexivity.
  - discriminate.
Defined.

(** ** Image ids *)

Module IdFacts.
Import JS Pipeline Spec Notions.

Lemma of_Z_inj (a b : Z) : Str.of_Z a = Str.of_Z b -> a = b.
Proof.
  unfold Str.of_Z. intros H.
  assert (N : forall z, NilZero.int_of_string (NilZero.string_of_int (Z.to_int z))
                        = Some (Z.to_int z)).
  { intros z. apply NilZero.isi; destruct z; simpl; try discriminate;
      intros [= E]; now apply DecimalPos.Unsigned.to_uint_nonnil in E. }
  pose proof (N a) as Ha. rewrite H, N in Ha. injection Ha as Ha.
  rewrite <- (DecimalZ.of_to a), <- (DecimalZ.of_to b). now rewrite Ha.
Qed.

Lemma occurs_app (c : ascii) (a b : string) :
  occurs c (a ++ b) = occurs c a || occurs c b.
Proof.
  induction a as [|x a IH]; simpl; [reflexivity|]. now rewrite IH, orb_assoc.
Qed.

Lemma uint_no_dash (d : Decimal.uint) :
  occurs "-" (NilEmpty.string_of_uint d) = false.
Proof. induction d; simpl; trivial. Qed.

Lemma of_nat_no_dash (n : nat) : occurs "-" (Str.of_Z (Z.of_nat n)) = false.
Proof.
  unfold Str.of_Z. destruct (Z.of_nat n) eqn:E; try reflexivity.
  - cbn [Z.to_int NilZero.string_of_int]. unfold NilZero.string_of_uint.
    destruct (Pos.to_uint p); try apply uint_no_dash. reflexivity.
  - lia.
Qed.

Lemma after_last_app (c : ascii) (a b : string) :
  occurs c b = false ->
  after_last c (a ++ String c b) = b.
Proof.
  intros Hb. induction a as [|x a IH].
  - cbn [append after_last]. now rewrite Hb, Ascii.eqb_refl.
  - change (String x a ++ String c b)%string with (String x (a ++ String c b)).
    cbn [after_last]. rewrite occurs_app. cbn [occurs].
    rewrite Ascii.eqb_refl, orb_true_r. exact IH.
Qed.

Lemma append_inj_l (p a b : string) : (p ++ a = p ++ b)%string -> a = b.
Proof. induction p as [|c p IH]; simpl; [trivial|]. intros [= H]. auto. Qed.

(** An id that ends with a dash and the index tells the index. *)
Lemma dashed_inj (f : nat -> string) (i j : nat) :
  (f i ++ "-" ++ Str.of_Z (Z.of_nat i) = f j ++ "-" ++ Str.of_Z (Z.of_nat j))%string ->
  i = j.
Proof.
  intros H. apply (f_equal (after_last "-")) in H.
  cbn [append] in H.
  rewrite !after_last_app in H by apply of_nat_no_dash.
  apply of_Z_inj in H. lia.
Qed.

Lemma NoDup_indexed {A : Type} (f : nat * A -> string) (l : list A) :
  (forall i j x y, f (i, x) = f (j, y) -> i = j) ->
  NoDup (map f (indexed l)).
Proof.
  intros Hinj. unfold indexed. generalize 0 as start.
  induction l as [|x l IH]; intros start; cbn [List.length seq combine map];
    constructor; [|apply IH].
  intros Hin. apply in_map_iff in Hin. destruct Hin as ([j y] & E & Hin).
  apply Hinj in E. subst j. apply in_combine_l in Hin. apply in_seq in Hin. lia.
Qed.

(** With pairwise distinct ids, an id is found where its image is. *)
Lemma findIndex_id (l : list ImageItem) (i : nat) (img : ImageItem) (s : string) :
  NoDup (map id l) ->
  nth_error l i = Some img ->
  id img = s ->
  findIndex (fun x => id x =? s) l = Some i.
Proof.
  intros Hnd Hi <-. apply LoopFacts.findIndex_some. split.
  - exists img. split; [exact Hi|apply String.eqb_refl].
  - intros j y Hj Hy. apply String.eqb_neq. intros E.
    assert (j = i); [|lia].
    eapply (proj1 (NoDup_nth_error (map id l)) Hnd).
    + apply nth_error_Some. rewrite nth_error_map, Hy. discriminate.
    + rewrite !nth_error_map, Hy, Hi. cbn [option_map]. congruence.
Qed.

Lemma demo_id_inj (i j : nat) :
  ("img-demo-" ++ Str.of_Z (Z.of_nat i))%string
  = ("img-demo-" ++ Str.of_Z (Z.of_nat j))%string -> i = j.
Proof. intros E. apply append_inj_l, of_Z_inj in E. lia. Qed.

Lemma starts_with_query (s : string) :
  before_first "?" s = "" <-> s = "" \/ Str.starts_with "?" s = true.
Proof.
  destruct s as [|c s]; cbn [before_first Str.starts_with].
  - split; auto.
  - destruct (Ascii.eqb c "?") eqn:E.
    + rewrite Ascii.eqb_sym, E. split; auto.
    + rewrite Ascii.eqb_sym, E. cbn [andb].
      split; [discriminate|]. intros [H|H]; discriminate.
Qed.

End IdFacts.

(** X4.  The images a spreadsheet upload loads have pairwise different
    ids, whatever the clock reads: two rows of one upload are never
    toggled together. *)
Theorem sheet_ids_distinct (clock : nat -> Z)
        (jsonData : list (list (string * JS.val))) (items : list Pipeline.ImageItem) :
  Pipeline.handleExcelUpload clock jsonData = Pipeline.Loaded items ->
  NoDup (map Pipeline.id items).
Proof.
  intros H. destruct (SheetFacts.loaded_items _ _ _ H) as (firstRow & key & _ & _ & E).
  cbv zeta in E. subst items. rewrite map_map. apply IdFacts.NoDup_indexed.
  intros i j x y. unfold Pipeline.sheet_item. cbn [Pipeline.id].
  intros E. apply IdFacts.append_inj_l in E.
  exact (IdFacts.dashed_inj (fun k => Str.of_Z (clock k)) i j E).
Qed.

(** X4 at a sheet that lists one url twice, read while the clock stands. *)
Lemma sheet_ids_distinct_witness :
  exists items,
    Pipeline.handleExcelUpload Sample.clock
      [[("url", JS.VStr "http://x/a.jpg")]; [("url", JS.VStr "http://x/a.jpg")]]
    = Pipeline.Loaded items
    /\ List.length items = 2
    /\ NoDup (map Pipeline.id items).
Proof.
  eexists. split; [vm_compute; reflexivity|]. split; [reflexivity|].
  apply (sheet_ids_distinct Sample.clock
           [[("url", JS.VStr "http://x/a.jpg")]; [("url", JS.VStr "http://x/a.jpg")]]).
  vm_compute. reflexivity.
Defined.

(** X5.  The demo session of either file has one image per url of
    [IMAGE_URLS], in order, with the url as given, no tags, and
    pairwise different ids. *)
Theorem demo_sessions (IMAGE_URLS : list string) :
  let app := fst (AppTsx.handleLoadDemo IMAGE_URLS) in
  let part := Part000.demoItems IMAGE_URLS in
  map Pipeline.url app = map JS.VStr IMAGE_URLS
  /\ map Pipeline.url part = map JS.VStr IMAGE_URLS
  /\ NoDup (map Pipeline.id app)
  /\ NoDup (map Pipeline.id part)
  /\ Forall (fun img => Pipeline.tags img = []) (app ++ part).
Proof.
  cbv zeta. unfold AppTsx.handleLoadDemo, Part000.demoItems. cbn [fst].
  split; [|split; [|split; [|split]]].
  - rewrite map_map. apply LoopFacts.map_indexed. reflexivity.
  - rewrite map_map. apply LoopFacts.map_indexed. reflexivity.
  - rewrite map_map. apply IdFacts.NoDup_indexed. intros i j x y. apply IdFacts.demo_id_inj.
  - rewrite map_map. apply IdFacts.NoDup_indexed. intros i j x y. apply IdFacts.demo_id_inj.
  - apply Forall_app. split; apply Forall_map, Forall_forall; now intros [i u] _.
Qed.

(** X6.  File names of the demo images.  App.tsx names an image by the
    last path segment of its url as it stands, or [image-<i>.jpg] when
    the segment is empty: the name is never empty.  part_000 replaces
    an empty segment by [image] and strips the query string afterwards:
    the name is empty exactly when the segment starts with [?]. *)
Theorem demo_filenames (IMAGE_URLS : list string) (i : nat) (u : string) :
  nth_error IMAGE_URLS i = Some u ->
  exists app part,
    nth_error (fst (AppTsx.handleLoadDemo IMAGE_URLS)) i = Some app
    /\ nth_error (Part000.demoItems IMAGE_URLS) i = Some part
    /\ Pipeline.filename app
       = (if (Spec.last_path_segment u =? "")
          then ("image-" ++ Str.of_Z (Z.of_nat i) ++ ".jpg")%string
          else Spec.last_path_segment u)
    /\ Pipeline.filename app <> ""
    /\ Pipeline.filename part
       = Spec.without_query (if (Spec.last_path_segment u =? "") then "image"
                             else Spec.last_path_segment u)
    /\ (Pipeline.filename part = ""
        <-> Str.starts_with "?" (Spec.last_path_segment u) = true).
Proof.
  intros Hu. unfold AppTsx.handleLoadDemo, Part000.demoItems. cbn [fst].
  rewrite !nth_error_map, SheetFacts.nth_error_indexed, Hu. cbn [option_map].
  eexists. eexists. split; [reflexivity|]. split; [reflexivity|].
  unfold AppTsx.demo_item, Part000.demo_item. cbn [Pipeline.filename].
  rewrite StrFacts.pop_split. unfold Pipeline.or_string.
  fold (Spec.last_path_segment u).
  assert (Hfirst : forall s, hd EmptyString (Str.split "?" s) = Spec.without_query s).
  { intros s. pose proof (StrFacts.first_split "?" s) as F. unfold Str.first in F.
    destruct (Str.split "?" s); [discriminate|]. now injection F. }
  rewrite Hfirst.
  split; [reflexivity|]. split.
  { destruct (Spec.last_path_segment u =? "") eqn:E; [discriminate|].
    now apply String.eqb_neq in E. }
  split; [reflexivity|].
  unfold Spec.without_query. rewrite IdFacts.starts_with_query.
  destruct (Spec.last_path_segment u =? "") eqn:E.
  - apply String.eqb_eq in E. rewrite E. cbn. split; [intros [H|H]|]; discriminate.
  - apply String.eqb_neq in E. split; [intros [H|H]; [contradiction|exact H]|auto].
Qed.

(** X6 at a url whose last segment is a query string alone. *)
Lemma demo_filenames_witness :
  exists app part,
    nth_error (fst (AppTsx.handleLoadDemo ["http://x/a.jpg"; "http://x/photos/?w=200"])) 1
    = Some app
    /\ nth_error (Part000.demoItems ["http://x/a.jpg"; "http://x/photos/?w=200"]) 1
       = Some part
    /\ Pipeline.filename app = "?w=200"
    /\ Pipeline.filename part = "".
Proof.
  destruct (demo_filenames ["http://x/a.jpg"; "http://x/photos/?w=200"] 1
                           "http://x/photos/?w=200" eq_refl)
    as (app & part & Ha & Hp & Fa & _ & _ & Fp).
  exists app, part. split; [exact Ha|]. split; [exact Hp|].
  split; [exact Fa|]. apply Fp. reflexivity.
Defined.

(** ** The search *)

Module SearchFacts.
Import JS Pipeline Notions.

Lemma contains_empty (s : string) : Str.contains "" s = true.
Proof. destruct s; reflexivity. Qed.


End SearchFacts.

(** X7.  An empty search term shows every image, in session order and
    whatever the tag lists hold.  part_000 returns the session at once;
    App.tsx filters it with the lower-cased term, which every file name
    contains when lower-casing the empty string gives the empty
    string. *)
Theorem empty_search_shows_all (toLowerCase : string -> string)
        (images : list Pipeline.ImageItem) :
  toLowerCase "" = "" ->
  AppTsx.filteredImages toLowerCase images "" = JS.Ok images
  /\ Part000.filteredImages toLowerCase images "" = JS.Ok images.
Proof.
  intros Hlow. split; [|reflexivity].
  unfold AppTsx.filteredImages. cbv zeta. rewrite Hlow.
  apply LoopFacts.filter_res_all. intros img _.
  unfold AppTsx.matches. now rewrite SearchFacts.contains_empty.
Qed.

(** X7 at an image that carries a number as a tag. *)
Lemma empty_search_shows_all_witness :
  let odd :=
    {| Pipeline.id := "img-1"; Pipeline.url := JS.VStr "http://x/a.jpg";
       Pipeline.filename := "a.jpg"; Pipeline.tags := [JS.VNum 3];
       Pipeline.hotelId := JS.VUndef; Pipeline.hotelName := JS.VUndef;
       Pipeline.originalImageId := JS.VUndef |} in
  AppTsx.filteredImages Str.lower [odd] "" = JS.Ok [odd].
Proof.
  intros odd. apply (proj1 (empty_search_shows_all Str.lower [odd] eq_refl)).
Defined.



(** X9.  A tag that is not a string makes the search throw: when the
    file name of an image (and, in part_000, its url) does not contain
    the term and the first tag of the image is not a string, the filter
    calls [toLowerCase] on that tag and the whole search fails with a
    [TypeError]. *)
Theorem search_throws_on_non_string_tag (toLowerCase : string -> string)
        (images : list Pipeline.ImageItem) (searchTerm : string)
        (img : Pipeline.ImageItem) (t : JS.val) (rest : list JS.val) :
  In img images ->
  Pipeline.tags img = t :: rest ->
  JS.is_string t = false ->
  Str.contains (toLowerCase searchTerm) (toLowerCase (Pipeline.filename img)) = false ->
  AppTsx.filteredImages toLowerCase images searchTerm = JS.Throw
  /\ (searchTerm <> "" ->
      (forall u, Pipeline.url img = JS.VStr u ->
                 Str.contains (toLowerCase searchTerm) (toLowerCase u) = false) ->
      Part000.filteredImages toLowerCase images searchTerm = JS.Throw).
Proof.
  intros Hin Htags Ht Hname. split.
  - unfold AppTsx.filteredImages. cbv zeta.
    apply (LoopFacts.filter_res_throw _ _ img Hin).
    unfold AppTsx.matches. rewrite Hname, Htags. cbn [JS.some_res].
    now destruct t.
  - intros Hterm Hurl. unfold Part000.filteredImages.
    apply String.eqb_neq in Hterm. rewrite Hterm.
    apply (LoopFacts.filter_res_throw _ _ img Hin).
    unfold Part000.matches. rewrite Hname.
    destruct (Pipeline.url img) as [| | | |u| |]; try reflexivity.
    cbn [Part000.lower_of JS.bind]. rewrite (Hurl u eq_refl), Htags.
    cbn [JS.some_res]. now destruct t.
Qed.

(** X9 at a session whose second image carries the number 3 as a tag. *)
Lemma search_throws_on_non_string_tag_witness :
  let img (ts : list JS.val) :=
    {| Pipeline.id := "img-1"; Pipeline.url := JS.VStr "http://x/a.jpg";
       Pipeline.filename := "a.jpg"; Pipeline.tags := ts;
       Pipeline.hotelId := JS.VUndef; Pipeline.hotelName := JS.VUndef;
       Pipeline.originalImageId := JS.VUndef |} in
  AppTsx.filteredImages Str.lower [img [JS.VStr "Pool"]; img [JS.VNum 3]] "pool" = JS.Throw.
Proof.
  intros img.
  apply (proj1 (search_throws_on_non_string_tag Str.lower
                  [img [JS.VStr "Pool"]; img [JS.VNum 3]] "pool" (img [JS.VNum 3])
                  (JS.VNum 3) []
                  ltac:(right; left; reflexivity) eq_refl eq_refl eq_refl)).
Defined.

(** ** Selection and keyboard *)

Module KeyFacts.
Import JS Pipeline.

Lemma parseInt_digit (n : nat) :
  1 <= n <= 9 -> Str.parseInt (Str.of_Z (Z.of_nat n)) = Some (Z.of_nat n).
Proof.
  intros H.
  do 10 (destruct n as [|n]; [try lia; reflexivity|]). lia.
Qed.

Lemma digit_not_named (n : nat) :
  1 <= n <= 9 ->
  (Str.of_Z (Z.of_nat n) =? "ArrowLeft") = false
  /\ (Str.of_Z (Z.of_nat n) =? "ArrowRight") = false
  /\ (Str.of_Z (Z.of_nat n) =? "Escape") = false.
Proof.
  intros H.
  do 10 (destruct n as [|n]; [try lia; repeat split; reflexivity|]). lia.
Qed.

Lemma selectedIndex_at (filteredImages : list ImageItem) (i : nat) (here : ImageItem) :
  NoDup (map id filteredImages) ->
  nth_error filteredImages i = Some here ->
  Part000.selectedIndex (Some (id here)) filteredImages = Z.of_nat i.
Proof.
  intros Hnd Hi. unfold Part000.selectedIndex.
  now rewrite (IdFacts.findIndex_id filteredImages i here (id here) Hnd Hi eq_refl).
Qed.

Lemma find_map_id (f : ImageItem -> ImageItem) (s : string) (l : list ImageItem) :
  (forall x, id (f x) = id x) ->
  find (fun i => id i =? s) (map f l) = option_map f (find (fun i => id i =? s) l).
Proof.
  intros Hf. induction l as [|x l IH]; cbn [map find]; [reflexivity|].
  rewrite Hf. destruct (id x =? s); [reflexivity|exact IH].
Qed.

End KeyFacts.

(** X10.  In App.tsx the keyboard is dead while the selected image is
    not among the filtered images: no key, [Escape] included, changes
    the selection or a tag. *)
Theorem keys_dead_when_selection_hidden
        (sel : Pipeline.ImageItem) (filteredImages : list Pipeline.ImageItem)
        (tagDefs : list Pipeline.TagDefinition) (key : string) :
  (forall img, In img filteredImages -> Pipeline.id img <> Pipeline.id sel) ->
  AppTsx.handleKeyDown (Some sel) filteredImages tagDefs key = AppTsx.Ignored.
Proof.
  intros Hnone. unfold AppTsx.handleKeyDown.
  assert (E : JS.findIndex (fun i => Pipeline.id i =? Pipeline.id sel) filteredImages
              = None).
  { apply LoopFacts.findIndex_none. intros x Hx. apply String.eqb_neq. now apply Hnone. }
  now rewrite E.
Qed.

(** X10 at [Escape], pressed while the search hides the selected image. *)
Lemma keys_dead_when_selection_hidden_witness :
  let img (i : string) :=
    {| Pipeline.id := i; Pipeline.url := JS.VStr "http://x/a.jpg";
       Pipeline.filename := "a.jpg"; Pipeline.tags := [];
       Pipeline.hotelId := JS.VUndef; Pipeline.hotelName := JS.VUndef;
       Pipeline.originalImageId := JS.VUndef |} in
  AppTsx.handleKeyDown (Some (img "img-9")) [img "img-1"; img "img-2"] [] "Escape"
  = AppTsx.Ignored.
Proof.
  intros img.
  apply (keys_dead_when_selection_hidden (img "img-9") [img "img-1"; img "img-2"] [] "Escape").
  intros x [<-|[<-|[]]]; discriminate.
Defined.

(** X11.  The number keys of App.tsx reach the first nine tag
    definitions and nothing else: a key press toggles a tag only on the
    selected image and only a tag among the first nine definitions, the
    one whose position [parseInt] reads from the key; and while the
    selected image is among the filtered images the key [i+1], for
    [i < 9], toggles the tag of the definition at position [i]. *)
Theorem digit_keys_toggle_first_nine
        (selectedImage : option Pipeline.ImageItem)
        (filteredImages : list Pipeline.ImageItem)
        (tagDefs : list Pipeline.TagDefinition) :
  (forall key imageId t,
      AppTsx.handleKeyDown selectedImage filteredImages tagDefs key
      = AppTsx.ToggleTag imageId t ->
      exists sel i def,
        selectedImage = Some sel /\ imageId = Pipeline.id sel
        /\ i < 9 /\ nth_error tagDefs i = Some def /\ t = Pipeline.tag def
        /\ Str.parseInt key = Some (Z.of_nat (S i)))
  /\ (forall sel i def,
         selectedImage = Some sel ->
         (exists img, In img filteredImages /\ Pipeline.id img = Pipeline.id sel) ->
         i < 9 ->
         nth_error tagDefs i = Some def ->
         AppTsx.handleKeyDown selectedImage filteredImages tagDefs
                              (Str.of_Z (Z.of_nat (S i)))
         = AppTsx.ToggleTag (Pipeline.id sel) (Pipeline.tag def)).
Proof.
  split.
  - intros key imageId t. unfold AppTsx.handleKeyDown.
    destruct selectedImage as [sel|]; [|discriminate].
    destruct (JS.findIndex _ filteredImages) as [ci|]; [|discriminate].
    destruct (key =? "ArrowLeft").
    { destruct ci as [|ci]; [discriminate|].
      destruct (nth_error filteredImages ci); discriminate. }
    destruct (key =? "ArrowRight").
    { destruct (nth_error filteredImages (S ci)); discriminate. }
    destruct (key =? "Escape"); [discriminate|].
    destruct (Str.parseInt key) as [num|]; [|discriminate].
    destruct ((0 <? num)%Z && (num <=? 9)%Z && (num <=? Z.of_nat (List.length tagDefs))%Z)
      eqn:G; [|discriminate].
    apply andb_true_iff in G. destruct G as [G G3].
    apply andb_true_iff in G. destruct G as [G1 G2].
    apply Z.ltb_lt in G1. apply Z.leb_le in G2.
    destruct (nth_error tagDefs (Z.to_nat (num - 1))) as [def|] eqn:Hd; [|discriminate].
    intros [= <- <-]. exists sel, (Z.to_nat (num - 1)), def.
    repeat split; trivial; [lia|]. f_equal. lia.
  - intros sel i def -> (img & Hin & Hid) Hi Hd. unfold AppTsx.handleKeyDown.
    destruct (JS.findIndex _ filteredImages) as [ci|] eqn:F.
    2:{ apply LoopFacts.findIndex_none with (x := img) in F; [|exact Hin].
        apply String.eqb_neq in F. contradiction. }
    destruct (KeyFacts.digit_not_named (S i)) as (K1 & K2 & K3); [lia|].
    rewrite K1, K2, K3.
    rewrite (KeyFacts.parseInt_digit (S i)) by lia.
    assert (Hlen : i < List.length tagDefs) by (apply nth_error_Some; congruence).
    assert (G1 : (0 <? Z.of_nat (S i))%Z = true) by (apply Z.ltb_lt; lia).
    assert (G2 : (Z.of_nat (S i) <=? 9)%Z = true) by (apply Z.leb_le; lia).
    assert (G3 : (Z.of_nat (S i) <=? Z.of_nat (List.length tagDefs))%Z = true)
      by (apply Z.leb_le; lia).
    rewrite G1, G2, G3. cbn [andb].
    replace (Z.to_nat (Z.of_nat (S i) - 1)) with i by lia.
    now rewrite Hd.
Qed.

(** X11 at the key [7] in the demo session. *)
Lemma digit_keys_toggle_first_nine_witness :
  let img :=
    {| Pipeline.id := "img-1"; Pipeline.url := JS.VStr "http://x/a.jpg";
       Pipeline.filename := "a.jpg"; Pipeline.tags := [];
       Pipeline.hotelId := JS.VUndef; Pipeline.hotelName := JS.VUndef;
       Pipeline.originalImageId := JS.VUndef |} in
  AppTsx.handleKeyDown (Some img) [img] AppTsx.demoTags "7"
  = AppTsx.ToggleTag "img-1" (JS.VStr "会议室").
Proof.
  intros img.
  apply (proj2 (digit_keys_toggle_first_nine (Some img) [img] AppTsx.demoTags)
               img 6 (AppTsx.demo_tag "会议室" "商务" "会议" "大中小型会议室及宴会厅")).
  - reflexivity.
  - exists img. split; [now left|reflexivity].
  - lia.
  - reflexivity.
Defined.

(** X12.  Arrow keys of App.tsx, on filtered images with pairwise
    different ids: from the image at position [i], [ArrowRight] selects
    the image at [i+1] and does nothing at the last image, [ArrowLeft]
    selects the image at [i-1] and does nothing at the first, and
    [ArrowLeft] after [ArrowRight] comes back. *)
Theorem arrow_keys_step (filteredImages : list Pipeline.ImageItem)
        (tagDefs : list Pipeline.TagDefinition)
        (i : nat) (here sel : Pipeline.ImageItem) :
  NoDup (map Pipeline.id filteredImages) ->
  nth_error filteredImages i = Some here ->
  Pipeline.id sel = Pipeline.id here ->
  AppTsx.handleKeyDown (Some sel) filteredImages tagDefs "ArrowRight"
  = match nth_error filteredImages (S i) with
    | Some next => AppTsx.SetSelectedImage (Some next)
    | None => AppTsx.Ignored
    end
  /\ AppTsx.handleKeyDown (Some sel) filteredImages tagDefs "ArrowLeft"
     = match i with
       | S k => match nth_error filteredImages k with
                | Some prev => AppTsx.SetSelectedImage (Some prev)
                | None => AppTsx.Ignored
                end
       | O => AppTsx.Ignored
       end
  /\ (forall next,
         nth_error filteredImages (S i) = Some next ->
         AppTsx.handleKeyDown (Some next) filteredImages tagDefs "ArrowLeft"
         = AppTsx.SetSelectedImage (Some here)).
Proof.
  intros Hnd Hi Hid.
  assert (F : JS.findIndex (fun x => Pipeline.id x =? Pipeline.id sel) filteredImages
              = Some i).
  { eapply IdFacts.findIndex_id; eauto. }
  unfold AppTsx.handleKeyDown. rewrite F. cbn [String.eqb Ascii.eqb Bool.eqb].
  split; [reflexivity|]. split; [destruct i; reflexivity|].
  intros next Hn.
  rewrite (IdFacts.findIndex_id filteredImages (S i) next (Pipeline.id next) Hnd Hn eq_refl).
  now rewrite Hi.
Qed.

(** X12 at the second of three images. *)
Lemma arrow_keys_step_witness :
  let img (i : string) :=
    {| Pipeline.id := i; Pipeline.url := JS.VStr "http://x/a.jpg";
       Pipeline.filename := "a.jpg"; Pipeline.tags := [];
       Pipeline.hotelId := JS.VUndef; Pipeline.hotelName := JS.VUndef;
       Pipeline.originalImageId := JS.VUndef |} in
  AppTsx.handleKeyDown (Some (img "img-2")) [img "img-1"; img "img-2"; img "img-3"] []
                       "ArrowRight"
  = AppTsx.SetSelectedImage (Some (img "img-3")).
Proof.
  intros img.
  apply (proj1 (arrow_keys_step [img "img-1"; img "img-2"; img "img-3"] [] 1
                                (img "img-2") (img "img-2")
                                ltac:(repeat constructor; cbn [In map Pipeline.id];
                                      intuition discriminate)
                                eq_refl eq_refl)).
Defined.

(** X13.  The lightbox of part_000, on filtered images with pairwise
    different ids and with the image at position [i] selected: that
    image is shown; [Escape] clears the selection; [ArrowRight] selects
    the id of the image at [i+1] and keeps the selection at the last
    image; [ArrowLeft] selects the id of the image at [i-1] and keeps
    the selection at the first; [ArrowLeft] after [ArrowRight] comes
    back. *)
Theorem lightbox_navigation (filteredImages : list Pipeline.ImageItem)
        (i : nat) (here : Pipeline.ImageItem) :
  NoDup (map Pipeline.id filteredImages) ->
  nth_error filteredImages i = Some here ->
  let sid := Some (Pipeline.id here) in
  Part000.selectedImage sid filteredImages = Some here
  /\ Part000.handleKey sid filteredImages "Escape" = None
  /\ Part000.handleKey sid filteredImages "ArrowRight"
     = match nth_error filteredImages (S i) with
       | Some next => Some (Pipeline.id next)
       | None => sid
       end
  /\ Part000.handleKey sid filteredImages "ArrowLeft"
     = match i with
       | S k => option_map Pipeline.id (nth_error filteredImages k)
       | O => sid
       end
  /\ (forall next,
         nth_error filteredImages (S i) = Some next ->
         Part000.handleKey (Part000.handleKey sid filteredImages "ArrowRight")
                           filteredImages "ArrowLeft" = sid).
Proof.
  intros Hnd Hi sid.
  assert (Sel : forall j x, nth_error filteredImages j = Some x ->
                  Part000.selectedIndex (Some (Pipeline.id x)) filteredImages = Z.of_nat j
                  /\ Part000.selectedImage (Some (Pipeline.id x)) filteredImages = Some x).
  { intros j x Hj. pose proof (KeyFacts.selectedIndex_at _ _ _ Hnd Hj) as E.
    split; [exact E|]. unfold Part000.selectedImage. rewrite E.
    replace (Z.of_nat j =? -1)%Z with false by (symmetry; apply Z.eqb_neq; lia).
    now rewrite Nat2Z.id. }
  assert (Right : forall j x, nth_error filteredImages j = Some x ->
                    Part000.handleKey (Some (Pipeline.id x)) filteredImages "ArrowRight"
                    = match nth_error filteredImages (S j) with
                      | Some next => Some (Pipeline.id next)
                      | None => Some (Pipeline.id x)
                      end).
  { intros j x Hj. destruct (Sel j x Hj) as [Ej Sj].
    unfold Part000.handleKey. rewrite Sj. cbn [String.eqb Ascii.eqb Bool.eqb andb].
    unfold Part000.handleNext, Part000.hasNext. rewrite Ej.
    destruct (nth_error filteredImages (S j)) as [next|] eqn:Hn.
    - assert (S j < List.length filteredImages) by (apply nth_error_Some; congruence).
      replace (Z.of_nat j <? Z.of_nat (List.length filteredImages) - 1)%Z with true
        by (symmetry; apply Z.ltb_lt; lia).
      replace (Z.to_nat (Z.of_nat j + 1)) with (S j) by lia. now rewrite Hn.
    - apply nth_error_None in Hn.
      replace (Z.of_nat j <? Z.of_nat (List.length filteredImages) - 1)%Z with false
        by (symmetry; apply Z.ltb_ge; lia).
      reflexivity. }
  assert (Left : forall j x, nth_error filteredImages j = Some x ->
                   Part000.handleKey (Some (Pipeline.id x)) filteredImages "ArrowLeft"
                   = match j with
                     | S k => option_map Pipeline.id (nth_error filteredImages k)
                     | O => Some (Pipeline.id x)
                     end).
  { intros j x Hj. destruct (Sel j x Hj) as [Ej Sj].
    unfold Part000.handleKey. rewrite Sj. cbn [String.eqb Ascii.eqb Bool.eqb andb].
    unfold Part000.handlePrev, Part000.hasPrev. rewrite Ej.
    destruct j as [|k]; [reflexivity|].
    replace (0 <? Z.of_nat (S k))%Z with true by (symmetry; apply Z.ltb_lt; lia).
    replace (Z.to_nat (Z.of_nat (S k) - 1)) with k by lia.
    assert (Hk : k < List.length filteredImages).
    { assert (S k < List.length filteredImages) by (apply nth_error_Some; congruence). lia. }
    apply nth_error_Some in Hk.
    destruct (nth_error filteredImages k); [reflexivity|contradiction]. }
  destruct (Sel i here Hi) as [Ei Si].
  split; [exact Si|]. split.
  { unfold Part000.handleKey, sid. now rewrite Si. }
  split; [exact (Right i here Hi)|]. split; [exact (Left i here Hi)|].
  intros next Hn. unfold sid. rewrite (Right i here Hi), Hn, (Left (S i) next Hn), Hi.
  reflexivity.
Qed.

(** X13 at the second of three images. *)
Lemma lightbox_navigation_witness :
  let img (i : string) :=
    {| Pipeline.id := i; Pipeline.url := JS.VStr "http://x/a.jpg";
       Pipeline.filename := "a.jpg"; Pipeline.tags := [];
       Pipeline.hotelId := JS.VUndef; Pipeline.hotelName := JS.VUndef;
       Pipeline.originalImageId := JS.VUndef |} in
  Part000.handleKey (Some "img-2") [img "img-1"; img "img-2"; img "img-3"] "ArrowRight"
  = Some "img-3".
Proof.
  intros img.
  apply (proj1 (proj2 (proj2 (lightbox_navigation [img "img-1"; img "img-2"; img "img-3"] 1
                                (img "img-2")
                                ltac:(repeat constructor; cbn [In map Pipeline.id];
                                      intuition discriminate)
                                eq_refl)))).
Defined.

(** X14.  In part_000 the lightbox closes while the selected id is not
    among the filtered images, and no key changes the selected id in
    that state: the lightbox comes back when the image is listed
    again. *)
Theorem lightbox_closes_when_hidden (sid : string)
        (filteredImages : list Pipeline.ImageItem) :
  (forall img, In img filteredImages -> Pipeline.id img <> sid) ->
  Part000.selectedImage (Some sid) filteredImages = None
  /\ forall key, Part000.handleKey (Some sid) filteredImages key = Some sid.
Proof.
  intros Hnone.
  assert (E : Part000.selectedImage (Some sid) filteredImages = None).
  { unfold Part000.selectedImage, Part000.selectedIndex.
    replace (JS.findIndex (fun img => Pipeline.id img =? sid) filteredImages)
      with (@None nat); [reflexivity|].
    symmetry. apply LoopFacts.findIndex_none. intros x Hx.
    apply String.eqb_neq. now apply Hnone. }
  split; [exact E|]. intros key. unfold Part000.handleKey. now rewrite E.
Qed.

(** X14 at a selection the search has filtered out. *)
Lemma lightbox_closes_when_hidden_witness :
  let img (i : string) :=
    {| Pipeline.id := i; Pipeline.url := JS.VStr "http://x/a.jpg";
       Pipeline.filename := "a.jpg"; Pipeline.tags := [];
       Pipeline.hotelId := JS.VUndef; Pipeline.hotelName := JS.VUndef;
       Pipeline.originalImageId := JS.VUndef |} in
  Part000.selectedImage (Some "img-9") [img "img-1"; img "img-2"] = None.
Proof.
  intros img.
  apply (proj1 (lightbox_closes_when_hidden "img-9" [img "img-1"; img "img-2"]
                  ltac:(intros x [<-|[<-|[]]]; discriminate))).
Defined.

(** X15.  The detail view of App.tsx follows a toggle: when the session
    holds an image with the id of the selected image, [activeImage] is
    the first such image of the session, and after a toggle it is that
    image as the toggle left it. *)
Theorem active_image_follows_toggle (sel : Pipeline.ImageItem)
        (images : list Pipeline.ImageItem) (imageId tag : string) :
  (exists img, In img images /\ Pipeline.id img = Pipeline.id sel) ->
  exists current,
    AppTsx.activeImage (Some sel) images = Some current
    /\ In current images
    /\ Pipeline.id current = Pipeline.id sel
    /\ AppTsx.activeImage (Some sel) (Pipeline.handleToggleTag imageId tag images)
       = Some (Notions.toggled imageId tag current)
    /\ exists before after,
         images = before ++ current :: after
         /\ forall img, In img before -> Pipeline.id img <> Pipeline.id sel.
Proof.
  intros (img & Hin & Hid). unfold AppTsx.activeImage.
  rewrite SessionFacts.toggle_map,
    (KeyFacts.find_map_id _ _ _ (SessionFacts.toggled_id imageId tag)).
  destruct (find (fun i => Pipeline.id i =? Pipeline.id sel) images) as [current|] eqn:F.
  - exists current. pose proof (proj1 (SheetFacts.find_first _ _ _) F) as (b & a & E & _ & Hb).
    apply find_some in F. destruct F as [Hc Ec].
    apply String.eqb_eq in Ec. repeat split; trivial.
    exists b, a. split; [exact E|]. intros y Hy. apply String.eqb_neq. now apply Hb.
  - apply find_none with (x := img) in F; [|exact Hin].
    apply String.eqb_neq in F. contradiction.
Qed.

(** X15 at a selection made before the image got the tag [A]. *)
Lemma active_image_follows_toggle_witness :
  let img (ts : list JS.val) :=
    {| Pipeline.id := "img-1"; Pipeline.url := JS.VStr "http://x/a.jpg";
       Pipeline.filename := "a.jpg"; Pipeline.tags := ts;
       Pipeline.hotelId := JS.VUndef; Pipeline.hotelName := JS.VUndef;
       Pipeline.originalImageId := JS.VUndef |} in
  exists current,
    AppTsx.activeImage (Some (img [])) [img [JS.VStr "A"]] = Some current
    /\ In current [img [JS.VStr "A"]]
    /\ Pipeline.id current = "img-1"
    /\ AppTsx.activeImage (Some (img []))
         (Pipeline.handleToggleTag "img-1" "B" [img [JS.VStr "A"]])
       = Some (Notions.toggled "img-1" "B" current)
    /\ exists before after,
         [img [JS.VStr "A"]] = before ++ current :: after
         /\ forall other, In other before -> Pipeline.id other <> "img-1".
Proof.
  intros img.
  apply (active_image_follows_toggle (img []) [img [JS.VStr "A"]] "img-1" "B").
  exists (img [JS.VStr "A"]). split; [now left|reflexivity].
Defined.

(** X16.  Pagination of part_000.  A scroll event never lowers the
    display limit and reveals 24 more images at most; near the bottom,
    while images are hidden, it reveals at least one more; and after
    [k] such events every image is visible as soon as the limit plus
    [24 * k] reaches the number of filtered images. *)
Theorem scrolling_reveals_all (filteredImages : list Pipeline.ImageItem)
        (displayLimit : nat) :
  (forall nearBottom,
      let next := Part000.handleScroll nearBottom filteredImages displayLimit in
      displayLimit <= next
      /\ List.length (Part000.visibleImages filteredImages next)
         <= List.length (Part000.visibleImages filteredImages displayLimit) + 24)
  /\ (List.length (Part000.visibleImages filteredImages displayLimit)
      < List.length filteredImages ->
      List.length (Part000.visibleImages filteredImages displayLimit)
      < List.length (Part000.visibleImages filteredImages
                       (Part000.handleScroll true filteredImages displayLimit)))
  /\ (forall k,
         List.length filteredImages <= displayLimit + 24 * k ->
         Part000.visibleImages filteredImages
           (Nat.iter k (Part000.handleScroll true filteredImages) displayLimit)
         = filteredImages).
Proof.
  unfold Part000.handleScroll, Part000.visibleImages.
  split; [|split].
  - intros nearBottom. cbv zeta. rewrite !length_firstn.
    destruct nearBottom; cbn [andb]; [|lia].
    destruct (Nat.ltb_spec (Nat.min displayLimit (List.length filteredImages))
                           (List.length filteredImages)); lia.
  - rewrite !length_firstn. cbn [andb]. intros H.
    apply Nat.ltb_lt in H. rewrite H. apply Nat.ltb_lt in H. lia.
  - intros k. revert displayLimit. induction k as [|k IH]; intros L HL.
    + cbn [Nat.iter nat_rect]. apply firstn_all2. lia.
    + rewrite Nat.iter_succ_r. apply IH. cbn [andb]. rewrite length_firstn.
      destruct (Nat.ltb_spec (Nat.min L (List.length filteredImages))
                             (List.length filteredImages)); lia.
Qed.

(** X16 at sixty images, the initial limit of 24 and two scroll events. *)
Lemma scrolling_reveals_all_witness :
  let img :=
    {| Pipeline.id := "img-1"; Pipeline.url := JS.VStr "http://x/a.jpg";
       Pipeline.filename := "a.jpg"; Pipeline.tags := [];
       Pipeline.hotelId := JS.VUndef; Pipeline.hotelName := JS.VUndef;
       Pipeline.originalImageId := JS.VUndef |} in
  Part000.visibleImages (repeat img 60)
    (Nat.iter 2 (Part000.handleScroll true (repeat img 60)) 24)
  = repeat img 60.
Proof.
  intros img.
  apply (proj2 (proj2 (scrolling_reveals_all (repeat img 60) 24)) 2).
  rewrite repeat_length. lia.
Defined.

(** ** The summary view *)

Module SummaryFacts.
Import JS Pipeline Notions SummaryView.

Lemma own_get_set (k k' : string) (v : list ImageItem) (o : list (string * list ImageItem)) :
  own_get k (own_set k' v o) = if (k' =? k) then Some v else own_get k o.
Proof.
  induction o as [|[k0 v0] o IH]; cbn [own_set own_get].
  - reflexivity.
  - destruct (k0 =? k') eqn:E0; cbn [own_get].
    + apply String.eqb_eq in E0. subst k0. now destruct (k' =? k).
    + rewrite IH. destruct (k0 =? k) eqn:E1; [|reflexivity].
      apply String.eqb_eq in E1. subst k0. rewrite String.eqb_sym in E0.
      now rewrite E0.
Qed.

Section Groups.
Variable object_inherits : string -> bool.
Variable array_inherits : string -> bool.
Variable availableTags : list TagDefinition.
Hypothesis no_proto_key :
  Forall (fun def => to_string (tag def) <> "__proto__") availableTags.

Let K := group_key availableTags.
Let filled := holds availableTags.
Let declared := keyed availableTags.

Lemma declared_holds :
  filled (assign unlabeled
            (fold_left (fun g def => assign (to_string (tag def)) g) availableTags
                       {| own := []; proto := None |}))
         (fun _ => []).
Proof.
  assert (G : forall defs g,
             Forall (fun def => to_string (tag def) <> "__proto__") defs ->
             let g' := fold_left (fun g def => assign (to_string (tag def)) g) defs g in
             proto g' = proto g
             /\ forall k, own_get k (own g')
                          = if existsb (fun def => to_string (tag def) =? k) defs
                            then Some [] else own_get k (own g)).
  { induction defs as [|d defs IH]; intros g Hd; cbn [fold_left existsb].
    - split; reflexivity.
    - inversion Hd as [|? ? Hk Hds]; subst.
      destruct (IH (assign (to_string (tag d)) g) Hds) as [Hp Ho].
      cbv zeta in Hp, Ho |- *. rewrite Hp. unfold assign in *.
      apply String.eqb_neq in Hk. rewrite Hk in *. cbn [proto own] in *.
      split; [reflexivity|]. intros k. rewrite Ho, own_get_set.
      destruct (existsb _ defs); [now rewrite orb_true_r|].
      now rewrite orb_false_r. }
  destruct (G availableTags {| own := []; proto := None |} no_proto_key) as [Hp Ho].
  cbv zeta in Hp, Ho. unfold filled, holds, assign.
  assert (U : (unlabeled =? "__proto__") = false) by reflexivity.
  rewrite U. cbn [proto own]. split; [exact Hp|].
  intros k. rewrite own_get_set, Ho. unfold group_key.
  rewrite (String.eqb_sym k). destruct (unlabeled =? k); [reflexivity|].
  cbn [orb own_get]. now destruct (existsb _ availableTags).
Qed.

Lemma push_key (k : string) (img : ImageItem) (g : groups)
      (base : string -> list ImageItem) :
  filled g base -> K k = true ->
  exists g', push object_inherits array_inherits k img g = Ok g'
             /\ filled g' (fun k' => base k' ++ (if (k =? k') then [img] else [])).
Proof.
  intros [Hp Ho] Hk. unfold push, read. rewrite (Ho k). fold K. rewrite Hk.
  eexists. split; [reflexivity|]. split; [exact Hp|].
  intros k'. cbn [own]. rewrite own_get_set, (Ho k'). fold K.
  destruct (k =? k') eqn:E.
  - apply String.eqb_eq in E. subst k'. now rewrite Hk.
  - destruct (K k'); [now rewrite app_nil_r|reflexivity].
Qed.

Lemma push_other (k : string) (img : ImageItem) (g : groups)
      (base : string -> list ImageItem) :
  filled g base -> K k = false ->
  push object_inherits array_inherits k img g
  = if (k =? "__proto__") || object_inherits k then Throw else Ok g.
Proof.
  intros [Hp Ho] Hk. unfold push, read. rewrite (Ho k). fold K. rewrite Hk, Hp.
  now destruct ((k =? "__proto__") || object_inherits k).
Qed.

Lemma holds_ext (g : groups) (base base' : string -> list ImageItem) :
  filled g base -> (forall k, K k = true -> base k = base' k) -> filled g base'.
Proof.
  intros [Hp Ho] E. split; [exact Hp|]. intros k. rewrite Ho. fold K.
  destruct (K k) eqn:Hk; [|reflexivity]. now rewrite E.
Qed.

Lemma tags_loop (img : ImageItem) (ts : list val) :
  forall g base,
    filled g base ->
    Forall (fun t => plain_tag object_inherits availableTags t = true) ts ->
    exists g',
      for_each (fun t g => push object_inherits array_inherits (to_string t) img g) ts g
      = Ok g'
      /\ filled g' (fun k => base k ++ hits k img ts).
Proof.
  induction ts as [|t ts IH]; intros g base Hg Hts; cbn [for_each].
  - exists g. split; [reflexivity|]. eapply holds_ext; [exact Hg|].
    intros k _. unfold hits. cbn. now rewrite app_nil_r.
  - inversion Hts as [|? ? Ht Hts']; subst. unfold plain_tag in Ht. fold K in Ht.
    destruct (K (to_string t)) eqn:Hk.
    + destruct (push_key (to_string t) img g base Hg Hk) as (g1 & E1 & H1).
      rewrite E1. cbn [bind].
      destruct (IH g1 _ H1 Hts') as (g' & E' & H'). exists g'. split; [exact E'|].
      eapply holds_ext; [exact H'|]. intros k _. cbv beta. rewrite <- app_assoc.
      f_equal. unfold hits. cbn [filter].
      destruct (to_string t =? k); reflexivity.
    + cbn [orb] in Ht. apply andb_true_iff in Ht. destruct Ht as [Hn Hi].
      rewrite (push_other _ img g base Hg Hk).
      apply negb_true_iff in Hn, Hi. rewrite Hn, Hi. cbn [orb bind].
      destruct (IH g base Hg Hts') as (g' & E' & H'). exists g'. split; [exact E'|].
      eapply holds_ext; [exact H'|]. intros k Kk. cbv beta. f_equal.
      unfold hits. cbn [filter].
      destruct (to_string t =? k) eqn:E; [|reflexivity].
      apply String.eqb_eq in E. subst k. congruence.
Qed.

Lemma place_holds (img : ImageItem) (g : groups) (base : string -> list ImageItem) :
  filled g base ->
  Forall (fun t => plain_tag object_inherits availableTags t = true) (tags img) ->
  exists g',
    place object_inherits array_inherits img g = Ok g'
    /\ filled g' (fun k => base k ++ members k [img]).
Proof.
  intros Hg Hts. unfold place, members. cbn [flat_map].
  destruct (tags img) as [|t ts] eqn:Et.
  - assert (Hk : K unlabeled = true) by reflexivity.
    destruct (push_key unlabeled img g base Hg Hk) as (g' & E' & H').
    exists g'. split; [exact E'|]. eapply holds_ext; [exact H'|].
    intros k _. cbv beta. rewrite app_nil_r, (String.eqb_sym k). reflexivity.
  - destruct (tags_loop img (t :: ts) g base Hg Hts) as (g' & E' & H').
    exists g'. split; [exact E'|]. eapply holds_ext; [exact H'|].
    intros k _. cbv beta. rewrite app_nil_r. reflexivity.
Qed.

Lemma images_loop (images : list ImageItem) :
  forall g base,
    filled g base ->
    Forall (fun img => Forall (fun t => plain_tag object_inherits availableTags t = true)
                              (tags img)) images ->
    exists g',
      for_each (place object_inherits array_inherits) images g = Ok g'
      /\ filled g' (fun k => base k ++ members k images).
Proof.
  induction images as [|img images IH]; intros g base Hg Hall; cbn [for_each].
  - exists g. split; [reflexivity|]. eapply holds_ext; [exact Hg|].
    intros k _. cbv beta. now rewrite app_nil_r.
  - inversion Hall as [|? ? Himg Hrest]; subst.
    destruct (place_holds img g base Hg Himg) as (g1 & E1 & H1).
    rewrite E1. cbn [bind].
    destruct (IH g1 _ H1 Hrest) as (g' & E' & H'). exists g'. split; [exact E'|].
    eapply holds_ext; [exact H'|]. intros k _. cbv beta.
    rewrite <- app_assoc. f_equal. unfold members. cbn [flat_map].
    now rewrite app_nil_r.
Qed.

Lemma grouped (images : list ImageItem) :
  Forall (fun img => Forall (fun t => plain_tag object_inherits availableTags t = true)
                            (tags img)) images ->
  exists g,
    groupedImages object_inherits array_inherits images availableTags = Ok g
    /\ holds availableTags g (fun k => members k images).
Proof.
  intros Hall. unfold groupedImages. cbv zeta.
  destruct (images_loop images _ _ declared_holds Hall) as (g & E & H).
  exists g. split; [exact E|]. exact H.
Qed.

Lemma holds_keyed (g : groups) (base : string -> list ImageItem) :
  filled g base -> declared g.
Proof.
  intros [Hp Ho]. split; [exact Hp|]. intros k. rewrite Ho.
  now destruct (group_key availableTags k).
Qed.

Lemma push_keyed (k : string) (img : ImageItem) (g g' : groups) :
  declared g -> push object_inherits array_inherits k img g = Ok g' -> declared g'.
Proof.
  intros [Hp Ho]. unfold push, read. pose proof (Ho k) as Hk.
  destruct (own_get k (own g)) as [l|].
  - intros [= <-]. split; [exact Hp|]. intros k'. cbn [own].
    rewrite own_get_set. destruct (k =? k') eqn:E; [|apply Ho].
    apply String.eqb_eq in E. now subst k'.
  - rewrite Hp. destruct ((k =? "__proto__") || object_inherits k); [discriminate|].
    now intros [= <-].
Qed.

Lemma place_keyed (img : ImageItem) (g g' : groups) :
  declared g -> place object_inherits array_inherits img g = Ok g' -> declared g'.
Proof.
  unfold place. destruct (tags img) as [|t ts]; [apply push_keyed|].
  apply (ImportFacts.for_each_inv declared). intros x st st'. apply push_keyed.
Qed.

Lemma grouped_throws (images : list ImageItem) (img : ImageItem) (t : val) :
  In img images -> In t (tags img) ->
  K (to_string t) = false ->
  (to_string t =? "__proto__") || object_inherits (to_string t) = true ->
  groupedImages object_inherits array_inherits images availableTags = Throw.
Proof.
  intros Himg Ht Hk Hbad. unfold groupedImages. cbv zeta.
  apply (LoopFacts.for_each_throws declared _ _ img); [apply place_keyed| |exact Himg|].
  - intros g Hg. unfold place. destruct (tags img) as [|t0 ts] eqn:Et; [contradiction|].
    apply (LoopFacts.for_each_throws declared _ _ t);
      [intros y st st'; apply push_keyed| |exact Ht|exact Hg].
    intros st [Hp Ho]. unfold push, read. specialize (Ho (to_string t)).
    fold K in Ho. rewrite Hk in Ho.
    destruct (own_get (to_string t) (own st)); [discriminate|].
    now rewrite Hp, Hbad.
  - eapply holds_keyed. apply declared_holds.
Qed.

End Groups.
End SummaryFacts.



(** X18.  A tag named like an inherited property breaks the summary
    view: when no definition has the tag [__proto__] and some image
    carries a tag that has no definition and whose string is
    [__proto__] or the name of a property of [Object.prototype], the
    lookup [groups[tag]] finds the inherited value, [push] is not a
    function of it, and grouping throws. *)
Theorem summary_throws_on_inherited_name
        (object_inherits array_inherits : string -> bool)
        (images : list Pipeline.ImageItem) (availableTags : list Pipeline.TagDefinition)
        (img : Pipeline.ImageItem) (t : JS.val) :
  Forall (fun def => JS.to_string (Pipeline.tag def) <> "__proto__") availableTags ->
  In img images ->
  In t (Pipeline.tags img) ->
  Notions.group_key availableTags (JS.to_string t) = false ->
  JS.to_string t = "__proto__" \/ object_inherits (JS.to_string t) = true ->
  SummaryView.sections object_inherits array_inherits images availableTags = JS.Throw.
Proof.
  intros Hkeys Himg Ht Hk Hbad. unfold SummaryView.sections.
  rewrite (SummaryFacts.grouped_throws object_inherits array_inherits availableTags
             Hkeys images img t Himg Ht Hk); [reflexivity|].
  destruct Hbad as [-> | ->]; [reflexivity|apply orb_true_r].
Qed.

(** X18 at an image tagged [constructor]. *)
Lemma summary_throws_on_inherited_name_witness :
  let img :=
    {| Pipeline.id := "img-1"; Pipeline.url := JS.VStr "http://x/a.jpg";
       Pipeline.filename := "a.jpg"; Pipeline.tags := [JS.VStr "constructor"];
       Pipeline.hotelId := JS.VUndef; Pipeline.hotelName := JS.VUndef;
       Pipeline.originalImageId := JS.VUndef |} in
  SummaryView.sections Sample.object_inherits Sample.array_inherits [img] [] = JS.Throw.
Proof.
  intros img.
  apply (summary_throws_on_inherited_name Sample.object_inherits Sample.array_inherits
           [img] [] img (JS.VStr "constructor")).
  - constructor.
  - now left.
  - now left.
  - reflexivity.
  - right. reflexivity.
Defined.

(** ** The flat import: what its two maps keep true *)

Module FlatFacts.
Import JS Pipeline Spec Notions JSFacts.

Lemma keys_map_set {V : Type} (k : val) (v : V) (m : jsmap V) :
  map fst (map_set k v m) = if map_has k m then map fst m else map fst m ++ [k].
Proof.
  unfold map_has. induction m as [|[k' v'] m IH]; cbn [map_set map_get map fst app].
  - reflexivity.
  - destruct (strict_eq k' k); cbn [map fst]; [reflexivity|].
    rewrite IH. now destruct (map_get k m).
Qed.

Lemma In_map_get {V : Type} (k : val) (v : V) (m : jsmap V) :
  NoDup (map fst m) -> In (k, v) m -> strict_eq k k = true -> map_get k m = Some v.
Proof.
  intros Hnd Hin Hk. induction m as [|[k' v'] m IH]; [contradiction|].
  cbn [map fst] in Hnd. inversion Hnd as [|? ? Hnot Hnd']; subst.
  cbn [map_get]. destruct Hin as [[= -> ->]|Hin].
  - now rewrite Hk.
  - destruct (strict_eq k' k) eqn:E; [|now apply IH].
    apply ExportFacts.strict_eq_true in E. subst k'. exfalso. apply Hnot.
    apply in_map_iff. exists (k, v). split; [reflexivity|exact Hin].
Qed.

Lemma map_get_In {V : Type} (k : val) (v : V) (m : jsmap V) :
  map_get k m = Some v -> In (k, v) m.
Proof.
  induction m as [|[k' v'] m IH]; cbn [map_get]; [discriminate|].
  destruct (strict_eq k' k) eqn:E.
  - apply ExportFacts.strict_eq_true in E. subst k'. intros [= ->]. now left.
  - intros H. right. now apply IH.
Qed.

Lemma is_string_refl (k : val) : is_string k = true -> strict_eq k k = true.
Proof. destruct k; try discriminate. intros _. apply String.eqb_refl. Qed.

Lemma notin_keys {V : Type} (k : val) (m : jsmap V) :
  is_string k = true -> map_has k m = false -> ~ In k (map fst m).
Proof.
  intros Hs. unfold map_has. induction m as [|[k0 v0] m IH]; cbn [map_get map fst].
  - intros _ [].
  - destruct (strict_eq k0 k) eqn:E; [discriminate|]. intros H [->|Hin].
    + now rewrite (is_string_refl k Hs) in E.
    + now apply IH.
Qed.

Lemma keys_fresh {V : Type} (k : val) (v : V) (m : jsmap V) :
  NoDup (map fst m) -> is_string k = true -> map_has k m = false ->
  NoDup (map fst (map_set k v m)).
Proof.
  intros Hnd Hs Hk. rewrite keys_map_set, Hk.
  apply NoDup_app; [exact Hnd|repeat constructor; intros []|].
  intros x Hx [<-|[]]. exact (notin_keys k m Hs Hk Hx).
Qed.

Lemma has_after_set {V : Type} (t k : val) (v : V) (m : jsmap V) :
  map_has t m = true -> map_has t (map_set k v m) = true.
Proof.
  unfold map_has. rewrite ExportFacts.map_get_set.
  now destruct (strict_eq k t).
Qed.

Lemma values_of_keys {V : Type} (f : V -> val) (m : jsmap V) :
  NoDup (map fst m) ->
  Forall (fun k => is_string k = true) (map fst m) ->
  (forall k v, map_get k m = Some v -> f v = k) ->
  map f (map snd m) = map fst m.
Proof.
  intros Hnd Hs Hf. rewrite map_map. apply map_ext_in. intros [k v] Hin.
  cbn [fst snd]. apply Hf. apply In_map_get; [exact Hnd|exact Hin|].
  apply is_string_refl. rewrite Forall_forall in Hs. apply Hs.
  apply in_map_iff. exists (k, v). auto.
Qed.

Lemma sound_empty : sound {| groupedImages := []; recoveredDefs := [] |}.
Proof.
  constructor; cbn; try constructor; try discriminate.
Qed.

Lemma tag_step_sound (row u : val) (g : jsmap ImageItem) (d : jsmap TagDefinition)
      (st' : flat_state) :
  sound {| groupedImages := g; recoveredDefs := d |} ->
  tag_step row u g d = Ok st' ->
  sound st'.
Proof.
  intros S. unfold tag_step.
  destruct (map_get u g) as [img|] eqn:Hget; [|intros [= <-]; exact S].
  destruct (or_else (prop row "tag name") (prop row "tag_name"))
    as [| | | |name| |] eqn:Htn; try (intros [= <-]; exact S).
  cbv zeta.
  destruct (truthy (VStr name) && is_string (VStr name) && negb (Str.trim name =? ""))
    eqn:G; [|intros [= <-]; exact S].
  apply andb_true_iff in G. destruct G as [_ G]. apply negb_true_iff in G.
  apply String.eqb_neq in G.
  intros [= <-].
  destruct S as [S1 S2 S3 S4 S5 S6 S7 S8]. cbn [groupedImages recoveredDefs] in *.
  assert (Hu : map_has u g = true) by (unfold map_has; now rewrite Hget).
  set (img' := with_tags img (tags img ++ [VStr name])).
  set (def := {| tag := VStr name;
                 title1 := or_else (prop row "title1") (VStr "");
                 title2 := or_else (prop row "title2") (VStr "");
                 content := or_else (prop row "content") (VStr "") |}).
  set (g' := if includes (VStr name) (tags img) then g else map_set u img' g).
  set (d' := if map_has (VStr name) d then d else map_set (VStr name) def d).
  assert (Kg : map fst g' = map fst g).
  { unfold g'. destruct (includes _ _); [reflexivity|]. now rewrite keys_map_set, Hu. }
  assert (Gg : forall k x, map_get k g' = Some x ->
                 map_get k g = Some x
                 \/ (x = img' /\ map_get k g = Some img)).
  { unfold g'. destruct (includes _ _); [auto|]. intros k x.
    rewrite ExportFacts.map_get_set. destruct (strict_eq u k) eqn:E; [|auto].
    apply ExportFacts.strict_eq_true in E. subst k. intros [= <-]. auto. }
  assert (Hd' : forall t, map_has t d = true -> map_has t d' = true).
  { unfold d'. destruct (map_has (VStr name) d); [auto|]. intros t.
    apply has_after_set. }
  assert (Hname : map_has (VStr name) d' = true).
  { unfold d'. destruct (map_has (VStr name) d) eqn:E; [exact E|].
    unfold map_has. rewrite ExportFacts.map_get_set. cbn [strict_eq].
    now rewrite String.eqb_refl. }
  assert (Gd : forall t x, map_get t d' = Some x ->
                 map_get t d = Some x \/ (t = VStr name /\ x = def)).
  { unfold d'. destruct (map_has (VStr name) d); [auto|]. intros t x.
    rewrite ExportFacts.map_get_set. destruct (strict_eq (VStr name) t) eqn:E; [|auto].
    apply ExportFacts.strict_eq_true in E. subst t. intros [= <-]. auto. }
  assert (Gin : exists x, map_get u g' = Some x /\ In (VStr name) (tags x)).
  { unfold g'. destruct (includes (VStr name) (tags img)) eqn:E.
    - exists img. split; [exact Hget|]. now apply includes_str.
    - exists img'. rewrite ExportFacts.map_get_set.
      assert (Huu : strict_eq u u = true).
      { apply is_string_refl. apply map_get_In in Hget.
        rewrite Forall_forall in S2. apply (S2 u).
        apply in_map_iff. exists (u, img). auto. }
      rewrite Huu. split; [reflexivity|]. cbn [tags img' with_tags].
      apply in_or_app. right. now left. }
  assert (Gkeep : forall k x, map_get k g = Some x ->
                    exists x', map_get k g' = Some x'
                               /\ forall t, In t (tags x) -> In t (tags x')).
  { unfold g'. destruct (includes _ _); [eauto|]. intros k x Hk.
    rewrite ExportFacts.map_get_set. destruct (strict_eq u k) eqn:E.
    - apply ExportFacts.strict_eq_true in E. subst k.
      rewrite Hget in Hk. injection Hk as <-. exists img'. split; [reflexivity|].
      intros t Ht. cbn [tags img' with_tags]. apply in_or_app. now left.
    - eauto. }
  constructor; cbn [groupedImages recoveredDefs]; fold g' d'.
  - now rewrite Kg.
  - now rewrite Kg.
  - intros k x Hk. destruct (Gg k x Hk) as [H|[-> H]]; [now apply S3|].
    cbn [url img' with_tags]. now apply S3.
  - unfold d'. destruct (map_has (VStr name) d) eqn:E; [exact S4|].
    now apply keys_fresh.
  - unfold d'. destruct (map_has (VStr name) d) eqn:E; [exact S5|].
    rewrite keys_map_set, E. apply Forall_app. split; [exact S5|]. now repeat constructor.
  - intros t x Ht. destruct (Gd t x Ht) as [H|[-> ->]]; [now apply S6|].
    split; [reflexivity|]. exists name. auto.
  - intros k x t Hk Ht. destruct (Gg k x Hk) as [H|[-> H]].
    + apply Hd'. eapply S7; eassumption.
    + cbn [tags img' with_tags] in Ht. apply in_app_or in Ht.
      destruct Ht as [Ht|[<-|[]]]; [|exact Hname].
      apply Hd'. eapply S7; eassumption.
  - intros t x Ht. destruct (Gd t x Ht) as [H|[-> ->]].
    + destruct (S8 t x H) as (k & y & Hk & Hy).
      destruct (Gkeep k y Hk) as (y' & Hk' & Hsub). exists k, y'. auto.
    + destruct Gin as (x & Hx & Hin). exists u, x. auto.
Qed.

Section Run.
Variable clock : nat -> Z.
Variable random36 : nat -> string.

Lemma flat_row_steps (i : nat) (row : val) (st : flat_state) :
  flat_row clock random36 (i, row) st
  = (u <- get row "image_url" ;;
     if negb (truthy u) then Ok st else
     grouped <-
       (if map_has u (groupedImages st) then Ok (groupedImages st)
        else
          name <- import_filename u ;;
          Ok (map_set u
                {| id := (if truthy (prop row "image_id")
                          then "restored-" ++ to_string (prop row "image_id")
                          else "img-restored-" ++ Str.of_Z (clock i) ++ "-"
                               ++ random36 i)%string;
                   url := u; filename := name; tags := [];
                   hotelId := prop row "hotel_id";
                   hotelName := prop row "hotel_name";
                   originalImageId := prop row "image_id" |}
                (groupedImages st))) ;;
     tag_step row u grouped (recoveredDefs st)).
Proof. reflexivity. Qed.

Lemma flat_row_sound (ir : nat * val) (st st' : flat_state) :
  sound st -> flat_row clock random36 ir st = Ok st' -> sound st'.
Proof.
  destruct ir as [i row]. rewrite flat_row_steps. intros S.
  destruct (get row "image_url") as [u|]; cbn [bind]; [|discriminate].
  destruct (truthy u) eqn:Tu; cbn [negb]; [|intros [= <-]; exact S].
  destruct (map_has u (groupedImages st)) eqn:Hu; cbn [bind].
  - apply tag_step_sound. now destruct st.
  - destruct (import_filename u) as [name|] eqn:Hname; cbn [bind]; [|discriminate].
    apply tag_step_sound.
    assert (Hs : is_string u = true) by (destruct u; try discriminate; reflexivity).
    destruct S as [S1 S2 S3 S4 S5 S6 S7 S8].
    constructor; cbn [groupedImages recoveredDefs]; trivial.
    + now apply keys_fresh.
    + rewrite keys_map_set, Hu. apply Forall_app. split; [exact S2|].
      repeat constructor; assumption.
    + intros k x. rewrite ExportFacts.map_get_set.
      destruct (strict_eq u k) eqn:E; [|apply S3].
      apply ExportFacts.strict_eq_true in E. subst k. now intros [= <-].
    + intros k x t. rewrite ExportFacts.map_get_set.
      destruct (strict_eq u k) eqn:E; [|apply S7]. now intros [= <-].
    + intros t x Ht. destruct (S8 t x Ht) as (k & y & Hk & Hy). exists k, y.
      rewrite ExportFacts.map_get_set. destruct (strict_eq u k) eqn:E; [|auto].
      apply ExportFacts.strict_eq_true in E. subst k.
      apply RoundTrip.map_has_false_get in Hu. congruence.
Qed.

Lemma import_flat_sound (json : list val) (images : list ImageItem)
      (defs : list TagDefinition) :
  import_flat clock random36 json = Ok (Imported images defs) ->
  exists st, sound st /\ images = map snd (groupedImages st)
             /\ defs = map snd (recoveredDefs st).
Proof.
  unfold import_flat.
  destruct (for_each _ _ _) as [st|] eqn:Hrun; cbn [bind]; [|discriminate].
  intros [= <- <-]. exists st. split; [|split; reflexivity].
  eapply (ImportFacts.for_each_inv sound); [|exact sound_empty|exact Hrun].
  intros x s s'. apply flat_row_sound.
Qed.


End Run.


End FlatFacts.

(** X19.  The images of a flat import have pairwise different urls,
    each a non-empty string: the records of one url make one image. *)
Theorem flat_import_urls_distinct (clock : nat -> Z) (random36 : nat -> string)
        (json : list JS.val) (images : list Pipeline.ImageItem)
        (defs : list Pipeline.TagDefinition) :
  Pipeline.import_flat clock random36 json = JS.Ok (Pipeline.Imported images defs) ->
  NoDup (map Pipeline.url images)
  /\ Forall (fun img => exists u, Pipeline.url img = JS.VStr u /\ u <> "") images.
Proof.
  intros H.
  destruct (FlatFacts.import_flat_sound clock random36 json images defs H)
    as (st & [S1 S2 S3 _ _ _ _ _] & -> & _).
  assert (E : map Pipeline.url (map snd (Pipeline.groupedImages st))
              = map fst (Pipeline.groupedImages st)).
  { apply FlatFacts.values_of_keys; trivial.
    eapply Forall_impl; [|exact S2]. now intros k [Hk _]. }
  split; [now rewrite E|].
  rewrite <- E in S2. rewrite Forall_map in S2.
  eapply Forall_impl; [|exact S2]. cbv beta. intros img [Hs Ht].
  destruct (Pipeline.url img) as [| | | |u| |]; try discriminate.
  exists u. split; [reflexivity|]. intros ->. discriminate.
Qed.

(** X19 at three records, two of them of one url. *)
Lemma flat_import_urls_distinct_witness :
  let row (u t : string) :=
    JS.VObj [("image_url", JS.VStr u); ("tag name", JS.VStr t)] in
  exists images defs,
    Pipeline.import_flat Sample.clock Sample.random36
      [row "http://x/a.jpg" "A"; row "http://x/b.jpg" ""; row "http://x/a.jpg" "B"]
    = JS.Ok (Pipeline.Imported images defs)
    /\ List.length images = 2
    /\ NoDup (map Pipeline.url images).
Proof.
  intros row. eexists. eexists. split; [vm_compute; reflexivity|].
  split; [reflexivity|].
  apply (flat_import_urls_distinct Sample.clock Sample.random36
           [row "http://x/a.jpg" "A"; row "http://x/b.jpg" ""; row "http://x/a.jpg" "B"]
           _ _ ltac:(vm_compute; reflexivity)).
Defined.

(** X20.  The definitions a flat import recovers fit its images: every
    tag of every image has a definition, every definition is the tag of
    some image, no two definitions have the same tag, and every tag is
    a string that is not blank. *)
Theorem flat_import_definitions (clock : nat -> Z) (random36 : nat -> string)
        (json : list JS.val) (images : list Pipeline.ImageItem)
        (defs : list Pipeline.TagDefinition) :
  Pipeline.import_flat clock random36 json = JS.Ok (Pipeline.Imported images defs) ->
  (forall img t, In img images -> In t (Pipeline.tags img) ->
                 exists def, In def defs /\ Pipeline.tag def = t)
  /\ (forall def, In def defs ->
                  exists img, In img images /\ In (Pipeline.tag def) (Pipeline.tags img))
  /\ NoDup (map Pipeline.tag defs)
  /\ Forall (fun def => exists s, Pipeline.tag def = JS.VStr s /\ Str.trim s <> "") defs.
Proof.
  intros H.
  destruct (FlatFacts.import_flat_sound clock random36 json images defs H)
    as (st & [S1 S2 S3 S4 S5 S6 S7 S8] & -> & ->).
  assert (Gi : forall img, In img (map snd (Pipeline.groupedImages st)) ->
                 exists k, Pipeline.map_get k (Pipeline.groupedImages st) = Some img).
  { intros img Hin. apply in_map_iff in Hin. destruct Hin as ([k x] & E & Hin).
    cbn [snd] in E. subst x. exists k. apply FlatFacts.In_map_get; trivial.
    apply FlatFacts.is_string_refl. rewrite Forall_forall in S2.
    apply (S2 k). apply in_map_iff. exists (k, img). auto. }
  assert (Gd : forall def, In def (map snd (Pipeline.recoveredDefs st)) ->
                 exists t, Pipeline.map_get t (Pipeline.recoveredDefs st) = Some def).
  { intros def Hin. apply in_map_iff in Hin. destruct Hin as ([k x] & E & Hin).
    cbn [snd] in E. subst x. exists k. apply FlatFacts.In_map_get; trivial.
    apply FlatFacts.is_string_refl. rewrite Forall_forall in S5.
    apply (S5 k). apply in_map_iff. exists (k, def). auto. }
  split; [|split; [|split]].
  - intros img t Himg Ht. destruct (Gi img Himg) as (k & Hk).
    pose proof (S7 k img t Hk Ht) as Hhas. unfold Pipeline.map_has in Hhas.
    destruct (Pipeline.map_get t (Pipeline.recoveredDefs st)) as [def|] eqn:Hd;
      [|discriminate].
    exists def. split; [|now apply S6].
    apply FlatFacts.map_get_In in Hd. apply in_map_iff. exists (t, def). auto.
  - intros def Hdef. destruct (Gd def Hdef) as (t & Ht).
    destruct (S8 t def Ht) as (k & img & Hk & Hin).
    exists img. split.
    + apply FlatFacts.map_get_In in Hk. apply in_map_iff. exists (k, img). auto.
    + now rewrite (proj1 (S6 t def Ht)).
  - rewrite (FlatFacts.values_of_keys Pipeline.tag); trivial.
    intros k v Hk. now apply S6.
  - apply Forall_forall. intros def Hdef. destruct (Gd def Hdef) as (t & Ht).
    destruct (S6 t def Ht) as (E & s & -> & Hs). exists s. auto.
Qed.

(** X20 at three records that name [A], a blank and [B]. *)
Lemma flat_import_definitions_witness :
  let row (u t : string) :=
    JS.VObj [("image_url", JS.VStr u); ("tag name", JS.VStr t)] in
  exists images defs,
    Pipeline.import_flat Sample.clock Sample.random36
      [row "http://x/a.jpg" "A"; row "http://x/b.jpg" " "; row "http://x/a.jpg" "B"]
    = JS.Ok (Pipeline.Imported images defs)
    /\ map Pipeline.tag defs = [JS.VStr "A"; JS.VStr "B"]
    /\ NoDup (map Pipeline.tag defs).
Proof.
  intros row. eexists. eexists. split; [vm_compute; reflexivity|].
  split; [reflexivity|].
  apply (flat_import_definitions Sample.clock Sample.random36
           [row "http://x/a.jpg" "A"; row "http://x/b.jpg" " "; row "http://x/a.jpg" "B"]
           _ _ ltac:(vm_compute; reflexivity)).
Defined.

(** X21.  The alerts of the session import.  A text that does not parse
    is answered with the parse alert.  The alert for an invalid or
    empty file is given exactly when the text parses to a value that is
    not a non-empty array.  A first record that is neither an object
    nor an array makes the format test throw: the parse alert again.
    The alert for a file without valid images is given by the legacy
    branch only. *)
Theorem import_alerts (clock : nat -> Z) (random36 : nat -> string)
        (JSON_parse : string -> option JS.val) (text : string) :
  let outcome := Pipeline.handleJsonSessionUpload clock random36 JSON_parse text in
  (JSON_parse text = None -> outcome = Pipeline.Alert Pipeline.ParseFailed)
  /\ (outcome = Pipeline.Alert Pipeline.InvalidOrEmpty
      <-> exists json, JSON_parse text = Some json
                       /\ forall first rest, json <> JS.VArr (first :: rest))
  /\ (forall first rest,
         JSON_parse text = Some (JS.VArr (first :: rest)) ->
         match first with JS.VObj _ | JS.VArr _ => False | _ => True end ->
         outcome = Pipeline.Alert Pipeline.ParseFailed)
  /\ (outcome = Pipeline.Alert Pipeline.NoValidImages ->
      exists first rest,
        JSON_parse text = Some (JS.VArr (first :: rest))
        /\ JS.has_key "tag name" first = JS.Ok false
        /\ JS.has_key "tag_name" first = JS.Ok false).
Proof.
  cbv zeta. unfold Pipeline.handleJsonSessionUpload.
  split; [now intros ->|]. split; [|split].
  - split.
    + destruct (JSON_parse text) as [json|]; [|discriminate].
      intros H. exists json. split; [reflexivity|]. intros first rest ->.
      unfold Pipeline.import_session in H.
      destruct (JS.has_key "tag name" first) as [a|]; cbn [JS.bind] in H; [|discriminate].
      destruct (if a then JS.Ok true else JS.has_key "tag_name" first) as [[|]|];
        cbn [JS.bind] in H; [| |discriminate].
      * unfold Pipeline.import_flat in H.
        destruct (JS.for_each _ _ _); cbn [JS.bind] in H; discriminate.
      * unfold Pipeline.import_legacy in H.
        destruct (JS.map_res _ _) as [items|]; cbn [JS.bind] in H; [|discriminate].
        destruct (JS.for_each _ _ _); cbn [JS.bind] in H; [|discriminate].
        destruct (filter _ items); discriminate.
    + intros (json & -> & Hne). unfold Pipeline.import_session.
      destruct json as [| | | | |[|first rest]|]; try reflexivity.
      now destruct (Hne first rest).
  - intros first rest -> Hfirst. unfold Pipeline.import_session.
    destruct first; try contradiction; reflexivity.
  - destruct (JSON_parse text) as [json|]; [|discriminate].
    unfold Pipeline.import_session.
    destruct json as [| | | | |[|first rest]|]; try discriminate.
    destruct (JS.has_key "tag name" first) as [[|]|] eqn:H1; cbn [JS.bind];
      [| |discriminate].
    + unfold Pipeline.import_flat.
      destruct (JS.for_each _ _ _); cbn [JS.bind]; discriminate.
    + destruct (JS.has_key "tag_name" first) as [[|]|] eqn:H2; cbn [JS.bind];
        [| |discriminate].
      * unfold Pipeline.import_flat.
        destruct (JS.for_each _ _ _); cbn [JS.bind]; discriminate.
      * intros _. exists first, rest. auto.
Qed.

(** X21 at a file that holds one record and no array around it. *)
Lemma import_alerts_witness :
  Pipeline.handleJsonSessionUpload Sample.clock Sample.random36 Json.parse
    (Sample.json "{'image_url': 'http://x/a.jpg'}")
  = Pipeline.Alert Pipeline.InvalidOrEmpty.
Proof.
  apply (proj2 (proj1 (proj2 (import_alerts Sample.clock Sample.random36 Json.parse
                                (Sample.json "{'image_url': 'http://x/a.jpg'}"))))).
  eexists. split; [vm_compute; reflexivity|]. intros first rest. discriminate.
Defined.



(** X23.  Export followed by import, for a session of any size.  When
    the session is not empty, the urls of its images are pairwise
    different non-empty strings, and each image's tags are strings that
    are not blank and occur once in the image, exporting with either
    exporter and importing the record array gives a session with the
    same urls and the same tag lists, image by image in the same
    order. *)
Theorem round_trip_of_sessions
        (clock : nat -> Z) (random36 : nat -> string)
        (export : list Pipeline.ImageItem -> list Pipeline.TagDefinition -> list JS.val)
        (session : list Pipeline.ImageItem) (tagDefs : list Pipeline.TagDefinition) :
  export = Part000.handleExport \/ export = AppTsx.handleExport ->
  session <> [] ->
  NoDup (map Pipeline.url session) ->
  Forall (fun img =>
            (exists u, Pipeline.url img = JS.VStr u /\ u <> "")
            /\ exists ts, Pipeline.tags img = map JS.VStr ts
                          /\ Forall (fun t => Str.trim t <> "") ts /\ NoDup ts)
         session ->
  exists images defs,
    Spec.export_then_import clock random36 export session tagDefs
    = JS.Ok (Pipeline.Imported images defs)
    /\ map Pipeline.url images = map Pipeline.url session
    /\ map Pipeline.tags images = map Pipeline.tags session.
Proof.
  intros Hexport Hne Hurls Hall.
  destruct (RoundTrip.exporters export tagDefs Hexport) as (records & [Hrows _] & Eexp).
  assert (Hshape : exists shape, Forall2 Notions.image_ok session shape).
  { clear -Hall.
    induction Hall as [|img l ((u & Hu & Hune) & ts & Ht & Hg & Hn) _ (shape & IH)].
    - exists []. constructor.
    - exists ((u, ts) :: shape). constructor; [|exact IH]. repeat split; assumption. }
  destruct Hshape as (shape & Hshape).
  assert (Hkeys : NoDup (map fst shape)).
  { assert (E : map Pipeline.url session = map JS.VStr (map fst shape)).
    { clear -Hshape. induction Hshape as [|img ut l shape (Hu & _) _ IH]; [reflexivity|].
      cbn [map]. now rewrite Hu, IH. }
    rewrite E in Hurls. eapply NoDup_map_inv. exact Hurls. }
  destruct (RoundTrip.import_of_records clock random36 records session shape
              Hne Hshape Hkeys Hrows) as (imgs & Himp & Hu & Ht).
  exists imgs. eexists. unfold Spec.export_then_import. rewrite Eexp. eauto.
Qed.

(** X23 at a session of three images, exported by App.tsx. *)
Lemma round_trip_of_sessions_witness :
  let img (u : string) (ts : list JS.val) :=
    {| Pipeline.id := "img-1"; Pipeline.url := JS.VStr u; Pipeline.filename := "a.jpg";
       Pipeline.tags := ts; Pipeline.hotelId := JS.VNum 7;
       Pipeline.hotelName := JS.VStr "H"; Pipeline.originalImageId := JS.VUndef |} in
  let session :=
    [img "http://x/a.jpg" [JS.VStr "A"]; img "http://x/b.jpg" [];
     img "http://x/c.jpg" [JS.VStr "B"; JS.VStr "A"]] in
  exists images defs,
    Spec.export_then_import Sample.clock Sample.random36 AppTsx.handleExport session []
    = JS.Ok (Pipeline.Imported images defs)
    /\ map Pipeline.url images = map Pipeline.url session
    /\ map Pipeline.tags images = map Pipeline.tags session.
Proof.
  intros img session.
  apply (round_trip_of_sessions Sample.clock Sample.random36 AppTsx.handleExport session []).
  - now right.
  - discriminate.
  - repeat constructor; cbn [In map Pipeline.url]; intuition discriminate.
  - repeat constructor.
    + exists "http://x/a.jpg". split; [reflexivity|discriminate].
    + exists ["A"]. split; [reflexivity|]. split; repeat constructor;
        try (vm_compute; discriminate). intros [].
    + exists "http://x/b.jpg". split; [reflexivity|discriminate].
    + exists []. split; [reflexivity|]. split; constructor.
    + exists "http://x/c.jpg". split; [reflexivity|discriminate].
    + exists ["B"; "A"]. split; [reflexivity|]. split; repeat constructor;
        try (vm_compute; discriminate); cbn [In]; intuition discriminate.
Defined.

(** ** The two parsers side by side *)

Module AgreeFacts.
Import JS Pipeline Spec.

Lemma replace_absent (c : ascii) (p rep s : string) :
  occurs c s = false -> Str.replace_all (String c p) rep s = s.
Proof.
  unfold Str.replace_all. induction s as [|a s IH]; [reflexivity|].
  cbn [occurs Str.replace_from Str.starts_with]. intros H.
  apply orb_false_iff in H. destruct H as [Ha Hs].
  rewrite Ascii.eqb_sym, Ha. cbn [andb]. now rewrite IH.
Qed.

Lemma extract_arrays (items : list val) :
  AppTsx.extract (VArr items) = Part000.extract (VArr items).
Proof.
  unfold AppTsx.extract, Part000.extract. f_equal.
  apply LoopFacts.for_each_ext. intros item st.
  now rewrite ParserFacts.app_step, ParserFacts.part_step.
Qed.

End AgreeFacts.

(** X24.  The sanitization pass changes nothing in a text that has no
    single quote and none of the capitals [N], [T], [F]. *)
Theorem sanitize_leaves_plain_text (raw : string) :
  Spec.occurs "'" raw = false ->
  Spec.occurs "N" raw = false ->
  Spec.occurs "T" raw = false ->
  Spec.occurs "F" raw = false ->
  Pipeline.sanitize raw = raw.
Proof.
  intros Hq Hn Ht Hf. unfold Pipeline.sanitize.
  rewrite (AgreeFacts.replace_absent "'" "" _ raw Hq).
  rewrite (AgreeFacts.replace_absent "N" "one" _ raw Hn).
  rewrite (AgreeFacts.replace_absent "T" "rue" _ raw Ht).
  exact (AgreeFacts.replace_absent "F" "alse" _ raw Hf).
Qed.

(** X24 at a JSON text in lower case. *)
Lemma sanitize_leaves_plain_text_witness :
  Pipeline.sanitize (Sample.json "[{'short_point': [{'tag': 'pool', 'content': 'none'}]}]")
  = Sample.json "[{'short_point': [{'tag': 'pool', 'content': 'none'}]}]".
Proof.
  apply (sanitize_leaves_plain_text
           (Sample.json "[{'short_point': [{'tag': 'pool', 'content': 'none'}]}]"));
    vm_compute; reflexivity.
Defined.

(** X25.  Where the two parsers agree.  On an array root both files
    extract the same definitions or fail alike.  When the strict parse
    of the input fails, or sanitization leaves the input as it is, both
    files hand the same value to extraction, and they give the same
    definitions or the same kind of error unless that value is an
    object. *)
Theorem parsers_agree_off_objects (JSON_parse : string -> option JS.val) (raw : string) :
  (forall items, AppTsx.extract (JS.VArr items) = Part000.extract (JS.VArr items))
  /\ (JSON_parse raw = None \/ Pipeline.sanitize raw = raw ->
      AppTsx.parse_data JSON_parse raw = Part000.parse_data JSON_parse raw
      /\ ((forall fields, JSON_parse (Pipeline.sanitize raw) <> Some (JS.VObj fields)) ->
          AppTsx.parseTagInput JSON_parse raw = Part000.parseTagInput JSON_parse raw)).
Proof.
  split; [apply AgreeFacts.extract_arrays|]. intros Hsame.
  assert (E : AppTsx.parse_data JSON_parse raw = Part000.parse_data JSON_parse raw).
  { unfold AppTsx.parse_data, Part000.parse_data. destruct Hsame as [-> | ->]; [reflexivity|].
    now destruct (JSON_parse raw). }
  split; [exact E|]. intros Hobj.
  unfold AppTsx.parseTagInput, Part000.parseTagInput. rewrite E.
  destruct (Str.trim raw =? ""); [reflexivity|].
  unfold Part000.parse_data in *.
  destruct (JSON_parse (Pipeline.sanitize raw)) as [data|]; [|reflexivity].
  destruct data; try reflexivity.
  - now rewrite AgreeFacts.extract_arrays.
  - now destruct (Hobj fields).
Qed.

(** X25 at a Python literal, which the strict parse rejects. *)
Lemma parsers_agree_off_objects_witness :
  AppTsx.parseTagInput Json.parse Texts.python_with_None
  = Part000.parseTagInput Json.parse Texts.python_with_None.
Proof.
  apply (proj2 (parsers_agree_off_objects Json.parse Texts.python_with_None)).
  - left. vm_compute. reflexivity.
  - intros fields. vm_compute. discriminate.
Defined.

(** ** The outcomes of a spreadsheet upload *)

Module UploadFacts.
Import JS Pipeline Spec.

Ltac parsed_items E :=
  match goal with
  | |- match ?m with _ => _ end = _ -> _ => destruct m eqn:E
  end.

End UploadFacts.

(** X26.  The outcomes of a spreadsheet upload.  The sheet is reported
    empty exactly when it has no rows.  With a first row, the missing
    url column is reported exactly when no column with a non-empty name
    matches a url pattern and no cell of the first row, as a string,
    starts with [http].  The error for an invalid url column needs a
    column whose name is the empty string.  When no row is extracted
    the url column was found and its cell is falsy in every row.  An
    upload that loads images loads one image per row whose url cell is
    truthy. *)
Theorem upload_errors (clock : nat -> Z) (jsonData : list (list (string * JS.val))) :
  let outcome := Pipeline.handleExcelUpload clock jsonData in
  (outcome = Pipeline.UploadError Pipeline.SheetEmpty <-> jsonData = [])
  /\ (forall firstRow rest,
         jsonData = firstRow :: rest ->
         (outcome = Pipeline.UploadError Pipeline.NoImageUrlColumn
          <-> Pipeline.key_found
                (Pipeline.findKey (map fst firstRow) Pipeline.url_patterns) = false
              /\ forall k, In k (map fst firstRow) ->
                           Str.starts_with "http" (JS.to_string (JS.lookup k firstRow))
                           = false)
         /\ (outcome = Pipeline.UploadError Pipeline.NoValidUrlColumn ->
             In "" (map fst firstRow))
         /\ (outcome = Pipeline.UploadError Pipeline.NoRowsExtracted ->
             exists key,
               Pipeline.effective_url_key firstRow = Some key
               /\ Forall (fun row => JS.truthy (JS.lookup key row) = false) jsonData)
         /\ (forall items,
                outcome = Pipeline.Loaded items ->
                exists key,
                  Pipeline.effective_url_key firstRow = Some key
                  /\ items <> []
                  /\ List.length items
                     = List.length (filter (fun row => JS.truthy (JS.lookup key row))
                                           jsonData))).
Proof.
  cbv zeta. split.
  { split; [|now intros ->]. unfold Pipeline.handleExcelUpload.
    destruct jsonData as [|firstRow rest]; [reflexivity|]. cbv zeta.
    destruct (_ && _); [discriminate|].
    destruct (Pipeline.effective_url_key firstRow) as [key|]; [|discriminate].
    destruct (key =? ""); [discriminate|].
    UploadFacts.parsed_items E; discriminate. }
  intros firstRow rest ->. unfold Pipeline.handleExcelUpload. cbv zeta.
  set (keys := map fst firstRow).
  set (urlKey := Pipeline.findKey keys Pipeline.url_patterns).
  assert (Heff : Pipeline.effective_url_key firstRow
                 = if Pipeline.key_found urlKey then urlKey
                   else find (Pipeline.looks_like_url firstRow) keys).
  { unfold Pipeline.effective_url_key, Pipeline.key_found. cbv zeta. fold keys urlKey.
    destruct urlKey as [k|]; [|reflexivity]. now destruct (k =? ""). }
  destruct (negb (Pipeline.key_found urlKey)
            && negb (existsb (Pipeline.looks_like_url firstRow) keys)) eqn:G.
  { apply andb_true_iff in G. destruct G as [G1 G2].
    apply negb_true_iff in G1, G2.
    split; [|split; [|split]]; try discriminate.
    split; [intros _|reflexivity]. split; [exact G1|].
    intros k Hk. destruct (Str.starts_with _ _) eqn:E; [|reflexivity].
    rewrite <- G2. symmetry. apply existsb_exists. exists k. auto. }
  assert (Hfound : Pipeline.key_found urlKey = true
                   \/ (Pipeline.key_found urlKey = false
                       /\ existsb (Pipeline.looks_like_url firstRow) keys = true)).
  { apply andb_false_iff in G. destruct G as [G|G]; apply negb_false_iff in G; [auto|].
    destruct (Pipeline.key_found urlKey); auto. }
  split.
  { split.
    - destruct (Pipeline.effective_url_key firstRow) as [key|]; [|discriminate].
      destruct (key =? ""); [discriminate|]. UploadFacts.parsed_items E; discriminate.
    - intros [H1 H2]. exfalso. destruct Hfound as [H|[_ H]]; [congruence|].
      apply existsb_exists in H. destruct H as (k & Hk & Hl).
      unfold Pipeline.looks_like_url in Hl. rewrite (H2 k Hk) in Hl. discriminate. }
  split.
  { rewrite Heff. destruct Hfound as [H|[H Hex]]; rewrite H.
    - unfold Pipeline.key_found in H. destruct urlKey as [k|]; [|discriminate].
      apply negb_true_iff in H. rewrite H. UploadFacts.parsed_items E; discriminate.
    - destruct (find (Pipeline.looks_like_url firstRow) keys) as [k|] eqn:F.
      + destruct (k =? "") eqn:E; [|UploadFacts.parsed_items E'; discriminate].
        intros _. apply String.eqb_eq in E. subst k. now apply find_some in F.
      + apply existsb_exists in Hex. destruct Hex as (k & Hk & Hl).
        now rewrite (find_none _ _ F k Hk) in Hl. }
  split.
  { destruct (Pipeline.effective_url_key firstRow) as [key|]; [|discriminate].
    destruct (key =? ""); [discriminate|].
    UploadFacts.parsed_items E; [|discriminate]. intros _. exists key.
    split; [reflexivity|]. apply Forall_forall.
    apply LoopFacts.filter_none.
    apply (f_equal (@List.length _)) in E.
    rewrite length_map in E. unfold Pipeline.indexed in E.
    rewrite length_combine, length_seq, Nat.min_id in E.
    now apply length_zero_iff_nil. }
  intros items.
  destruct (Pipeline.effective_url_key firstRow) as [key|]; [|discriminate].
  destruct (key =? ""); [discriminate|].
  UploadFacts.parsed_items E; [discriminate|]. intros [= <-]. exists key.
  split; [reflexivity|]. split; [discriminate|].
  rewrite <- E, length_map. unfold Pipeline.indexed.
  now rewrite length_combine, length_seq, Nat.min_id.
Qed.

(** X26 at a sheet with a hotel name and nothing else. *)
Lemma upload_errors_witness :
  Pipeline.handleExcelUpload Sample.clock [[("name", JS.VStr "Demo Hotel")]]
  = Pipeline.UploadError Pipeline.NoImageUrlColumn.
Proof.
  apply (proj2 (proj1 (proj2 (upload_errors Sample.clock [[("name", JS.VStr "Demo Hotel")]])
                        [("name", JS.VStr "Demo Hotel")] [] eq_refl))).
  split; [reflexivity|]. intros k [<-|[]]. reflexivity.
Defined.
